(** * Secure: the versioned envelope protocol

    A shallow embedding of the encryption core of the Secure application
    (kdf.ts, crypto-header.ts, crypto-v2.ts, legacy-crypto.ts and the
    triple-layer vault of CryptoVault.tsx), of the handlers of its
    screens, and of the first message screen with its own copy of the
    legacy functions, followed by the properties of the protocol.

    Conventions.
    - A [Uint8Array] is a [list byte]; a JavaScript string is the list of
      its UTF-16 code units; a JavaScript number that the code only uses as
      an integer is a [Z].
    - A thrown [Error] is the [Err] branch of [result]; the messages are
      the constructors of [error].  A [catch] that logs and rethrows is
      left out.
    - An optional property of an object is an [option]: [None] is the
      property that the object lacks.  A request with a property set to
      [undefined] is outside the model: object spread copies such a
      property over the default, and no call in the repository builds
      one.
    - The cryptographic primitives imported from npm packages (scrypt-js,
      hash-wasm, tweetnacl) are the fields of the class [Primitives]; what
      is assumed of them is the record [PrimitiveLaws].
    - The platform codecs ([TextEncoder], [TextDecoder], the base64 codec
      of [Buffer]) are written out, after the WHATWG Encoding Standard and
      the [buffer] package.
    - [Crypto.getRandomBytesAsync] reads from an entropy tape that is
      threaded through the encrypting functions. *)

From Stdlib Require Import ZArith List Bool Lia.
From Stdlib.Strings Require Import Byte.
Import ListNotations.
Local Open Scope Z_scope.

Set Implicit Arguments.

(* ================================================================== *)
(** * Bytes, strings and errors *)
(* ================================================================== *)

Definition bytes := list byte.

(** A JavaScript string: its UTF-16 code units. *)
Definition jsstring := list Z.

Definition Z_of_byte (b : byte) : Z := Z.of_N (Byte.to_N b).

(** Storing a number into a [Uint8Array] keeps it modulo 256. *)
Definition byte_of_Z (z : Z) : byte :=
  match Byte.of_N (Z.to_N (z mod 256)) with
  | Some b => b
  | None => x00
  end.

(** The values a byte can take. *)
Definition byte_range (z : Z) : Prop := 0 <= z < 256.

Fixpoint bytes_eqb (a b : bytes) : bool :=
  match a, b with
  | [], [] => true
  | x :: a', y :: b' => Byte.eqb x y && bytes_eqb a' b'
  | _, _ => false
  end.

Fixpoint jsstring_eqb (a b : jsstring) : bool :=
  match a, b with
  | [], [] => true
  | x :: a', y :: b' => (x =? y) && jsstring_eqb a' b'
  | _, _ => false
  end.

(** The errors the code throws, one constructor per message. *)
Inductive error : Type :=
| RangeError                      (* typed-array / DataView access out of bounds *)
| Argon2NotAvailable              (* 'Argon2 not available' *)
| Argon2Threw                     (* hash-wasm rejected the call *)
| ScryptThrew                     (* scrypt-js rejected the call *)
| KeyDerivationFailed             (* `Key derivation failed: ${error}` *)
| BadKeySize                      (* tweetnacl: 'bad key size' *)
| BadNonceSize                    (* tweetnacl: 'bad nonce size' *)
| NaClEncryptionFailed            (* 'NaCl encryption failed'; see [encryptV2] *)
| BlobTooShort                    (* 'Blob too short for header' *)
| InvalidMagic (got : jsstring)   (* `Invalid magic: expected ..., got ...` *)
| UnsupportedVersion (v : Z)      (* `Unsupported version: ${version}` *)
| UnknownKdfIdByte (b : Z)        (* `Unknown KDF ID: 0x${...}` *)
| DecryptionFailedV2              (* 'Decryption failed: incorrect password or corrupted data' *)
| LegacyEncryptionFailed          (* 'Encryption failed'; see [encryptToBase64Legacy] *)
| LegacyTooShort                  (* 'Encrypted text too short' *)
| LegacyIncorrect                 (* 'Incorrect password or corrupted data' *)
| DecryptionFailedUnified.        (* 'Decryption failed: incorrect password or unsupported format' *)

Inductive result (A : Type) : Type :=
| Ok (a : A)
| Err (e : error).
Arguments Ok {A} a.
Arguments Err {A} e.

Definition is_Ok {A} (x : result A) : bool :=
  match x with Ok _ => true | Err _ => false end.

Definition is_Err {A} (x : result A) : bool := negb (is_Ok x).

Definition rbind {A B} (x : result A) (k : A -> result B) : result B :=
  match x with
  | Ok a => k a
  | Err e => Err e
  end.

Declare Scope result_scope.
Delimit Scope result_scope with result.
Notation "x <- c ;; k" := (rbind c (fun x => k))
  (at level 61, c at next level, right associativity) : result_scope.
Notation "' pat <- c ;; k" := (rbind c (fun x => match x with pat => k end))
  (at level 61, pat pattern, c at next level, right associativity) : result_scope.

(* ------------------------------------------------------------------ *)
(** ** Typed arrays and DataView *)

Definition Uint8Array_new (n : nat) : bytes := repeat x00 n.

(** [target.set(source, offset)]: throws when the source does not fit. *)
Definition Uint8Array_set (target source : bytes) (offset : nat) : result bytes :=
  if (offset + length source <=? length target)%nat
  then Ok (firstn offset target ++ source ++ skipn (offset + length source) target)
  else Err RangeError.

(** [a.slice(start, end)] and [a.slice(start)], for indices that are
    non-negative as everywhere in the code; both clamp to the array. *)
Definition slice (a : bytes) (start end_ : nat) : bytes :=
  firstn (end_ - start) (skipn start a).

Definition slice_from (a : bytes) (start : nat) : bytes := skipn start a.

Definition setUint8 (buf : bytes) (offset : nat) (v : Z) : result bytes :=
  Uint8Array_set buf [byte_of_Z v] offset.

Definition getUint8 (buf : bytes) (offset : nat) : result Z :=
  match nth_error buf offset with
  | Some b => Ok (Z_of_byte b)
  | None => Err RangeError
  end.

(** The four bytes of [v] modulo 2^32, least significant first. *)
Definition le32 (v : Z) : bytes :=
  [byte_of_Z v; byte_of_Z (v / 256); byte_of_Z (v / 65536); byte_of_Z (v / 16777216)].

(** [view.setUint32(offset, v, true)] *)
Definition setUint32 (buf : bytes) (offset : nat) (v : Z) : result bytes :=
  Uint8Array_set buf (le32 v) offset.

(** [view.getUint32(offset, true)] *)
Definition getUint32 (buf : bytes) (offset : nat) : result Z :=
  match skipn offset buf with
  | b0 :: b1 :: b2 :: b3 :: _ =>
      Ok (Z_of_byte b0 + 256 * Z_of_byte b1 + 65536 * Z_of_byte b2
          + 16777216 * Z_of_byte b3)
  | _ => Err RangeError
  end.

(* ================================================================== *)
(** * The platform codecs *)
(* ================================================================== *)

(** ** UTF-8: [new TextEncoder().encode] and [new TextDecoder().decode] *)

Definition is_high_surrogate (c : Z) : bool := (0xD800 <=? c) && (c <=? 0xDBFF).
Definition is_low_surrogate (c : Z) : bool := (0xDC00 <=? c) && (c <=? 0xDFFF).

(** Conversion of a string to scalar values: a surrogate pair is one
    code point, an unpaired surrogate becomes U+FFFD. *)
Fixpoint to_scalars (s : jsstring) : list Z :=
  match s with
  | [] => []
  | c :: rest =>
      if is_high_surrogate c then
        match rest with
        | d :: rest' =>
            if is_low_surrogate d
            then (0x10000 + (c - 0xD800) * 0x400 + (d - 0xDC00)) :: to_scalars rest'
            else 0xFFFD :: to_scalars rest
        | [] => [0xFFFD]
        end
      else if is_low_surrogate c then 0xFFFD :: to_scalars rest
      else c :: to_scalars rest
  end.

Definition utf8_of_scalar (cp : Z) : list Z :=
  if cp <? 0x80 then [cp]
  else if cp <? 0x800 then [0xC0 + cp / 64; 0x80 + cp mod 64]
  else if cp <? 0x10000 then
    [0xE0 + cp / 4096; 0x80 + (cp / 64) mod 64; 0x80 + cp mod 64]
  else
    [0xF0 + cp / 262144; 0x80 + (cp / 4096) mod 64;
     0x80 + (cp / 64) mod 64; 0x80 + cp mod 64].

Definition TextEncoder_encode (s : jsstring) : bytes :=
  map byte_of_Z (flat_map utf8_of_scalar (to_scalars s)).

(** The state of the UTF-8 decoder inside a multi-byte sequence: the
    code point so far, how many continuation bytes follow the next one,
    and the range the next byte has to lie in. *)
Record pending : Type := {
  pend_cp : Z;
  pend_more : nat;
  pend_lower : Z;
  pend_upper : Z
}.

(** A byte read with no sequence pending. *)
Definition utf8_start (b : Z) : list Z * option pending :=
  if b <=? 0x7F then ([b], None)
  else if (0xC2 <=? b) && (b <=? 0xDF) then
    ([], Some {| pend_cp := b mod 32; pend_more := 0;
                 pend_lower := 0x80; pend_upper := 0xBF |})
  else if (0xE0 <=? b) && (b <=? 0xEF) then
    ([], Some {| pend_cp := b mod 16; pend_more := 1;
                 pend_lower := if b =? 0xE0 then 0xA0 else 0x80;
                 pend_upper := if b =? 0xED then 0x9F else 0xBF |})
  else if (0xF0 <=? b) && (b <=? 0xF4) then
    ([], Some {| pend_cp := b mod 8; pend_more := 2;
                 pend_lower := if b =? 0xF0 then 0x90 else 0x80;
                 pend_upper := if b =? 0xF4 then 0x8F else 0xBF |})
  else ([0xFFFD], None).

(** One byte of input: the code points emitted and the next state.  A
    byte that cannot continue the pending sequence ends it with U+FFFD
    and is then read afresh. *)
Definition utf8_step (st : option pending) (b : Z) : list Z * option pending :=
  match st with
  | None => utf8_start b
  | Some p =>
      if (pend_lower p <=? b) && (b <=? pend_upper p) then
        let cp := pend_cp p * 64 + b mod 64 in
        match pend_more p with
        | O => ([cp], None)
        | S n => ([], Some {| pend_cp := cp; pend_more := n;
                              pend_lower := 0x80; pend_upper := 0xBF |})
        end
      else
        let '(out, st') := utf8_start b in (0xFFFD :: out, st')
  end.

Fixpoint utf8_run (st : option pending) (bs : list Z) : list Z :=
  match bs with
  | [] => match st with None => [] | Some _ => [0xFFFD] end
  | b :: bs' => let '(out, st') := utf8_step st b in out ++ utf8_run st' bs'
  end.

Definition utf16_of_scalar (cp : Z) : list Z :=
  if cp <? 0x10000 then [cp]
  else [0xD800 + (cp - 0x10000) / 1024; 0xDC00 + (cp - 0x10000) mod 1024].

Definition BOM : bytes := [xef; xbb; xbf].

Definition starts_with_BOM (bs : bytes) : bool := bytes_eqb (firstn 3 bs) BOM.

(** [new TextDecoder()] decodes UTF-8, replaces malformed input by
    U+FFFD and drops one leading byte order mark. *)
Definition TextDecoder_decode (bs : bytes) : jsstring :=
  let bs' := if starts_with_BOM bs then skipn 3 bs else bs in
  flat_map utf16_of_scalar (utf8_run None (map Z_of_byte bs')).

(** Well-formed UTF-16: every code unit below 2^16 and every surrogate
    part of a high-low pair. *)
Fixpoint well_formed (s : jsstring) : bool :=
  match s with
  | [] => true
  | c :: rest =>
      (0 <=? c) && (c <? 0x10000) &&
      (if is_high_surrogate c then
         match rest with
         | d :: rest' => is_low_surrogate d && well_formed rest'
         | [] => false
         end
       else negb (is_low_surrogate c) && well_formed rest)
  end.

(** The string begins with U+FEFF, whose UTF-8 form is the byte order
    mark. *)
Definition leading_FEFF (s : jsstring) : bool :=
  match s with
  | c :: _ => c =? 0xFEFF
  | [] => false
  end.

(** The strings that UTF-8 encoding followed by decoding gives back. *)
Definition transcodable (s : jsstring) : bool :=
  well_formed s && negb (leading_FEFF s).

(** ** [String.prototype.trim] *)

Definition is_whitespace (c : Z) : bool :=
  ((9 <=? c) && (c <=? 13)) || (c =? 32) || (c =? 0xA0) || (c =? 0x1680)
  || ((0x2000 <=? c) && (c <=? 0x200A)) || (c =? 0x2028) || (c =? 0x2029)
  || (c =? 0x202F) || (c =? 0x205F) || (c =? 0x3000) || (c =? 0xFEFF).

Fixpoint drop_whitespace (s : jsstring) : jsstring :=
  match s with
  | c :: s' => if is_whitespace c then drop_whitespace s' else s
  | [] => []
  end.

Definition trim (s : jsstring) : jsstring :=
  rev (drop_whitespace (rev (drop_whitespace s))).

(** A string is truthy when it is not empty. *)
Definition truthy (s : jsstring) : bool :=
  match s with [] => false | _ => true end.

(** ** Base64: [Buffer.from(u8).toString('base64')] and
       [Buffer.from(b64, 'base64')] *)

Definition base64_char (n : Z) : Z :=
  if n <? 26 then 65 + n
  else if n <? 52 then 97 + (n - 26)
  else if n <? 62 then 48 + (n - 52)
  else if n =? 62 then 43
  else 47.

(** The decoder also accepts the URL-safe characters '-' and '_'. *)
Definition base64_value (c : Z) : option Z :=
  if (65 <=? c) && (c <=? 90) then Some (c - 65)
  else if (97 <=? c) && (c <=? 122) then Some (c - 97 + 26)
  else if (48 <=? c) && (c <=? 57) then Some (c - 48 + 52)
  else if (c =? 43) || (c =? 45) then Some 62
  else if (c =? 47) || (c =? 95) then Some 63
  else None.

Fixpoint base64_encode (bs : list Z) : jsstring :=
  match bs with
  | [] => []
  | [a] => [base64_char (a / 4); base64_char ((a mod 4) * 16); 61; 61]
  | [a; b] =>
      [base64_char (a / 4); base64_char ((a mod 4) * 16 + b / 16);
       base64_char ((b mod 16) * 4); 61]
  | a :: b :: c :: rest =>
      base64_char (a / 4) :: base64_char ((a mod 4) * 16 + b / 16)
      :: base64_char ((b mod 16) * 4 + c / 64) :: base64_char (c mod 64)
      :: base64_encode rest
  end.

Definition toBase64 (u8 : bytes) : jsstring := base64_encode (map Z_of_byte u8).

(** The characters the decoder looks at: those before the first '=',
    without any character outside the alphabet. *)
Fixpoint base64_clean (s : jsstring) : list Z :=
  match s with
  | [] => []
  | c :: s' =>
      if c =? 61 then []
      else match base64_value c with
           | Some v => v :: base64_clean s'
           | None => base64_clean s'
           end
  end.

Fixpoint base64_decode (vs : list Z) : list Z :=
  match vs with
  | a :: b :: c :: d :: rest =>
      (a * 4 + b / 16) :: ((b mod 16) * 16 + c / 4) :: ((c mod 4) * 64 + d)
      :: base64_decode rest
  | [a; b; c] => [a * 4 + b / 16; (b mod 16) * 16 + c / 4]
  | [a; b] => [a * 4 + b / 16]
  | _ => []
  end.

Definition fromBase64 (b64 : jsstring) : bytes :=
  map byte_of_Z (base64_decode (base64_clean b64)).

(* ================================================================== *)
(** * External primitives *)
(* ================================================================== *)

(** [argon2id] of hash-wasm, called with the password string, the salt
    and [parallelism], [iterations], [memorySize], [hashLength]; [None]
    when the library throws. *)
Definition Argon2id : Type :=
  jsstring -> bytes -> Z -> Z -> Z -> Z -> option bytes.

(** What the module-level loader [loadArgon2] yields in an execution
    environment: the function when the dynamic import succeeds, nothing
    when it fails. *)
Definition capability : Type := option Argon2id.

Class Primitives : Type := {
  (** [scrypt(pw, salt, N, r, p, dkLen)] of scrypt-js; [None] when it throws *)
  scrypt : bytes -> bytes -> Z -> Z -> Z -> Z -> option bytes;
  (** XSalsa20-Poly1305 on [message nonce key]: the tag followed by the
      ciphertext, and its inverse, which rejects a box whose tag does
      not verify *)
  crypto_secretbox : bytes -> bytes -> bytes -> bytes;
  crypto_secretbox_open : bytes -> bytes -> bytes -> option bytes
}.

(** What is assumed of the primitives. *)
Record PrimitiveLaws (P : Primitives) : Prop := {
  (** scrypt returns as many bytes as asked for *)
  scrypt_length : forall pw salt n r p dkLen key,
      scrypt pw salt n r p dkLen = Some key -> Z.of_nat (length key) = dkLen;
  (** scrypt accepts the parameters N = 4096, r = 8, p = 1, dkLen = 32 *)
  scrypt_mobile : forall pw salt, scrypt pw salt 4096 8 1 32 <> None;
  (** under a 32-byte key and a 24-byte nonce the box is 16 bytes longer
      than the message *)
  secretbox_length : forall msg nonce key,
      length key = 32%nat -> length nonce = 24%nat ->
      length (crypto_secretbox msg nonce key) = (length msg + 16)%nat;
  (** and opening it with the nonce and key that made it gives the
      message *)
  secretbox_open_box : forall msg nonce key,
      length key = 32%nat -> length nonce = 24%nat ->
      crypto_secretbox_open (crypto_secretbox msg nonce key) nonce key = Some msg
}.

(** Argon2id returns as many bytes as asked for. *)
Definition Argon2Law (a : capability) : Prop :=
  match a with
  | Some f => forall pw salt par it mem len key,
      f pw salt par it mem len = Some key -> Z.of_nat (length key) = len
  | None => True
  end.

(** ** Randomness

    The entropy source is a tape of bytes; [getRandomBytesAsync n] reads
    the next [n] of them. *)
Definition tape : Type := nat -> byte.

Definition M (A : Type) : Type := tape -> result (A * tape).

Definition mret {A} (a : A) : M A := fun tp => Ok (a, tp).

Definition mbind {A B} (c : M A) (k : A -> M B) : M B :=
  fun tp =>
    match c tp with
    | Ok (a, tp') => k a tp'
    | Err e => Err e
    end.

Definition lift {A} (x : result A) : M A :=
  fun tp => match x with Ok a => Ok (a, tp) | Err e => Err e end.

Declare Scope async_scope.
Delimit Scope async_scope with async.
Notation "x <- c ;; k" := (mbind c (fun x => k))
  (at level 61, c at next level, right associativity) : async_scope.
Notation "' pat <- c ;; k" := (mbind c (fun x => match x with pat => k end))
  (at level 61, pat pattern, c at next level, right associativity) : async_scope.

Definition getRandomBytesAsync (n : nat) : M bytes :=
  fun tp => Ok (map tp (seq 0 n), fun i => tp (n + i)%nat).

(* ================================================================== *)
(** * kdf.ts *)
(* ================================================================== *)

Inductive KdfId : Type :=
| Argon2id_id   (* 'argon2id' *)
| Scrypt_id.    (* 'scrypt' *)

Definition KdfId_eqb (a b : KdfId) : bool :=
  match a, b with
  | Argon2id_id, Argon2id_id | Scrypt_id, Scrypt_id => true
  | _, _ => false
  end.

(** [Required<KdfConfig>]: every field present.  The fields are the
    source's [id], [m], [t], [p], [N], [r], [s_p], [keyLen]. *)
Record KdfConfig : Type := {
  kdf_id : KdfId;
  kdf_m : Z;       (* Argon2id memory, KiB *)
  kdf_t : Z;       (* Argon2id iterations *)
  kdf_p : Z;       (* Argon2id parallelism *)
  kdf_N : Z;       (* scrypt N *)
  kdf_r : Z;       (* scrypt r *)
  kdf_s_p : Z;     (* scrypt p *)
  kdf_keyLen : Z
}.

(** [Partial<KdfConfig>]: a field is [None] when the object lacks it,
    and holds the value otherwise.  The requests of the repository are
    of this kind: [encryptV2] is called without one, [decryptV2] passes
    the configuration that [parseHeader] built. *)
Record PartialKdfConfig : Type := {
  opt_id : option KdfId;
  opt_m : option Z;
  opt_t : option Z;
  opt_p : option Z;
  opt_N : option Z;
  opt_r : option Z;
  opt_s_p : option Z;
  opt_keyLen : option Z
}.

Definition DEFAULT_ARGON2ID : KdfConfig :=
  {| kdf_id := Argon2id_id;
     kdf_m := 19 * 1024; kdf_t := 2; kdf_p := 1;
     kdf_N := 0; kdf_r := 0; kdf_s_p := 0;
     kdf_keyLen := 32 |}.

Definition DEFAULT_SCRYPT : KdfConfig :=
  {| kdf_id := Scrypt_id;
     kdf_N := Z.shiftl 1 17; kdf_r := 8; kdf_s_p := 1;
     kdf_m := 0; kdf_t := 0; kdf_p := 0;
     kdf_keyLen := 32 |}.

Definition MOBILE_SCRYPT : KdfConfig :=
  {| kdf_id := Scrypt_id;
     kdf_N := Z.shiftl 1 12; kdf_r := 8; kdf_s_p := 1;
     kdf_m := 0; kdf_t := 0; kdf_p := 0;
     kdf_keyLen := 32 |}.

Definition or_default {A} (o : option A) (d : A) : A :=
  match o with Some a => a | None => d end.

(** [{ ...base, ...cfg }]: the properties that [cfg] has replace those
    of [base]. *)
Definition spread (base : KdfConfig) (cfg : option PartialKdfConfig) : KdfConfig :=
  match cfg with
  | None => base
  | Some c =>
      {| kdf_id := or_default (opt_id c) (kdf_id base);
         kdf_m := or_default (opt_m c) (kdf_m base);
         kdf_t := or_default (opt_t c) (kdf_t base);
         kdf_p := or_default (opt_p c) (kdf_p base);
         kdf_N := or_default (opt_N c) (kdf_N base);
         kdf_r := or_default (opt_r c) (kdf_r base);
         kdf_s_p := or_default (opt_s_p c) (kdf_s_p base);
         kdf_keyLen := or_default (opt_keyLen c) (kdf_keyLen base) |}
  end.

(** [cfg?.id] *)
Definition cfg_id (cfg : option PartialKdfConfig) : option KdfId :=
  match cfg with Some c => opt_id c | None => None end.

(** A complete configuration passed where a partial one is expected. *)
Definition as_partial (c : KdfConfig) : PartialKdfConfig :=
  {| opt_id := Some (kdf_id c);
     opt_m := Some (kdf_m c); opt_t := Some (kdf_t c); opt_p := Some (kdf_p c);
     opt_N := Some (kdf_N c); opt_r := Some (kdf_r c); opt_s_p := Some (kdf_s_p c);
     opt_keyLen := Some (kdf_keyLen c) |}.

Definition with_id (c : KdfConfig) (i : KdfId) : KdfConfig :=
  {| kdf_id := i;
     kdf_m := kdf_m c; kdf_t := kdf_t c; kdf_p := kdf_p c;
     kdf_N := kdf_N c; kdf_r := kdf_r c; kdf_s_p := kdf_s_p c;
     kdf_keyLen := kdf_keyLen c |}.

Definition of_option {A} (o : option A) (e : error) : result A :=
  match o with Some a => Ok a | None => Err e end.

Section Kdf.
Context {prim : Primitives}.
Local Open Scope result_scope.

Definition deriveKeyArgon2id (argon2 : capability) (password : jsstring)
    (salt : bytes) (config : KdfConfig) : result bytes :=
  match argon2 with
  | None => Err Argon2NotAvailable
  | Some argon2Lib =>
      of_option (argon2Lib password salt (kdf_p config) (kdf_t config)
                           (kdf_m config) (kdf_keyLen config))
                Argon2Threw
  end.

Definition deriveKeyScrypt (password : jsstring) (salt : bytes)
    (config : KdfConfig) : result bytes :=
  let pw := TextEncoder_encode password in
  of_option (scrypt pw salt (kdf_N config) (kdf_r config) (kdf_s_p config)
                    (kdf_keyLen config))
            ScryptThrew.

(** The scrypt branch of [deriveKey], the code after the inner [try].
    Whatever it throws is rethrown by the outer [catch] as
    'Key derivation failed'. *)
Definition deriveKey_scrypt (password : jsstring) (salt : bytes)
    (cfg : option PartialKdfConfig) : result (bytes * KdfConfig) :=
  let scryptConfig :=
    match cfg_id cfg with
    | Some Scrypt_id => spread DEFAULT_SCRYPT cfg
    | _ => MOBILE_SCRYPT
    end in
  match deriveKeyScrypt password salt scryptConfig with
  | Ok key => Ok (key, scryptConfig)
  | Err _ => Err KeyDerivationFailed
  end.

Definition deriveKey (argon2 : capability) (password : jsstring)
    (salt : bytes) (cfg : option PartialKdfConfig) : result (bytes * KdfConfig) :=
  let config := spread DEFAULT_ARGON2ID cfg in
  if KdfId_eqb (kdf_id config) Argon2id_id
     || match cfg_id cfg with None => true | Some _ => false end
  then
    match deriveKeyArgon2id argon2 password salt config with
    | Ok key => Ok (key, with_id config Argon2id_id)
    | Err _ => deriveKey_scrypt password salt cfg
    end
  else deriveKey_scrypt password salt cfg.
End Kdf.

Section KdfParams.
Local Open Scope result_scope.

Definition serializeKdfParams (config : KdfConfig) : result bytes :=
  let params := Uint8Array_new 12 in
  match kdf_id config with
  | Argon2id_id =>
      params <- setUint32 params 0 (kdf_m config) ;;
      params <- setUint32 params 4 (kdf_t config) ;;
      params <- setUint32 params 8 (kdf_p config) ;;
      Ok params
  | Scrypt_id =>
      params <- setUint32 params 0 (kdf_N config) ;;
      params <- setUint32 params 4 (kdf_r config) ;;
      params <- setUint32 params 8 (kdf_s_p config) ;;
      Ok params
  end.

Definition deserializeKdfParams (kdfId : KdfId) (params : bytes) : result KdfConfig :=
  match kdfId with
  | Argon2id_id =>
      m <- getUint32 params 0 ;;
      t <- getUint32 params 4 ;;
      p <- getUint32 params 8 ;;
      Ok {| kdf_id := Argon2id_id;
            kdf_m := m; kdf_t := t; kdf_p := p;
            kdf_N := 0; kdf_r := 0; kdf_s_p := 0;
            kdf_keyLen := 32 |}
  | Scrypt_id =>
      n <- getUint32 params 0 ;;
      r <- getUint32 params 4 ;;
      s_p <- getUint32 params 8 ;;
      Ok {| kdf_id := Scrypt_id;
            kdf_N := n; kdf_r := r; kdf_s_p := s_p;
            kdf_m := 0; kdf_t := 0; kdf_p := 0;
            kdf_keyLen := 32 |}
  end.
End KdfParams.

(* ================================================================== *)
(** * crypto-header.ts *)
(* ================================================================== *)

(** 'SS1' *)
Definition MAGIC : jsstring := [83; 83; 49].
Definition VERSION : Z := 1.

Definition KDF_IDS (i : KdfId) : Z :=
  match i with
  | Argon2id_id => 0x01
  | Scrypt_id => 0x02
  end.

Definition KDF_NAMES (b : Z) : option KdfId :=
  if b =? 0x01 then Some Argon2id_id
  else if b =? 0x02 then Some Scrypt_id
  else None.

Definition HEADER_SIZE : nat := 3 + 1 + 1 + 12 + 16 + 24.

Record CryptoHeader : Type := {
  magic : jsstring;
  version : Z;
  kdfId : KdfId;
  kdfConfig : KdfConfig;
  salt : bytes;
  nonce : bytes
}.

Section Header.
Local Open Scope result_scope.
Local Open Scope nat_scope.

Definition createHeader (kdfConfig : KdfConfig) (salt nonce : bytes) : result bytes :=
  let header := Uint8Array_new HEADER_SIZE in
  let offset := 0 in
  (* Magic (3 bytes) *)
  let magicBytes := TextEncoder_encode MAGIC in
  header <- Uint8Array_set header magicBytes offset ;;
  let offset := offset + 3 in
  (* Version (1 byte) *)
  header <- setUint8 header offset VERSION ;;
  let offset := offset + 1 in
  (* KDF ID (1 byte) *)
  let kdfIdByte := KDF_IDS (kdf_id kdfConfig) in
  header <- setUint8 header offset kdfIdByte ;;
  let offset := offset + 1 in
  (* KDF params (12 bytes) *)
  params <- serializeKdfParams kdfConfig ;;
  header <- Uint8Array_set header params offset ;;
  let offset := offset + 12 in
  (* Salt (16 bytes) *)
  header <- Uint8Array_set header salt offset ;;
  let offset := offset + 16 in
  (* Nonce (24 bytes) *)
  header <- Uint8Array_set header nonce offset ;;
  Ok header.

Definition parseHeader (blob : bytes) : result (CryptoHeader * bytes) :=
  if length blob <? HEADER_SIZE then Err BlobTooShort else
  let offset := 0 in
  (* Magic (3 bytes) *)
  let magicBytes := slice blob offset (offset + 3) in
  let magic := TextDecoder_decode magicBytes in
  if negb (jsstring_eqb magic MAGIC) then Err (InvalidMagic magic) else
  let offset := offset + 3 in
  (* Version (1 byte) *)
  version <- getUint8 blob offset ;;
  if negb (version =? VERSION)%Z then Err (UnsupportedVersion version) else
  let offset := offset + 1 in
  (* KDF ID (1 byte) *)
  kdfIdByte <- getUint8 blob offset ;;
  match KDF_NAMES kdfIdByte with
  | None => Err (UnknownKdfIdByte kdfIdByte)
  | Some kdfId =>
      let offset := offset + 1 in
      (* KDF params (12 bytes) *)
      let paramsBytes := slice blob offset (offset + 12) in
      kdfConfig <- deserializeKdfParams kdfId paramsBytes ;;
      let offset := offset + 12 in
      (* Salt (16 bytes) *)
      let salt := slice blob offset (offset + 16) in
      let offset := offset + 16 in
      (* Nonce (24 bytes) *)
      let nonce := slice blob offset (offset + 24) in
      let offset := offset + 24 in
      (* Remaining data is ciphertext *)
      let ciphertext := slice_from blob offset in
      Ok ({| magic := magic; version := version; kdfId := kdfId;
             kdfConfig := kdfConfig; salt := salt; nonce := nonce |},
          ciphertext)
  end.

Definition createBlob (header ciphertext : bytes) : result bytes :=
  let blob := Uint8Array_new (length header + length ciphertext) in
  blob <- Uint8Array_set blob header 0 ;;
  blob <- Uint8Array_set blob ciphertext (length header) ;;
  Ok blob.

Definition blobToBase64 (blob : bytes) : jsstring := toBase64 blob.

Definition base64ToBlob (b64 : jsstring) : bytes := fromBase64 b64.
End Header.

(* ================================================================== *)
(** * tweetnacl's wrappers around the secretbox primitive *)
(* ================================================================== *)

Section NaCl.
Context {prim : Primitives}.

Definition checkLengths (key nonce : bytes) : result unit :=
  if negb (length key =? 32)%nat then Err BadKeySize
  else if negb (length nonce =? 24)%nat then Err BadNonceSize
  else Ok tt.

(** [nacl.secretbox(msg, nonce, key)] *)
Definition nacl_secretbox (msg nonce key : bytes) : result bytes :=
  rbind (checkLengths key nonce) (fun _ => Ok (crypto_secretbox msg nonce key)).

(** [nacl.secretbox.open(box, nonce, key)]: the inner [option] is the
    [null] of a box that is shorter than its tag or does not verify. *)
Definition nacl_secretbox_open (box nonce key : bytes) : result (option bytes) :=
  rbind (checkLengths key nonce) (fun _ =>
    if (length box <? 16)%nat then Ok None
    else Ok (crypto_secretbox_open box nonce key)).
End NaCl.

(* ================================================================== *)
(** * crypto-v2.ts and legacy-crypto.ts *)
(* ================================================================== *)

Definition SALT_LEN : nat := 16.
Definition NONCE_LEN : nat := 24.
Definition KEY_LEN : Z := 32.
Definition SCRYPT_N : Z := 2 ^ 12.
Definition SCRYPT_r : Z := 8.
Definition SCRYPT_p : Z := 1.

Section Cipher.
Context {prim : Primitives}.

(** [nacl.secretbox] returns an array or throws, so the test
    [if (!box)] after it, here and in the legacy encryption, never
    fires and has no branch in the model. *)
Definition encryptV2 (argon2 : capability) (plaintext password : jsstring)
    (kdfConfig : option PartialKdfConfig) : M jsstring :=
  (salt <- getRandomBytesAsync SALT_LEN ;;
   nonce <- getRandomBytesAsync NONCE_LEN ;;
   '(key, config) <- lift (deriveKey argon2 password salt kdfConfig) ;;
   let msg := TextEncoder_encode plaintext in
   box <- lift (nacl_secretbox msg nonce key) ;;
   header <- lift (createHeader config salt nonce) ;;
   blob <- lift (createBlob header box) ;;
   let result := blobToBase64 blob in
   mret result)%async.

Definition decryptV2 (argon2 : capability) (b64 password : jsstring)
    : result jsstring :=
  (let blob := base64ToBlob b64 in
   '(header, ciphertext) <- parseHeader blob ;;
   '(key, _) <- deriveKey argon2 password (salt header)
                          (Some (as_partial (kdfConfig header))) ;;
   plain <- nacl_secretbox_open ciphertext (nonce header) key ;;
   match plain with
   | None => Err DecryptionFailedV2
   | Some plain => Ok (TextDecoder_decode plain)
   end)%result.

(** legacy-crypto.ts *)

Definition deriveKeyLegacy (password : jsstring) (salt : bytes) : result bytes :=
  let pw := TextEncoder_encode password in
  of_option (scrypt pw salt SCRYPT_N SCRYPT_r SCRYPT_p KEY_LEN) ScryptThrew.

Definition encryptToBase64Legacy (plaintext password : jsstring) : M jsstring :=
  (salt <- getRandomBytesAsync SALT_LEN ;;
   nonce <- getRandomBytesAsync NONCE_LEN ;;
   key <- lift (deriveKeyLegacy password salt) ;;
   let msg := TextEncoder_encode plaintext in
   box <- lift (nacl_secretbox msg nonce key) ;;
   let packed := Uint8Array_new (length salt + length nonce + length box) in
   packed <- lift (Uint8Array_set packed salt 0) ;;
   packed <- lift (Uint8Array_set packed nonce (length salt)) ;;
   packed <- lift (Uint8Array_set packed box (length salt + length nonce)) ;;
   mret (toBase64 packed))%async.

Definition decryptFromBase64 (b64 password : jsstring) : result jsstring :=
  (let all := fromBase64 b64 in
   if (length all <=? SALT_LEN + NONCE_LEN + 16)%nat then Err LegacyTooShort else
   let salt := slice all 0 SALT_LEN in
   let nonce := slice all SALT_LEN (SALT_LEN + NONCE_LEN) in
   let box := slice_from all (SALT_LEN + NONCE_LEN) in
   key <- deriveKeyLegacy password salt ;;
   plain <- nacl_secretbox_open box nonce key ;;
   match plain with
   | None => Err LegacyIncorrect
   | Some plain => Ok (TextDecoder_decode plain)
   end)%result.

(** Tries the versioned format first and the legacy one when that
    throws; when both throw, the error is a new one. *)
Definition decryptAuto (argon2 : capability) (b64 password : jsstring)
    : result jsstring :=
  match decryptV2 argon2 b64 password with
  | Ok plaintext => Ok plaintext
  | Err _ =>
      match decryptFromBase64 b64 password with
      | Ok plaintext => Ok plaintext
      | Err _ => Err DecryptionFailedUnified
      end
  end.
End Cipher.

(* ================================================================== *)
(** * CryptoVault.tsx: three layers and the step-wise reveal *)
(* ================================================================== *)

(** The component state that encryption and the reveal read and write. *)
Record VaultState : Type := {
  seedPhrase : jsstring;
  password1 : jsstring;
  password2 : jsstring;
  password3 : jsstring;
  encryptedOutput : jsstring;
  decryptedSeed : jsstring;
  isLoading : bool;
  decryptStep : Z;
  tempData1 : jsstring;
  tempData2 : jsstring
}.

(** The dialogs of [onStepDecrypt]. *)
Inductive alert : Type :=
| NeedEncryptedTextAndPassword3   (* 'Need encrypted text and password 3' *)
| NeedPassword2                   (* 'Need password 2' *)
| NeedPassword1                   (* 'Need password 1 (most secret)' *)
| Step1Complete
| Step2Complete
| SeedPhraseRecovered
| StepFailed (step : Z) (e : error).  (* `Step ${decryptStep} failed: ${error?.message ...}` *)

Definition initialState : VaultState :=
  {| seedPhrase := []; password1 := []; password2 := []; password3 := [];
     encryptedOutput := []; decryptedSeed := []; isLoading := false;
     decryptStep := 1; tempData1 := []; tempData2 := [] |}.

Definition setIsLoading (b : bool) (st : VaultState) : VaultState :=
  {| seedPhrase := seedPhrase st;
     password1 := password1 st; password2 := password2 st; password3 := password3 st;
     encryptedOutput := encryptedOutput st; decryptedSeed := decryptedSeed st;
     isLoading := b;
     decryptStep := decryptStep st; tempData1 := tempData1 st; tempData2 := tempData2 st |}.

Definition setPassword1 (v : jsstring) (st : VaultState) : VaultState :=
  {| seedPhrase := seedPhrase st;
     password1 := v; password2 := password2 st; password3 := password3 st;
     encryptedOutput := encryptedOutput st; decryptedSeed := decryptedSeed st;
     isLoading := isLoading st;
     decryptStep := decryptStep st; tempData1 := tempData1 st; tempData2 := tempData2 st |}.

Definition setPassword2 (v : jsstring) (st : VaultState) : VaultState :=
  {| seedPhrase := seedPhrase st;
     password1 := password1 st; password2 := v; password3 := password3 st;
     encryptedOutput := encryptedOutput st; decryptedSeed := decryptedSeed st;
     isLoading := isLoading st;
     decryptStep := decryptStep st; tempData1 := tempData1 st; tempData2 := tempData2 st |}.

Definition setPassword3 (v : jsstring) (st : VaultState) : VaultState :=
  {| seedPhrase := seedPhrase st;
     password1 := password1 st; password2 := password2 st; password3 := v;
     encryptedOutput := encryptedOutput st; decryptedSeed := decryptedSeed st;
     isLoading := isLoading st;
     decryptStep := decryptStep st; tempData1 := tempData1 st; tempData2 := tempData2 st |}.

Definition setEncryptedOutput (v : jsstring) (st : VaultState) : VaultState :=
  {| seedPhrase := seedPhrase st;
     password1 := password1 st; password2 := password2 st; password3 := password3 st;
     encryptedOutput := v; decryptedSeed := decryptedSeed st;
     isLoading := isLoading st;
     decryptStep := decryptStep st; tempData1 := tempData1 st; tempData2 := tempData2 st |}.

Definition setDecryptedSeed (v : jsstring) (st : VaultState) : VaultState :=
  {| seedPhrase := seedPhrase st;
     password1 := password1 st; password2 := password2 st; password3 := password3 st;
     encryptedOutput := encryptedOutput st; decryptedSeed := v;
     isLoading := isLoading st;
     decryptStep := decryptStep st; tempData1 := tempData1 st; tempData2 := tempData2 st |}.

Definition setDecryptStep (v : Z) (st : VaultState) : VaultState :=
  {| seedPhrase := seedPhrase st;
     password1 := password1 st; password2 := password2 st; password3 := password3 st;
     encryptedOutput := encryptedOutput st; decryptedSeed := decryptedSeed st;
     isLoading := isLoading st;
     decryptStep := v; tempData1 := tempData1 st; tempData2 := tempData2 st |}.

Definition setTempData1 (v : jsstring) (st : VaultState) : VaultState :=
  {| seedPhrase := seedPhrase st;
     password1 := password1 st; password2 := password2 st; password3 := password3 st;
     encryptedOutput := encryptedOutput st; decryptedSeed := decryptedSeed st;
     isLoading := isLoading st;
     decryptStep := decryptStep st; tempData1 := v; tempData2 := tempData2 st |}.

Definition setTempData2 (v : jsstring) (st : VaultState) : VaultState :=
  {| seedPhrase := seedPhrase st;
     password1 := password1 st; password2 := password2 st; password3 := password3 st;
     encryptedOutput := encryptedOutput st; decryptedSeed := decryptedSeed st;
     isLoading := isLoading st;
     decryptStep := decryptStep st; tempData1 := tempData1 st; tempData2 := v |}.

Section Vault.
Context {prim : Primitives}.

Definition tripleEncryptV2 (argon2 : capability)
    (seedPhrase pass1 pass2 pass3 : jsstring) : M jsstring :=
  (layer1 <- encryptV2 argon2 seedPhrase pass1 None ;;
   layer2 <- encryptV2 argon2 layer1 pass2 None ;;
   layer3 <- encryptV2 argon2 layer2 pass3 None ;;
   mret layer3)%async.

(** One press of the decrypt button in state [st]: the state after the
    handler has run, [finally] included, and the dialog shown.  The
    values read are those of the render the handler was created in. *)
Definition onStepDecrypt (argon2 : capability) (st : VaultState)
    : VaultState * option alert :=
  let finally_ := setIsLoading false in
  if decryptStep st =? 1 then
    if negb (truthy (trim (encryptedOutput st))) || negb (truthy (trim (password3 st)))
    then (finally_ st, Some NeedEncryptedTextAndPassword3)
    else
      match decryptAuto argon2 (trim (encryptedOutput st)) (password3 st) with
      | Ok result =>
          (finally_ (setPassword3 [] (setDecryptStep 2 (setTempData1 result st))),
           Some Step1Complete)
      | Err e => (finally_ st, Some (StepFailed (decryptStep st) e))
      end
  else if decryptStep st =? 2 then
    if negb (truthy (trim (tempData1 st))) || negb (truthy (trim (password2 st)))
    then (finally_ st, Some NeedPassword2)
    else
      match decryptAuto argon2 (tempData1 st) (password2 st) with
      | Ok result =>
          (finally_ (setTempData1 []
             (setPassword2 [] (setDecryptStep 3 (setTempData2 result st)))),
           Some Step2Complete)
      | Err e => (finally_ st, Some (StepFailed (decryptStep st) e))
      end
  else if decryptStep st =? 3 then
    if negb (truthy (trim (tempData2 st))) || negb (truthy (trim (password1 st)))
    then (finally_ st, Some NeedPassword1)
    else
      match decryptAuto argon2 (tempData2 st) (password1 st) with
      | Ok result =>
          (finally_ (setEncryptedOutput []
             (setTempData2 [] (setPassword1 [] (setDecryptedSeed result st)))),
           Some SeedPhraseRecovered)
      | Err e => (finally_ st, Some (StepFailed (decryptStep st) e))
      end
  else (finally_ st, None).

(** The reveal as the user drives it: paste the outer blob and type
    the first password, press; type the second, press; type the third,
    press.  The three passwords are given in the order typed. *)
Definition reveal (argon2 : capability) (outer first second third : jsstring)
    : VaultState :=
  let st0 := setPassword3 first (setEncryptedOutput outer initialState) in
  let st1 := fst (onStepDecrypt argon2 st0) in
  let st2 := fst (onStepDecrypt argon2 (setPassword2 second st1)) in
  fst (onStepDecrypt argon2 (setPassword1 third st2)).
End Vault.

(* ================================================================== *)
(** * A reference interpretation of the primitives

    A small, insecure instance of [Primitives] on which the model runs:
    it shows that [PrimitiveLaws] can be met and gives concrete runs. *)
(* ================================================================== *)

Module Reference.

(** The key material: [dkLen] bytes read cyclically from the password,
    the salt and the cost parameter.  Like scrypt-js it refuses an [N]
    that is not a power of two greater than one. *)
Definition ref_scrypt (pw salt : bytes) (n r p dkLen : Z) : option bytes :=
  if (1 <? n) && (Z.land n (n - 1) =? 0) && (0 <=? dkLen) then
    let src := pw ++ salt ++ [byte_of_Z (Z.log2 n)] in
    Some (map (fun i => nth (i mod length src) src x00) (seq 0 (Z.to_nat dkLen)))
  else None.

(** The tag is the first 16 bytes of the key, padded with zeros; the
    message is left as it is. *)
Definition ref_tag (key : bytes) : bytes := firstn 16 (key ++ repeat x00 16).

Definition ref_secretbox (msg nonce key : bytes) : bytes := ref_tag key ++ msg.

Definition ref_secretbox_open (box nonce key : bytes) : option bytes :=
  if bytes_eqb (firstn 16 box) (ref_tag key) then Some (skipn 16 box) else None.

#[export] Instance ref_primitives : Primitives :=
  {| scrypt := ref_scrypt;
     crypto_secretbox := ref_secretbox;
     crypto_secretbox_open := ref_secretbox_open |}.

(** An Argon2id stand-in built the same way. *)
Definition ref_argon2id : Argon2id :=
  fun pw salt par it mem len =>
    if (8 * par <=? mem) && (0 <? it) && (0 <=? len) then
      let src := [byte_of_Z mem; byte_of_Z it] ++ TextEncoder_encode pw ++ salt in
      Some (map (fun i => nth (i mod length src) src x00) (seq 0 (Z.to_nat len)))
    else None.

(** An entropy tape. *)
Definition ref_tape : tape := fun i => byte_of_Z (Z.of_nat (7 * i + 3)).

End Reference.

(* ================================================================== *)
(** * Predicates of the statements *)
(* ================================================================== *)

(** Base64 text consists of characters between '+' and 'z'. *)
Definition base64_text (s : jsstring) : Prop := Forall (fun c => 43 <= c <= 122) s.

(** A Unicode scalar value: a code point that is not a surrogate. *)
Definition scalar_value (cp : Z) : Prop :=
  0 <= cp < 0x110000 /\ ~ (0xD800 <= cp <= 0xDFFF).

Definition ascii (z : Z) : bool := z <? 0x80.

(** What holds of the decoder state between bytes: the sequence under
    way cannot end in a code point below U+0080. *)
Definition pending_ok (st : option pending) : Prop :=
  match st with
  | None => True
  | Some p =>
      0 <= pend_cp p /\ 0x80 <= pend_lower p /\ pend_upper p <= 0xBF
      /\ 2 <= pend_cp p * 64 + pend_lower p - 128
      /\ (pend_more p = O -> 2 <= pend_cp p)
  end.

(** The three numbers of the active variant, in the order written. *)
Definition active_params (c : KdfConfig) : Z * Z * Z :=
  match kdf_id c with
  | Argon2id_id => (kdf_m c, kdf_t c, kdf_p c)
  | Scrypt_id => (kdf_N c, kdf_r c, kdf_s_p c)
  end.

(** The layout of the header: magic, version, KDF id, parameters, salt,
    nonce. *)
Definition header_bytes (c : KdfConfig) (salt nonce : bytes) : bytes :=
  let '(a, b, d) := active_params c in
  TextEncoder_encode MAGIC
  ++ [byte_of_Z VERSION; byte_of_Z (KDF_IDS (kdf_id c))]
  ++ le32 a ++ le32 b ++ le32 d
  ++ salt ++ nonce.

(** The unsigned 32-bit little-endian number at [offset]. *)
Definition u32_at (b : bytes) (offset : nat) : Z :=
  Z_of_byte (nth offset b x00)
  + 256 * Z_of_byte (nth (offset + 1) b x00)
  + 65536 * Z_of_byte (nth (offset + 2) b x00)
  + 16777216 * Z_of_byte (nth (offset + 3) b x00).

(** The configuration that twelve parameter bytes stand for. *)
Definition config_of_params (i : KdfId) (params : bytes) : KdfConfig :=
  match i with
  | Argon2id_id =>
      {| kdf_id := Argon2id_id;
         kdf_m := u32_at params 0; kdf_t := u32_at params 4; kdf_p := u32_at params 8;
         kdf_N := 0; kdf_r := 0; kdf_s_p := 0; kdf_keyLen := 32 |}
  | Scrypt_id =>
      {| kdf_id := Scrypt_id;
         kdf_N := u32_at params 0; kdf_r := u32_at params 4; kdf_s_p := u32_at params 8;
         kdf_m := 0; kdf_t := 0; kdf_p := 0; kdf_keyLen := 32 |}
  end.

(** What the header keeps of a configuration: the id and the three
    active numbers modulo 2^32. *)
Definition recorded (c : KdfConfig) : KdfConfig :=
  match kdf_id c with
  | Argon2id_id =>
      {| kdf_id := Argon2id_id;
         kdf_m := kdf_m c mod 2 ^ 32; kdf_t := kdf_t c mod 2 ^ 32;
         kdf_p := kdf_p c mod 2 ^ 32;
         kdf_N := 0; kdf_r := 0; kdf_s_p := 0; kdf_keyLen := 32 |}
  | Scrypt_id =>
      {| kdf_id := Scrypt_id;
         kdf_N := kdf_N c mod 2 ^ 32; kdf_r := kdf_r c mod 2 ^ 32;
         kdf_s_p := kdf_s_p c mod 2 ^ 32;
         kdf_m := 0; kdf_t := 0; kdf_p := 0; kdf_keyLen := 32 |}
  end.

Definition uint32 (z : Z) : Prop := 0 <= z < 2 ^ 32.

(** A configuration that the header keeps whole: the key length is 32,
    the numbers of the active variant fit 32 bits and those of the
    other variant are zero. *)
Definition header_exact (c : KdfConfig) : Prop :=
  kdf_keyLen c = 32
  /\ match kdf_id c with
     | Argon2id_id =>
         uint32 (kdf_m c) /\ uint32 (kdf_t c) /\ uint32 (kdf_p c)
         /\ kdf_N c = 0 /\ kdf_r c = 0 /\ kdf_s_p c = 0
     | Scrypt_id =>
         uint32 (kdf_N c) /\ uint32 (kdf_r c) /\ uint32 (kdf_s_p c)
         /\ kdf_m c = 0 /\ kdf_t c = 0 /\ kdf_p c = 0
     end.

(** [{ ...c, keyLen: k }] *)
Definition with_keyLen (c : KdfConfig) (k : Z) : KdfConfig :=
  {| kdf_id := kdf_id c;
     kdf_m := kdf_m c; kdf_t := kdf_t c; kdf_p := kdf_p c;
     kdf_N := kdf_N c; kdf_r := kdf_r c; kdf_s_p := kdf_s_p c;
     kdf_keyLen := k |}.

(** Concrete inputs of the examples. *)
Definition zeros (n : nat) : bytes := repeat x00 n.

(** 'hello world' *)
Definition hello_world : jsstring := [104; 101; 108; 108; 111; 32; 119; 111; 114; 108; 100].

(** 'Tr0ub4dor&3' *)
Definition Tr0ub4dor_3 : jsstring := [84; 114; 48; 117; 98; 52; 100; 111; 114; 38; 51].

(** U+FEFF followed by 'hi' *)
Definition bom_hi : jsstring := [0xFEFF; 104; 105].

(** A blob of 57 bytes: the header of [MOBILE_SCRYPT] with a zero salt
    and nonce, and no ciphertext. *)
Definition bare_header : bytes := header_bytes MOBILE_SCRYPT (zeros 16) (zeros 24).

(** The header read from a blob whose KDF id byte names [i]. *)
Definition parsed_header (i : KdfId) (blob : bytes) : CryptoHeader :=
  {| magic := MAGIC; version := VERSION; kdfId := i;
     kdfConfig := config_of_params i (slice blob 5 17);
     salt := slice blob 17 33;
     nonce := slice blob 33 57 |}.

(** The salt and the nonce that an encryption draws from the tape, and
    the tape it leaves. *)
Definition drawn_salt (tp : tape) : bytes := map tp (seq 0 SALT_LEN).

Definition drawn_nonce (tp : tape) : bytes :=
  map (fun i => tp (SALT_LEN + i)%nat) (seq 0 NONCE_LEN).

Definition tape_after (tp : tape) : tape :=
  fun i => tp (SALT_LEN + (NONCE_LEN + i))%nat.

(** The blob of the versioned format: header, then the box. *)
Definition envelope {prim : Primitives} (config : KdfConfig)
    (salt nonce key msg : bytes) : bytes :=
  header_bytes config salt nonce ++ crypto_secretbox msg nonce key.

(** The blob of the legacy format: salt, nonce, box. *)
Definition legacy_envelope {prim : Primitives} (salt nonce key msg : bytes) : bytes :=
  salt ++ nonce ++ crypto_secretbox msg nonce key.

(** A string with something other than white space in it: what the
    guards of the vault ask of a field. *)
Definition nonblank (s : jsstring) : Prop := truthy (trim s) = true.

(** The decryption that a press of the button attempts in state [st]:
    the blob and the password handed to [decryptAuto], or nothing when
    the guard of the step refuses or the step is none of 1, 2, 3. *)
Definition step_request (st : VaultState) : option (jsstring * jsstring) :=
  if decryptStep st =? 1 then
    if truthy (trim (encryptedOutput st)) && truthy (trim (password3 st))
    then Some (trim (encryptedOutput st), password3 st) else None
  else if decryptStep st =? 2 then
    if truthy (trim (tempData1 st)) && truthy (trim (password2 st))
    then Some (tempData1 st, password2 st) else None
  else if decryptStep st =? 3 then
    if truthy (trim (tempData2 st)) && truthy (trim (password1 st))
    then Some (tempData2 st, password1 st) else None
  else None.

(** The state in which a completed reveal leaves the vault. *)
Definition revealed (seed : jsstring) : VaultState :=
  {| seedPhrase := []; password1 := []; password2 := []; password3 := [];
     encryptedOutput := []; decryptedSeed := seed; isLoading := false;
     decryptStep := 3; tempData1 := []; tempData2 := [] |}.

(* ================================================================== *)
(** * The rest of the code: [getKdfInfo], the handlers of the vault and
      the message screen *)
(* ================================================================== *)

(** crypto-v2.ts, [getKdfInfo]: the KDF of a blob, read from its header
    alone; [None] is the [null] returned when the header does not
    parse. *)
Definition getKdfInfo (b64 : jsstring) : option (KdfId * KdfConfig) :=
  match parseHeader (base64ToBlob b64) with
  | Ok (header, _) => Some (kdfId header, kdfConfig header)
  | Err _ => None
  end.

(** What a handler's [catch] can receive: an error of the encryption
    core, or whatever the clipboard of the platform threw. *)
Inductive thrown : Type :=
| CoreError (e : error)
| ClipboardThrew.

(** ** CryptoVault.tsx, the handlers beside [onStepDecrypt] *)

Inductive tab : Type :=
| EncryptTab   (* 'encrypt' *)
| DecryptTab.  (* 'decrypt' *)

(** The dialogs of these handlers.  The KDF line of the success dialog
    is the id in upper case, or 'UNKNOWN' for [None]. *)
Inductive notice : Type :=
| PleaseCompleteAllFields                      (* 'Please complete all fields' *)
| TripleEncryptionSuccess (kdf : option KdfId) (* 'v2 Triple Encryption Success' *)
| EncryptionError (t : thrown)                 (* 'Error', [e?.message ?? ...] *)
| ResetComplete                                (* 'Reset Complete', 'All data cleared' *)
| ClipboardIsEmpty                             (* 'Info', 'Clipboard is empty' *)
| CouldNotPaste.                               (* 'Could not paste from clipboard' *)

Definition setSeedPhrase (v : jsstring) (st : VaultState) : VaultState :=
  {| seedPhrase := v;
     password1 := password1 st; password2 := password2 st; password3 := password3 st;
     encryptedOutput := encryptedOutput st; decryptedSeed := decryptedSeed st;
     isLoading := isLoading st;
     decryptStep := decryptStep st; tempData1 := tempData1 st; tempData2 := tempData2 st |}.

(** [switchTab]: the state after it and the tab shown. *)
Definition switchTab (t : tab) (st : VaultState) : VaultState * tab :=
  match t with
  | DecryptTab =>
      (setDecryptStep 1
         (setTempData2 []
            (setTempData1 []
               (setDecryptedSeed []
                  (setEncryptedOutput []
                     (setPassword3 [] (setPassword2 [] (setPassword1 [] st))))))),
       t)
  | EncryptTab => (st, t)
  end.

Definition resetAll (st : VaultState) : VaultState * notice :=
  (setPassword3 []
     (setPassword2 []
        (setPassword1 []
           (setEncryptedOutput []
              (setDecryptedSeed []
                 (setTempData2 [] (setTempData1 [] (setDecryptStep 1 st))))))),
   ResetComplete).

(** [pasteFromClipboard]; [clipboard] is what [Clipboard.getStringAsync]
    gives, [None] when it throws. *)
Definition pasteFromClipboard (clipboard : option jsstring) (st : VaultState)
    : VaultState * option notice :=
  match clipboard with
  | Some text =>
      if truthy text && truthy (trim text)
      then (setEncryptedOutput (trim text) st, None)
      else (st, Some ClipboardIsEmpty)
  | None => (st, Some CouldNotPaste)
  end.

Section VaultEncrypt.
Context {prim : Primitives}.

(** [onTripleEncrypt]: the state after the handler, the dialog, and,
    when the encryption went through, what was handed to the clipboard
    and the tape that is left.  [clipboard_works] tells whether
    [Clipboard.setStringAsync] returns or throws. *)
Definition onTripleEncrypt (argon2 : capability) (clipboard_works : bool)
    (st : VaultState) (tp : tape)
    : VaultState * notice * option (jsstring * tape) :=
  if negb (truthy (trim (seedPhrase st))) || negb (truthy (trim (password1 st)))
     || negb (truthy (trim (password2 st))) || negb (truthy (trim (password3 st)))
  then (st, PleaseCompleteAllFields, None)
  else
    match tripleEncryptV2 argon2 (seedPhrase st) (password1 st) (password2 st)
                          (password3 st) tp with
    | Ok (result, tp') =>
        let st' := setEncryptedOutput result st in
        if clipboard_works then
          let kdfInfo := getKdfInfo result in
          (setIsLoading false st',
           TripleEncryptionSuccess (option_map fst kdfInfo),
           Some (result, tp'))
        else (setIsLoading false st', EncryptionError ClipboardThrew, None)
    | Err e => (setIsLoading false st, EncryptionError (CoreError e), None)
    end.

End VaultEncrypt.

(** ** The message screen (the [App] component) *)

Module App.

(** The text of the result field: a decrypted plaintext, or the string
    'ERROR: ' followed by the message of an error. *)
Inductive output : Type :=
| Plain (s : jsstring)
| ErrorText (e : error).

Record State : Type := {
  message : jsstring;
  password : jsstring;
  cipher : jsstring;
  decryptPassword : jsstring;
  plainOut : output;
  isLoading : bool
}.

Definition initialState : State :=
  {| message := []; password := []; cipher := []; decryptPassword := [];
     plainOut := Plain []; isLoading := false |}.

Definition setMessage (v : jsstring) (st : State) : State :=
  {| message := v; password := password st; cipher := cipher st;
     decryptPassword := decryptPassword st; plainOut := plainOut st;
     isLoading := isLoading st |}.

Definition setPassword (v : jsstring) (st : State) : State :=
  {| message := message st; password := v; cipher := cipher st;
     decryptPassword := decryptPassword st; plainOut := plainOut st;
     isLoading := isLoading st |}.

Definition setCipher (v : jsstring) (st : State) : State :=
  {| message := message st; password := password st; cipher := v;
     decryptPassword := decryptPassword st; plainOut := plainOut st;
     isLoading := isLoading st |}.

Definition setDecryptPassword (v : jsstring) (st : State) : State :=
  {| message := message st; password := password st; cipher := cipher st;
     decryptPassword := v; plainOut := plainOut st;
     isLoading := isLoading st |}.

Definition setPlainOut (v : output) (st : State) : State :=
  {| message := message st; password := password st; cipher := cipher st;
     decryptPassword := decryptPassword st; plainOut := v;
     isLoading := isLoading st |}.

Definition setIsLoading (v : bool) (st : State) : State :=
  {| message := message st; password := password st; cipher := cipher st;
     decryptPassword := decryptPassword st; plainOut := plainOut st;
     isLoading := v |}.

(** The dialogs.  The success dialog of the encryption names the KDF
    ('UNKNOWN' for [None]) and its three numbers ('Legacy format' for
    [None]); the time it also shows is left out. *)
Inductive notice : Type :=
| EnterMessageAndPassword      (* 'Please enter both message and password' *)
| EncryptionSuccess (kdfText : option KdfId) (kdfDetails : option (Z * Z * Z))
| EncryptionError (t : thrown) (* 'Error', [e?.message ?? ...] *)
| EnterCipherAndPassword       (* 'Please enter both encrypted text and password' *)
| ClipboardIsEmpty             (* 'Info', 'Clipboard is empty' *)
| CouldNotPaste                (* 'Could not paste from clipboard' *)
| NoValidResult                (* 'No valid result to copy' *)
| ResultCopied                 (* 'Result copied to clipboard' *)
| CouldNotCopy.                (* 'Could not copy to clipboard' *)

(** 'ERROR:' *)
Definition ERROR_PREFIX : jsstring := [69; 82; 82; 79; 82; 58].

(** [s.startsWith(prefix)] *)
Fixpoint startsWith (s prefix : jsstring) : bool :=
  match prefix, s with
  | [], _ => true
  | p :: prefix', c :: s' => (c =? p) && startsWith s' prefix'
  | _ :: _, [] => false
  end.

(** [!plainOut]: the result field is the empty string. *)
Definition is_empty (o : output) : bool :=
  match o with
  | Plain s => negb (truthy s)
  | ErrorText _ => false
  end.

(** [plainOut.startsWith('ERROR:')] *)
Definition is_error_text (o : output) : bool :=
  match o with
  | Plain s => startsWith s ERROR_PREFIX
  | ErrorText _ => true
  end.

Section Handlers.
Context {prim : Primitives}.

(** [onEncryptShare]: the state after the handler, the dialog, and, when
    the encryption and the copy went through, the text handed to the
    clipboard and to the share sheet, with the tape that is left. *)
Definition onEncryptShare (argon2 : capability) (clipboard_works : bool)
    (st : State) (tp : tape) : State * notice * option (jsstring * tape) :=
  if negb (truthy (trim (message st))) || negb (truthy (trim (password st)))
  then (st, EnterMessageAndPassword, None)
  else
    match encryptV2 argon2 (message st) (password st) None tp with
    | Ok (b64, tp') =>
        let st' := setCipher b64 st in
        if clipboard_works then
          let kdfInfo := getKdfInfo b64 in
          (setIsLoading false st',
           EncryptionSuccess (option_map fst kdfInfo)
                             (option_map (fun i => active_params (snd i)) kdfInfo),
           Some (b64, tp'))
        else (setIsLoading false st', EncryptionError ClipboardThrew, None)
    | Err e => (setIsLoading false st, EncryptionError (CoreError e), None)
    end.

(** [onDecrypt]; what it reads with [getKdfInfo] goes to the log only. *)
Definition onDecrypt (argon2 : capability) (st : State) : State * option notice :=
  if negb (truthy (trim (cipher st))) || negb (truthy (trim (decryptPassword st)))
  then (st, Some EnterCipherAndPassword)
  else
    match decryptAuto argon2 (trim (cipher st)) (decryptPassword st) with
    | Ok pt => (setIsLoading false (setPlainOut (Plain pt) st), None)
    | Err e => (setIsLoading false (setPlainOut (ErrorText e) st), None)
    end.

End Handlers.

Definition pasteFromClipboard (clipboard : option jsstring) (st : State)
    : State * option notice :=
  match clipboard with
  | Some text =>
      if truthy text && truthy (trim text)
      then (setCipher (trim text) st, None)
      else (st, Some ClipboardIsEmpty)
  | None => (st, Some CouldNotPaste)
  end.

(** [copyPlain]: the dialog and what is handed to the clipboard.  The
    text of an [ErrorText] never gets that far. *)
Definition copyPlain (clipboard_works : bool) (st : State)
    : notice * option jsstring :=
  if is_empty (plainOut st) || is_error_text (plainOut st)
  then (NoValidResult, None)
  else
    match plainOut st with
    | Plain s => if clipboard_works then (ResultCopied, Some s) else (CouldNotCopy, None)
    | ErrorText _ => (NoValidResult, None)
    end.

End App.

(** ** The first message screen (the [SimpleApp] component)

    The component carries its own copy of the legacy functions, word
    for word those of legacy-crypto.ts but for their messages, which are
    in Spanish; the constructors of [error] stand for the messages of
    either copy. *)

Module SimpleApp.

Section Functions.
Context {prim : Primitives}.

Definition deriveKey (password : jsstring) (salt : bytes) : result bytes :=
  deriveKeyLegacy password salt.

Definition encryptToBase64 (plaintext password : jsstring) : M jsstring :=
  encryptToBase64Legacy plaintext password.

Definition decryptFromBase64 (b64 password : jsstring) : result jsstring :=
  decryptFromBase64 b64 password.

End Functions.

(** One password field serves both directions. *)
Record State : Type := {
  message : jsstring;
  password : jsstring;
  cipher : jsstring;
  plainOut : App.output;
  isLoading : bool
}.

Definition initialState : State :=
  {| message := []; password := []; cipher := []; plainOut := App.Plain [];
     isLoading := false |}.

Definition setMessage (v : jsstring) (st : State) : State :=
  {| message := v; password := password st; cipher := cipher st;
     plainOut := plainOut st; isLoading := isLoading st |}.

Definition setPassword (v : jsstring) (st : State) : State :=
  {| message := message st; password := v; cipher := cipher st;
     plainOut := plainOut st; isLoading := isLoading st |}.

Definition setCipher (v : jsstring) (st : State) : State :=
  {| message := message st; password := password st; cipher := v;
     plainOut := plainOut st; isLoading := isLoading st |}.

Definition setPlainOut (v : App.output) (st : State) : State :=
  {| message := message st; password := password st; cipher := cipher st;
     plainOut := v; isLoading := isLoading st |}.

Definition setIsLoading (v : bool) (st : State) : State :=
  {| message := message st; password := password st; cipher := cipher st;
     plainOut := plainOut st; isLoading := v |}.

Inductive notice : Type :=
| EnterMessageAndPassword   (* 'Por favor ingresa tanto el mensaje como la contraseña' *)
| EncryptionSuccess         (* 'Mensaje cifrado y copiado al portapapeles' *)
| EncryptionError (t : thrown)
| EnterCipherAndPassword.   (* 'Por favor ingresa tanto el texto cifrado como la contraseña' *)

Section Handlers.
Context {prim : Primitives}.

Definition onEncryptShare (clipboard_works : bool) (st : State) (tp : tape)
    : State * notice * option (jsstring * tape) :=
  if negb (truthy (trim (message st))) || negb (truthy (trim (password st)))
  then (st, EnterMessageAndPassword, None)
  else
    match encryptToBase64 (message st) (password st) tp with
    | Ok (b64, tp') =>
        let st' := setCipher b64 st in
        if clipboard_works
        then (setIsLoading false st', EncryptionSuccess, Some (b64, tp'))
        else (setIsLoading false st', EncryptionError ClipboardThrew, None)
    | Err e => (setIsLoading false st, EncryptionError (CoreError e), None)
    end.

Definition onDecrypt (st : State) : State * option notice :=
  if negb (truthy (trim (cipher st))) || negb (truthy (trim (password st)))
  then (st, Some EnterCipherAndPassword)
  else
    match decryptFromBase64 (trim (cipher st)) (password st) with
    | Ok pt => (setIsLoading false (setPlainOut (App.Plain pt) st), None)
    | Err e => (setIsLoading false (setPlainOut (App.ErrorText e) st), None)
    end.

End Handlers.

End SimpleApp.

(** ** Predicates of the further statements *)

Definition all_whitespace (s : jsstring) : Prop := Forall (fun c => is_whitespace c = true) s.

(** The tape [n] bytes on. *)
Definition tape_skip (n : nat) (tp : tape) : tape := fun i => tp (n + i)%nat.

(** The number of characters of one layer over a plaintext whose
    encoding has [n] bytes: the base64 length of 57 bytes of header, the
    16 bytes of the tag and the [n] bytes. *)
Definition layer_length (n : nat) : nat := (4 * ((n + 75) / 3))%nat.

(** A blob of 57 bytes with a header that parses: 'SS1', version 1, the
    KDF id of scrypt, and zeros for the numbers, the salt and the
    nonce. *)
Definition zero_params_header : bytes :=
  TextEncoder_encode MAGIC ++ [x01; x02] ++ zeros 52.

(** ** Passwords that open a blob

    What is assumed of the cipher, beyond [PrimitiveLaws], where a
    statement is about the passwords that a blob refuses: under a
    32-byte key and a 24-byte nonce [crypto_secretbox_open] returns a
    message only for the box that [crypto_secretbox] makes of that
    message under that nonce and key.  XSalsa20-Poly1305 is of this
    kind: the opener recomputes the tag of the ciphertext and compares
    it with the one in the box. *)
Record Authenticity (P : Primitives) : Prop := {
  open_genuine : forall box nonce key msg,
      length key = 32%nat -> length nonce = 24%nat ->
      crypto_secretbox_open box nonce key = Some msg ->
      box = crypto_secretbox msg nonce key
}.

(** [password] fits the blob [b64] with plaintext [plaintext]: read as
    the versioned format, or as the legacy format, the blob carries the
    box that the cipher makes of the encoding of [plaintext] under the
    key that [password] derives in that reading. *)
Definition fits_versioned {prim : Primitives} (opener : capability)
    (b64 password plaintext : jsstring) : Prop :=
  exists header ciphertext key config msg,
    parseHeader (base64ToBlob b64) = Ok (header, ciphertext)
    /\ deriveKey opener password (salt header)
                 (Some (as_partial (kdfConfig header))) = Ok (key, config)
    /\ ciphertext = crypto_secretbox msg (nonce header) key
    /\ plaintext = TextDecoder_decode msg.

Definition fits_legacy {prim : Primitives} (b64 password plaintext : jsstring) : Prop :=
  exists key msg,
    deriveKeyLegacy password (slice (fromBase64 b64) 0 SALT_LEN) = Ok key
    /\ slice_from (fromBase64 b64) (SALT_LEN + NONCE_LEN)
       = crypto_secretbox msg (slice (fromBase64 b64) SALT_LEN (SALT_LEN + NONCE_LEN))
                          key
    /\ plaintext = TextDecoder_decode msg.

Definition fits {prim : Primitives} (opener : capability)
    (b64 password plaintext : jsstring) : Prop :=
  fits_versioned opener b64 password plaintext \/ fits_legacy b64 password plaintext.

(** The environment in which a blob made with [maker] can be opened
    again: the one it was made in, or any when it was made without
    Argon2id. *)
Definition same_environment (maker opener : capability) : Prop :=
  opener = maker \/ maker = None.

(** The strings of [n] letters, each 'a' or 'b', and the arrays of [n]
    bytes: two enumerations for counting keys against passwords. *)
Fixpoint words (n : nat) : list jsstring :=
  match n with
  | O => [[]]
  | S n' => map (cons 97) (words n') ++ map (cons 98) (words n')
  end.

Definition all_bytes : list byte := map byte_of_Z (map Z.of_nat (seq 0 256)).

Fixpoint byte_strings (n : nat) : list bytes :=
  match n with
  | O => [[]]
  | S n' => flat_map (fun b => map (cons b) (byte_strings n')) all_bytes
  end.

(* ================================================================== *)
(** * Properties *)
(* ================================================================== *)

Unset Implicit Arguments.

Ltac Zify.zify_post_hook ::= Z.div_mod_to_equations.

(** Case analysis on the integer comparisons of the goal. *)
Ltac zcases :=
  repeat match goal with
  | |- context [(?a <=? ?b)%Z] => destruct (Z.leb_spec a b)
  | |- context [(?a <? ?b)%Z] => destruct (Z.ltb_spec a b)
  | |- context [(?a =? ?b)%Z] => destruct (Z.eqb_spec a b)
  end.

(** Settles every integer comparison of the goal that [lia] decides. *)
Ltac zsettle :=
  repeat match goal with
  | |- context [(?a <=? ?b)%Z] =>
      first [ replace (a <=? b) with true by (symmetry; apply Z.leb_le; lia)
            | replace (a <=? b) with false by (symmetry; apply Z.leb_gt; lia) ]
  | |- context [(?a <? ?b)%Z] =>
      first [ replace (a <? b) with true by (symmetry; apply Z.ltb_lt; lia)
            | replace (a <? b) with false by (symmetry; apply Z.ltb_ge; lia) ]
  | |- context [(?a =? ?b)%Z] =>
      first [ replace (a =? b) with true by (symmetry; apply Z.eqb_eq; lia)
            | replace (a =? b) with false by (symmetry; apply Z.eqb_neq; lia) ]
  end.

(** ** The codecs on known values *)

(** U+20AC is E2 82 AC. *)
Example encode_euro_sign : TextEncoder_encode [0x20AC] = [xe2; x82; xac].
Proof. reflexivity. Qed.

(** U+1F600, the pair D83D DE00, is F0 9F 98 80, and comes back. *)
Example encode_surrogate_pair :
  TextEncoder_encode [0xD83D; 0xDE00] = [xf0; x9f; x98; x80]
  /\ TextDecoder_decode [xf0; x9f; x98; x80] = [0xD83D; 0xDE00].
Proof. split; reflexivity. Qed.

(** A sequence cut short is one U+FFFD, and the byte that cut it is
    read on its own. *)
Example decode_truncated : TextDecoder_decode [xf0; x9f; x98; x41] = [0xFFFD; 65].
Proof. reflexivity. Qed.

(** An overlong form and an encoded surrogate are malformed byte by
    byte. *)
Example decode_malformed :
  TextDecoder_decode [xc0; x80] = [0xFFFD; 0xFFFD]
  /\ TextDecoder_decode [xed; xa0; x80] = [0xFFFD; 0xFFFD; 0xFFFD].
Proof. split; reflexivity. Qed.

(** 'hello' is 'aGVsbG8=' in base64; the decoder does without the
    padding and skips a line break. *)
Example base64_hello :
  toBase64 [x68; x65; x6c; x6c; x6f] = [97; 71; 86; 115; 98; 71; 56; 61]
  /\ fromBase64 [97; 71; 86; 115; 98; 71; 56] = [x68; x65; x6c; x6c; x6f]
  /\ fromBase64 [97; 71; 86; 115; 10; 98; 71; 56; 61] = [x68; x65; x6c; x6c; x6f].
Proof. repeat split; reflexivity. Qed.

(** ' a b' followed by a line feed trims to 'a b'. *)
Example trim_spaces : trim [32; 97; 32; 98; 10] = [97; 32; 98].
Proof. reflexivity. Qed.

(** The header of the default Argon2id configuration: 'SS1', version 1,
    KDF 1, then 19456, 2 and 1 as little-endian 32-bit numbers. *)
Example header_prefix :
  firstn 17 (header_bytes DEFAULT_ARGON2ID (zeros 16) (zeros 24))
  = [x53; x53; x31; x01; x01; x00; x4c; x00; x00; x02; x00; x00; x00;
     x01; x00; x00; x00].
Proof. reflexivity. Qed.

(** ** Bytes *)

Lemma Z_of_byte_range (b : byte) : byte_range (Z_of_byte b).
Proof.
  unfold byte_range, Z_of_byte. pose proof (Byte.to_N_bounded b). lia.
Qed.

Lemma byte_of_Z_of_byte (b : byte) : byte_of_Z (Z_of_byte b) = b.
Proof.
  unfold byte_of_Z. pose proof (Z_of_byte_range b) as R. unfold byte_range in R.
  rewrite Z.mod_small by exact R.
  unfold Z_of_byte. rewrite N2Z.id, Byte.of_to_N. reflexivity.
Qed.

Lemma Z_of_byte_of_Z (z : Z) : byte_range z -> Z_of_byte (byte_of_Z z) = z.
Proof.
  intros R. unfold byte_range in R. unfold byte_of_Z.
  rewrite Z.mod_small by exact R.
  destruct (Byte.of_N (Z.to_N z)) as [b|] eqn:E.
  - apply Byte.to_of_N in E. unfold Z_of_byte. rewrite E. lia.
  - pose proof (Byte.to_of_N_option_map (Z.to_N z)) as O. rewrite E in O. simpl in O.
    destruct (N.leb_spec (Z.to_N z) 255); [discriminate | lia].
Qed.

Lemma Z_of_byte_of_Z_mod (z : Z) : Z_of_byte (byte_of_Z z) = z mod 256.
Proof.
  assert (byte_of_Z z = byte_of_Z (z mod 256)) as ->.
  { unfold byte_of_Z. rewrite Z.mod_mod by lia. reflexivity. }
  apply Z_of_byte_of_Z. unfold byte_range. lia.
Qed.

Lemma Z_of_byte_inj (a b : byte) : Z_of_byte a = Z_of_byte b -> a = b.
Proof.
  intros E. rewrite <- (byte_of_Z_of_byte a), <- (byte_of_Z_of_byte b), E. reflexivity.
Qed.

Lemma map_Z_of_byte_range (bs : bytes) : Forall byte_range (map Z_of_byte bs).
Proof.
  induction bs; simpl; constructor; auto using Z_of_byte_range.
Qed.

Lemma map_byte_of_Z_of_byte (bs : bytes) : map byte_of_Z (map Z_of_byte bs) = bs.
Proof.
  induction bs; simpl; [reflexivity|]. rewrite byte_of_Z_of_byte, IHbs. reflexivity.
Qed.

Lemma map_Z_of_byte_of_Z (zs : list Z) :
  Forall byte_range zs -> map Z_of_byte (map byte_of_Z zs) = zs.
Proof.
  induction 1; simpl; [reflexivity|]. rewrite Z_of_byte_of_Z by assumption.
  rewrite IHForall. reflexivity.
Qed.

Lemma bytes_eqb_eq (a b : bytes) : bytes_eqb a b = true <-> a = b.
Proof.
  revert b. induction a as [|x a IH]; destruct b as [|y b]; simpl;
    try (split; [discriminate | discriminate]); try tauto.
  rewrite andb_true_iff, IH. split.
  - intros [E ->]. apply Byte.byte_dec_bl in E. congruence.
  - intros E. inversion E. split; [apply Byte.byte_dec_lb|]; reflexivity.
Qed.

Lemma jsstring_eqb_eq (a b : jsstring) : jsstring_eqb a b = true <-> a = b.
Proof.
  revert b. induction a as [|x a IH]; destruct b as [|y b]; simpl;
    try (split; [discriminate | discriminate]); try tauto.
  rewrite andb_true_iff, IH, Z.eqb_eq. split.
  - intros [-> ->]. reflexivity.
  - intros E. inversion E. split; reflexivity.
Qed.

(** ** Lists *)

(** Induction three elements at a time, the grain of base64. *)
Lemma list_ind3 (A : Type) (P : list A -> Prop) :
  P [] -> (forall a, P [a]) -> (forall a b, P [a; b]) ->
  (forall a b c l, P l -> P (a :: b :: c :: l)) ->
  forall l, P l.
Proof.
  intros H0 H1 H2 H3.
  assert (forall l, P l /\ (forall a, P (a :: l)) /\ (forall a b, P (a :: b :: l))) as H.
  { induction l as [|x l [IH0 [IH1 IH2]]].
    - repeat split; auto.
    - repeat split; auto. }
  intros l. apply H.
Qed.

(** Induction with the tail of the tail at hand, the grain of
    surrogate pairs. *)
Lemma list_ind2 (A : Type) (P : list A -> Prop) :
  P [] -> (forall a, P [a]) ->
  (forall a b l, P (b :: l) -> P l -> P (a :: b :: l)) ->
  forall l, P l.
Proof.
  intros H0 H1 H2.
  assert (forall l, P l /\ (forall a, P (a :: l))) as H.
  { induction l as [|x l [IH0 IH1]].
    - split; auto.
    - split; auto. }
  intros l. apply H.
Qed.

Lemma cons_eq_inv (A : Type) (a b : A) (l l' : list A) :
  a :: l = b :: l' -> a = b /\ l = l'.
Proof. intros E. injection E. auto. Qed.

Lemma filter_all (A : Type) (f : A -> bool) (l : list A) :
  length (filter f l) = length l -> filter f l = l.
Proof.
  induction l as [|a l IH]; simpl; [reflexivity|].
  destruct (f a); simpl; intros E.
  - f_equal. apply IH. lia.
  - pose proof (filter_length_le f l). lia.
Qed.

(** ** Base64 *)

Lemma base64_value_char (n : Z) :
  0 <= n < 64 -> base64_value (base64_char n) = Some n.
Proof.
  intros R. unfold base64_char.
  destruct (Z.ltb_spec n 26); [|destruct (Z.ltb_spec n 52);
    [|destruct (Z.ltb_spec n 62); [|destruct (Z.eqb_spec n 62)]]];
    unfold base64_value; zsettle; cbn [andb orb]; f_equal; lia.
Qed.

Lemma base64_char_range (n : Z) : 0 <= n < 64 -> 43 <= base64_char n <= 122.
Proof.
  intros R. unfold base64_char. zcases; lia.
Qed.

Lemma base64_char_not_pad (n : Z) : 0 <= n < 64 -> base64_char n <> 61.
Proof.
  intros R. unfold base64_char. zcases; lia.
Qed.

Lemma base64_clean_char (n : Z) (s : jsstring) :
  0 <= n < 64 -> base64_clean (base64_char n :: s) = n :: base64_clean s.
Proof.
  intros R. simpl. rewrite base64_value_char by exact R.
  destruct (Z.eqb_spec (base64_char n) 61) as [E|_]; [|reflexivity].
  exfalso. revert E. apply base64_char_not_pad. exact R.
Qed.

Lemma base64_decode_encode (zs : list Z) :
  Forall byte_range zs -> base64_decode (base64_clean (base64_encode zs)) = zs.
Proof.
  unfold byte_range. induction zs as [|a|a b|a b c l IH] using list_ind3; intros F.
  - reflexivity.
  - inversion_clear F as [|? ? Ra _].
    cbn [base64_encode]. rewrite !base64_clean_char by lia.
    simpl. f_equal. lia.
  - inversion_clear F as [|? ? Ra F']. inversion_clear F' as [|? ? Rb _].
    cbn [base64_encode]. rewrite !base64_clean_char by lia.
    simpl. f_equal; [lia|]. f_equal. lia.
  - inversion_clear F as [|? ? Ra F']. inversion_clear F' as [|? ? Rb F''].
    inversion_clear F'' as [|? ? Rc F].
    cbn [base64_encode]. rewrite !base64_clean_char by lia.
    cbn [base64_decode]. rewrite (IH F).
    f_equal; [lia|]. f_equal; [lia|]. f_equal. lia.
Qed.

Lemma fromBase64_toBase64 (u8 : bytes) : fromBase64 (toBase64 u8) = u8.
Proof.
  unfold fromBase64, toBase64.
  rewrite base64_decode_encode by apply map_Z_of_byte_range.
  apply map_byte_of_Z_of_byte.
Qed.

Lemma base64_encode_length (zs : list Z) :
  length (base64_encode zs) = (4 * ((length zs + 2) / 3))%nat.
Proof.
  induction zs as [|a|a b|a b c l IH] using list_ind3; try reflexivity.
  cbn [base64_encode length]. rewrite IH.
  replace (S (S (S (length l))) + 2)%nat with (1 * 3 + (length l + 2))%nat by lia.
  rewrite Nat.div_add_l by lia. lia.
Qed.

Lemma toBase64_length (u8 : bytes) :
  length (toBase64 u8) = (4 * ((length u8 + 2) / 3))%nat.
Proof.
  unfold toBase64. rewrite base64_encode_length, length_map. reflexivity.
Qed.

Lemma base64_encode_text (zs : list Z) :
  Forall byte_range zs -> base64_text (base64_encode zs).
Proof.
  unfold byte_range, base64_text.
  induction zs as [|a|a b|a b c l IH] using list_ind3; intros F.
  - constructor.
  - inversion_clear F as [|? ? Ra _]. cbn [base64_encode].
    repeat constructor; try lia; apply base64_char_range; lia.
  - inversion_clear F as [|? ? Ra F']. inversion_clear F' as [|? ? Rb _].
    cbn [base64_encode].
    repeat constructor; try lia; apply base64_char_range; lia.
  - inversion_clear F as [|? ? Ra F']. inversion_clear F' as [|? ? Rb F''].
    inversion_clear F'' as [|? ? Rc F]. cbn [base64_encode].
    repeat (constructor; [apply base64_char_range; lia|]). apply IH, F.
Qed.

Lemma toBase64_text (u8 : bytes) : base64_text (toBase64 u8).
Proof. apply base64_encode_text, map_Z_of_byte_range. Qed.

(** ** UTF-8 *)

Ltac utf8_reduce :=
  cbn [andb orb negb app pend_cp pend_more pend_lower pend_upper fst snd].

Lemma utf8_of_scalar_range (cp : Z) :
  scalar_value cp -> Forall byte_range (utf8_of_scalar cp).
Proof.
  unfold scalar_value, byte_range, utf8_of_scalar. intros [R _].
  zcases; repeat constructor; lia.
Qed.

Lemma utf8_start_1 (b : Z) : b <= 0x7F -> utf8_start b = ([b], None).
Proof. intros. unfold utf8_start. zsettle. reflexivity. Qed.

Lemma utf8_start_2 (b : Z) :
  0xC2 <= b <= 0xDF ->
  utf8_start b = ([], Some {| pend_cp := b mod 32; pend_more := 0;
                              pend_lower := 0x80; pend_upper := 0xBF |}).
Proof. intros. unfold utf8_start. zsettle. reflexivity. Qed.

Lemma utf8_start_3 (b : Z) :
  0xE0 <= b <= 0xEF ->
  utf8_start b = ([], Some {| pend_cp := b mod 16; pend_more := 1;
                              pend_lower := if b =? 0xE0 then 0xA0 else 0x80;
                              pend_upper := if b =? 0xED then 0x9F else 0xBF |}).
Proof. intros. unfold utf8_start. zsettle. reflexivity. Qed.

Lemma utf8_start_4 (b : Z) :
  0xF0 <= b <= 0xF4 ->
  utf8_start b = ([], Some {| pend_cp := b mod 8; pend_more := 2;
                              pend_lower := if b =? 0xF0 then 0x90 else 0x80;
                              pend_upper := if b =? 0xF4 then 0x8F else 0xBF |}).
Proof. intros. unfold utf8_start. zsettle. reflexivity. Qed.

Lemma utf8_start_bad (b : Z) :
  0x80 <= b <= 0xC1 \/ 0xF5 <= b -> utf8_start b = ([0xFFFD], None).
Proof. intros [H|H]; unfold utf8_start; zsettle; reflexivity. Qed.

Lemma utf8_step_last (cp lo hi b : Z) :
  lo <= b <= hi ->
  utf8_step (Some {| pend_cp := cp; pend_more := 0; pend_lower := lo; pend_upper := hi |}) b
  = ([cp * 64 + b mod 64], None).
Proof. intros. unfold utf8_step. utf8_reduce. zsettle. reflexivity. Qed.

Lemma utf8_step_more (cp lo hi b : Z) (n : nat) :
  lo <= b <= hi ->
  utf8_step (Some {| pend_cp := cp; pend_more := S n; pend_lower := lo; pend_upper := hi |}) b
  = ([], Some {| pend_cp := cp * 64 + b mod 64; pend_more := n;
                 pend_lower := 0x80; pend_upper := 0xBF |}).
Proof. intros. unfold utf8_step. utf8_reduce. zsettle. reflexivity. Qed.

Lemma utf8_run_cons (st : option pending) (b : Z) (bs : list Z) :
  utf8_run st (b :: bs) = fst (utf8_step st b) ++ utf8_run (snd (utf8_step st b)) bs.
Proof. simpl. destruct (utf8_step st b). reflexivity. Qed.

Lemma utf8_run_scalar (cp : Z) (rest : list Z) :
  scalar_value cp ->
  utf8_run None (utf8_of_scalar cp ++ rest) = cp :: utf8_run None rest.
Proof.
  unfold scalar_value, utf8_of_scalar. intros [R S].
  destruct (Z.ltb_spec cp 0x80); [|destruct (Z.ltb_spec cp 0x800);
    [|destruct (Z.ltb_spec cp 0x10000)]]; cbn [app]; rewrite !utf8_run_cons;
    cbn [utf8_step].
  - rewrite utf8_start_1 by lia. reflexivity.
  - rewrite utf8_start_2 by lia. cbn [fst snd app].
    rewrite utf8_step_last by lia. cbn [fst snd app]. f_equal. lia.
  - rewrite utf8_start_3 by lia. cbn [fst snd app].
    rewrite utf8_step_more.
    2:{ destruct (Z.eqb_spec (224 + cp / 4096) 224);
        destruct (Z.eqb_spec (224 + cp / 4096) 237); lia. }
    cbn [fst snd app]. rewrite utf8_step_last by lia. cbn [fst snd app]. f_equal. lia.
  - rewrite utf8_start_4 by lia. cbn [fst snd app].
    rewrite utf8_step_more.
    2:{ destruct (Z.eqb_spec (240 + cp / 262144) 240);
        destruct (Z.eqb_spec (240 + cp / 262144) 244); lia. }
    cbn [fst snd app]. rewrite utf8_step_more by lia. cbn [fst snd app].
    rewrite utf8_step_last by lia. cbn [fst snd app]. f_equal. lia.
Qed.

Lemma utf8_run_scalars (cps : list Z) :
  Forall scalar_value cps -> utf8_run None (flat_map utf8_of_scalar cps) = cps.
Proof.
  induction 1 as [|cp cps Hcp _ IH]; [reflexivity|].
  cbn [flat_map]. rewrite utf8_run_scalar by exact Hcp. rewrite IH. reflexivity.
Qed.

Lemma utf8_of_scalars_range (cps : list Z) :
  Forall scalar_value cps -> Forall byte_range (flat_map utf8_of_scalar cps).
Proof.
  induction 1 as [|cp cps Hcp _ IH]; [constructor|].
  cbn [flat_map]. apply Forall_app. split; [apply utf8_of_scalar_range, Hcp | exact IH].
Qed.

Lemma surrogate_cases (c : Z) :
  (is_high_surrogate c = true /\ 0xD800 <= c <= 0xDBFF)
  \/ (is_high_surrogate c = false /\ is_low_surrogate c = true /\ 0xDC00 <= c <= 0xDFFF)
  \/ (is_high_surrogate c = false /\ is_low_surrogate c = false
      /\ ~ (0xD800 <= c <= 0xDFFF)).
Proof.
  unfold is_high_surrogate, is_low_surrogate. zcases; cbn [andb]; lia.
Qed.

(** Induction on a well-formed string, one character at a time: a
    code unit that is no surrogate, or a surrogate pair. *)
Lemma well_formed_ind (P : jsstring -> Prop) :
  P [] ->
  (forall a l,
      0 <= a < 0x10000 -> ~ (0xD800 <= a <= 0xDFFF) -> well_formed l = true ->
      to_scalars (a :: l) = a :: to_scalars l ->
      P l -> P (a :: l)) ->
  (forall a b l,
      0xD800 <= a <= 0xDBFF -> 0xDC00 <= b <= 0xDFFF -> well_formed l = true ->
      to_scalars (a :: b :: l)
      = (0x10000 + (a - 0xD800) * 0x400 + (b - 0xDC00)) :: to_scalars l ->
      P l -> P (a :: b :: l)) ->
  forall s, well_formed s = true -> P s.
Proof.
  intros H0 H1 H2.
  induction s as [|a|a b l IH1 IH2] using list_ind2; intros W.
  - exact H0.
  - change (well_formed [a]) with
      ((0 <=? a) && (a <? 0x10000) &&
       (if is_high_surrogate a then false else negb (is_low_surrogate a) && true)) in W.
    destruct (surrogate_cases a) as [[E Ha]|[[E [E' Ha]]|[E [E' Ha]]]];
      rewrite E in W; try rewrite E' in W;
      cbn [negb andb] in W; rewrite ?andb_false_r in W; try discriminate W.
    rewrite andb_true_r, andb_true_iff, Z.leb_le, Z.ltb_lt in W.
    apply H1; try lia; try reflexivity; try exact H0.
    cbn [to_scalars]. rewrite E, E'. reflexivity.
  - change (well_formed (a :: b :: l)) with
      ((0 <=? a) && (a <? 0x10000) &&
       (if is_high_surrogate a then is_low_surrogate b && well_formed l
        else negb (is_low_surrogate a) && well_formed (b :: l))) in W.
    assert (to_scalars (a :: b :: l)
            = if is_high_surrogate a then
                if is_low_surrogate b
                then (0x10000 + (a - 0xD800) * 0x400 + (b - 0xDC00)) :: to_scalars l
                else 0xFFFD :: to_scalars (b :: l)
              else if is_low_surrogate a then 0xFFFD :: to_scalars (b :: l)
              else a :: to_scalars (b :: l)) as T by reflexivity.
    destruct (surrogate_cases a) as [[E Ha]|[[E [E' Ha]]|[E [E' Ha]]]];
      rewrite E in W; try rewrite E' in W;
      cbn [negb andb] in W; rewrite ?andb_false_r in W; try discriminate W.
    + apply andb_true_iff in W. destruct W as [_ W].
      apply andb_true_iff in W. destruct W as [Lb W].
      assert (0xDC00 <= b <= 0xDFFF) as Hb.
      { unfold is_low_surrogate in Lb. apply andb_true_iff in Lb.
        rewrite !Z.leb_le in Lb. lia. }
      apply H2; auto. rewrite T, E, Lb. reflexivity.
    + apply andb_true_iff in W. destruct W as [R W].
      rewrite andb_true_iff, Z.leb_le, Z.ltb_lt in R.
      apply H1; auto. rewrite T, E, E'. reflexivity.
Qed.

Lemma to_scalars_scalar (s : jsstring) :
  well_formed s = true -> Forall scalar_value (to_scalars s).
Proof.
  revert s. apply well_formed_ind.
  - constructor.
  - intros a l R S _ E IH. rewrite E. constructor; [|exact IH].
    unfold scalar_value. lia.
  - intros a b l Ha Hb _ E IH. rewrite E. constructor; [|exact IH].
    unfold scalar_value. lia.
Qed.

Lemma utf16_to_scalars (s : jsstring) :
  well_formed s = true -> flat_map utf16_of_scalar (to_scalars s) = s.
Proof.
  revert s. apply well_formed_ind.
  - reflexivity.
  - intros a l R S _ E IH. rewrite E. cbn [flat_map]. rewrite IH.
    unfold utf16_of_scalar. zsettle. reflexivity.
  - intros a b l Ha Hb _ E IH. rewrite E. cbn [flat_map]. rewrite IH.
    unfold utf16_of_scalar. zsettle. cbn [app]. f_equal; [lia|]. f_equal. lia.
Qed.

(** The first scalar value of a well-formed string is U+FEFF only when
    its first code unit is. *)
Lemma to_scalars_head (s : jsstring) :
  transcodable s = true ->
  to_scalars s = [] \/ exists cp cps, to_scalars s = cp :: cps /\ cp <> 0xFEFF.
Proof.
  unfold transcodable. rewrite andb_true_iff, negb_true_iff. intros [W B].
  revert s W B. apply (well_formed_ind
    (fun s => leading_FEFF s = false ->
              to_scalars s = [] \/ exists cp cps, to_scalars s = cp :: cps /\ cp <> 0xFEFF)).
  - left. reflexivity.
  - intros a l R S _ E _ B. right. cbn [leading_FEFF] in B. apply Z.eqb_neq in B.
    eexists _, _. split; [exact E | exact B].
  - intros a b l Ha Hb _ E _ _. right.
    eexists _, _. split; [exact E | lia].
Qed.

Lemma utf8_of_scalar_not_BOM (cp : Z) (rest : list Z) :
  scalar_value cp -> cp <> 0xFEFF ->
  firstn 3 (utf8_of_scalar cp ++ rest) <> [239; 187; 191].
Proof.
  unfold scalar_value, utf8_of_scalar. intros [R S] N.
  destruct (Z.ltb_spec cp 0x80); [|destruct (Z.ltb_spec cp 0x800);
    [|destruct (Z.ltb_spec cp 0x10000)]]; cbn [app firstn]; intros E.
  - destruct rest as [|? ?]; [discriminate E|]. apply cons_eq_inv in E as [E _]. lia.
  - apply cons_eq_inv in E as [E _]. lia.
  - apply cons_eq_inv in E as [E1 E]. apply cons_eq_inv in E as [E2 E].
    apply cons_eq_inv in E as [E3 _]. lia.
  - apply cons_eq_inv in E as [E _]. lia.
Qed.

Lemma TextEncoder_no_BOM (s : jsstring) :
  transcodable s = true -> starts_with_BOM (TextEncoder_encode s) = false.
Proof.
  intros T. destruct (starts_with_BOM (TextEncoder_encode s)) eqn:E; [|reflexivity].
  exfalso. unfold starts_with_BOM in E. apply bytes_eqb_eq in E.
  assert (well_formed s = true) as W.
  { unfold transcodable in T. apply andb_true_iff in T. apply T. }
  pose proof (to_scalars_scalar s W) as F.
  apply (f_equal (map Z_of_byte)) in E.
  unfold TextEncoder_encode in E.
  rewrite <- firstn_map, map_Z_of_byte_of_Z in E by (apply utf8_of_scalars_range, F).
  destruct (to_scalars_head s T) as [E0|[cp [cps [E0 N]]]]; rewrite E0 in *.
  - discriminate E.
  - cbn [flat_map] in E. revert E. apply utf8_of_scalar_not_BOM; [|exact N].
    inversion F. assumption.
Qed.

(** Encoding a string to UTF-8 and decoding it gives the string back
    when it is well-formed and does not begin with U+FEFF. *)
Lemma TextDecoder_TextEncoder (s : jsstring) :
  transcodable s = true -> TextDecoder_decode (TextEncoder_encode s) = s.
Proof.
  intros T.
  assert (well_formed s = true) as W.
  { unfold transcodable in T. apply andb_true_iff in T. apply T. }
  unfold TextDecoder_decode. rewrite TextEncoder_no_BOM by exact T.
  unfold TextEncoder_encode.
  rewrite map_Z_of_byte_of_Z by (apply utf8_of_scalars_range, to_scalars_scalar, W).
  rewrite utf8_run_scalars by (apply to_scalars_scalar, W).
  apply utf16_to_scalars, W.
Qed.

(** *** ASCII bytes and the decoder

    Whatever else is in the input, the decoder passes every byte below
    0x80 through and emits nothing else below U+0080. *)

Lemma utf8_start_ascii (b : Z) :
  byte_range b ->
  filter ascii (fst (utf8_start b)) = filter ascii [b]
  /\ pending_ok (snd (utf8_start b)).
Proof.
  unfold byte_range. intros R.
  destruct (Z.leb_spec b 0x7F);
    [|destruct (Z.leb_spec b 0xC1);
      [|destruct (Z.leb_spec b 0xDF);
        [|destruct (Z.leb_spec b 0xEF); [|destruct (Z.leb_spec b 0xF4)]]]].
  - rewrite utf8_start_1 by lia. cbn [fst snd pending_ok]. auto.
  - rewrite utf8_start_bad by lia. cbn [fst snd pending_ok filter].
    unfold ascii. zsettle. auto.
  - rewrite utf8_start_2 by lia. cbn [fst snd pending_ok filter].
    unfold ascii. zsettle. cbn [pend_cp pend_more pend_lower pend_upper].
    repeat split; try lia.
  - rewrite utf8_start_3 by lia. cbn [fst snd pending_ok filter].
    unfold ascii. zsettle. cbn [pend_cp pend_more pend_lower pend_upper].
    destruct (Z.eqb_spec b 0xE0); destruct (Z.eqb_spec b 0xED);
      repeat split; try lia; discriminate.
  - rewrite utf8_start_4 by lia. cbn [fst snd pending_ok filter].
    unfold ascii. zsettle. cbn [pend_cp pend_more pend_lower pend_upper].
    destruct (Z.eqb_spec b 0xF0); destruct (Z.eqb_spec b 0xF4);
      repeat split; try lia; discriminate.
  - rewrite utf8_start_bad by lia. cbn [fst snd pending_ok filter].
    unfold ascii. zsettle. auto.
Qed.

Lemma utf8_step_ascii (st : option pending) (b : Z) :
  pending_ok st -> byte_range b ->
  filter ascii (fst (utf8_step st b)) = filter ascii [b]
  /\ pending_ok (snd (utf8_step st b)).
Proof.
  intros I R. destruct st as [[cp more lo hi]|]; [|apply utf8_start_ascii, R].
  cbn [pending_ok pend_cp pend_more pend_lower pend_upper] in I.
  destruct I as [I1 [I2 [I3 [I4 I5]]]]. unfold byte_range in R.
  destruct (Z.leb_spec lo b) as [L|L]; [destruct (Z.leb_spec b hi) as [U|U]|].
  - destruct more as [|n].
    + rewrite utf8_step_last by lia. cbn [fst snd pending_ok filter].
      specialize (I5 eq_refl). unfold ascii. zsettle. auto.
    + rewrite utf8_step_more by lia. cbn [fst snd pending_ok filter].
      cbn [pend_cp pend_more pend_lower pend_upper]. unfold ascii. zsettle.
      repeat split; try lia.
  - unfold utf8_step. cbn [pend_cp pend_more pend_lower pend_upper]. zsettle.
    cbn [andb]. destruct (utf8_start_ascii b R) as [F P].
    destruct (utf8_start b) as [out st']. cbn [fst snd] in *.
    split; [|exact P]. cbn [filter]. unfold ascii at 1. zsettle. exact F.
  - unfold utf8_step. cbn [pend_cp pend_more pend_lower pend_upper]. zsettle.
    cbn [andb]. destruct (utf8_start_ascii b R) as [F P].
    destruct (utf8_start b) as [out st']. cbn [fst snd] in *.
    split; [|exact P]. cbn [filter]. unfold ascii at 1. zsettle. exact F.
Qed.

Lemma utf8_run_ascii (bs : list Z) :
  Forall byte_range bs ->
  forall st, pending_ok st -> filter ascii (utf8_run st bs) = filter ascii bs.
Proof.
  induction 1 as [|b bs R _ IH]; intros st I.
  - destruct st; reflexivity.
  - rewrite utf8_run_cons, filter_app.
    destruct (utf8_step_ascii st b I R) as [F P].
    rewrite F, (IH _ P). cbn [filter]. destruct (ascii b); reflexivity.
Qed.

Lemma utf16_of_scalars_ascii (cps : list Z) :
  filter ascii (flat_map utf16_of_scalar cps) = filter ascii cps.
Proof.
  induction cps as [|cp cps IH]; [reflexivity|].
  cbn [flat_map]. rewrite filter_app, IH. cbn [filter].
  unfold utf16_of_scalar.
  destruct (Z.ltb_spec cp 0x10000); cbn [filter].
  - destruct (ascii cp); reflexivity.
  - unfold ascii. zsettle. reflexivity.
Qed.

(** Three bytes that decode to the magic string are the bytes of the
    magic string. *)
Lemma TextDecoder_decode_magic (bs : bytes) :
  length bs = 3%nat -> TextDecoder_decode bs = MAGIC -> bs = TextEncoder_encode MAGIC.
Proof.
  intros L D. unfold TextDecoder_decode in D.
  destruct (starts_with_BOM bs).
  - destruct bs as [|a [|b [|c [|]]]]; discriminate.
  - apply (f_equal (filter ascii)) in D.
    rewrite utf16_of_scalars_ascii in D.
    rewrite utf8_run_ascii in D by (apply map_Z_of_byte_range || exact I).
    change (filter ascii MAGIC) with MAGIC in D.
    assert (filter ascii (map Z_of_byte bs) = map Z_of_byte bs) as E.
    { apply filter_all. rewrite D, length_map, L. reflexivity. }
    rewrite E in D.
    rewrite <- (map_byte_of_Z_of_byte bs), D. reflexivity.
Qed.

(** ** The header codec *)

(** Splits a list of known length into its elements. *)
Ltac explode l H :=
  repeat (destruct l as [|? l]; [discriminate H|];
          cbn [length] in H; apply eq_add_S in H);
  destruct l; [clear H|discriminate H].

Lemma le32_value (v : Z) : u32_at (le32 v) 0 = v mod 2 ^ 32.
Proof.
  unfold u32_at, le32. cbn [nth Nat.add]. rewrite !Z_of_byte_of_Z_mod.
  change (2 ^ 32) with 4294967296. lia.
Qed.

Lemma getUint32_u32_at (params : bytes) (offset : nat) :
  (offset + 4 <= length params)%nat -> getUint32 params offset = Ok (u32_at params offset).
Proof.
  intros L. unfold getUint32, u32_at.
  rewrite <- (firstn_skipn offset params) at 2 3 4 5.
  assert (length (firstn offset params) = offset) as Lf by (rewrite length_firstn; lia).
  pose proof (length_skipn offset params) as Ls.
  destruct (skipn offset params) as [|b0 [|b1 [|b2 [|b3 rest]]]]; cbn [length] in Ls; try lia.
  rewrite !app_nth2 by lia. rewrite Lf.
  replace (offset - offset)%nat with 0%nat by lia.
  replace (offset + 1 - offset)%nat with 1%nat by lia.
  replace (offset + 2 - offset)%nat with 2%nat by lia.
  replace (offset + 3 - offset)%nat with 3%nat by lia.
  reflexivity.
Qed.

Lemma deserializeKdfParams_total (i : KdfId) (params : bytes) :
  (12 <= length params)%nat ->
  deserializeKdfParams i params = Ok (config_of_params i params).
Proof.
  intros L. unfold deserializeKdfParams, config_of_params.
  destruct i; rewrite !getUint32_u32_at by lia; reflexivity.
Qed.

Lemma serializeKdfParams_eq (c : KdfConfig) :
  serializeKdfParams c
  = Ok (let '(a, b, d) := active_params c in le32 a ++ le32 b ++ le32 d).
Proof.
  unfold serializeKdfParams, active_params. destruct (kdf_id c); reflexivity.
Qed.

Lemma config_of_params_le32 (c : KdfConfig) :
  config_of_params (kdf_id c)
    (let '(a, b, d) := active_params c in le32 a ++ le32 b ++ le32 d)
  = recorded c.
Proof.
  unfold config_of_params, recorded, active_params.
  destruct (kdf_id c); f_equal;
    match goal with
    | |- u32_at (le32 ?a ++ _) 0 = _ => exact (le32_value a)
    | |- u32_at (_ ++ le32 ?b ++ _) 4 = _ => exact (le32_value b)
    | |- u32_at (_ ++ _ ++ le32 ?d) 8 = _ => exact (le32_value d)
    end.
Qed.

Lemma createHeader_eq (c : KdfConfig) (salt nonce : bytes) :
  length salt = 16%nat -> length nonce = 24%nat ->
  createHeader c salt nonce = Ok (header_bytes c salt nonce).
Proof.
  intros Ls Ln. explode salt Ls. explode nonce Ln.
  unfold createHeader, header_bytes. rewrite serializeKdfParams_eq.
  destruct (active_params c) as [[pa pb] pd]. reflexivity.
Qed.

Lemma header_bytes_length (c : KdfConfig) (salt nonce : bytes) :
  length salt = 16%nat -> length nonce = 24%nat ->
  length (header_bytes c salt nonce) = HEADER_SIZE.
Proof.
  intros Ls Ln. unfold header_bytes. destruct (active_params c) as [[pa pb] pd].
  rewrite !length_app, Ls, Ln. reflexivity.
Qed.

Lemma Uint8Array_set_ok (target source : bytes) (offset : nat) :
  (offset + length source <= length target)%nat ->
  Uint8Array_set target source offset
  = Ok (firstn offset target ++ source ++ skipn (offset + length source) target).
Proof.
  intros L. unfold Uint8Array_set.
  replace (offset + length source <=? length target)%nat with true
    by (symmetry; apply Nat.leb_le; exact L).
  reflexivity.
Qed.

Lemma createBlob_eq (header ciphertext : bytes) :
  createBlob header ciphertext = Ok (header ++ ciphertext).
Proof.
  unfold createBlob, Uint8Array_new.
  rewrite Uint8Array_set_ok by (rewrite repeat_length; lia).
  cbn [rbind firstn app Nat.add].
  rewrite Uint8Array_set_ok
    by (rewrite length_app, length_skipn, repeat_length; lia).
  cbn [rbind]. f_equal.
  rewrite firstn_app, firstn_all, Nat.sub_diag, firstn_O, app_nil_r.
  rewrite skipn_all2; [rewrite app_nil_r; reflexivity|].
  rewrite length_app, length_skipn, repeat_length. lia.
Qed.

Lemma magic_bytes : TextEncoder_encode MAGIC = [x53; x53; x31].
Proof. reflexivity. Qed.

Lemma decode_magic_bytes : TextDecoder_decode [x53; x53; x31] = MAGIC.
Proof. reflexivity. Qed.

Lemma KDF_NAMES_IDS (v : Z) (i : KdfId) : KDF_NAMES v = Some i <-> v = KDF_IDS i.
Proof.
  unfold KDF_NAMES.
  destruct (Z.eqb_spec v 1); [|destruct (Z.eqb_spec v 2)];
    destruct i; cbn [KDF_IDS]; split; intros E; try congruence; try lia.
Qed.

Lemma getUint8_nth (blob : bytes) (offset : nat) (v : Z) :
  getUint8 blob offset = Ok v <->
  exists b, nth_error blob offset = Some b /\ Z_of_byte b = v.
Proof.
  unfold getUint8. destruct (nth_error blob offset) as [b|]; split.
  - intros E. injection E as E. eauto.
  - intros [b' [E <-]]. congruence.
  - discriminate.
  - intros [b' [E _]]. discriminate.
Qed.

Lemma parseHeader_ok (blob : bytes) (i : KdfId) :
  (HEADER_SIZE <= length blob)%nat ->
  firstn 3 blob = TextEncoder_encode MAGIC ->
  nth_error blob 3 = Some (byte_of_Z VERSION) ->
  nth_error blob 4 = Some (byte_of_Z (KDF_IDS i)) ->
  parseHeader blob = Ok (parsed_header i blob, skipn HEADER_SIZE blob).
Proof.
  intros L M V K. unfold parseHeader.
  replace (length blob <? HEADER_SIZE)%nat with false
    by (symmetry; apply Nat.ltb_ge; exact L).
  cbn [Nat.add]. change (slice blob 0 3) with (firstn 3 blob).
  rewrite M, magic_bytes, decode_magic_bytes.
  replace (jsstring_eqb MAGIC MAGIC) with true by reflexivity. cbn [negb].
  unfold getUint8. rewrite V. cbn [rbind].
  change (Z_of_byte (byte_of_Z VERSION)) with VERSION.
  replace (VERSION =? VERSION) with true by reflexivity.
  cbn [negb]. rewrite K. cbn [rbind].
  rewrite Z_of_byte_of_Z by (destruct i; cbn; unfold byte_range; lia).
  replace (KDF_NAMES (KDF_IDS i)) with (Some i)
    by (symmetry; apply KDF_NAMES_IDS; reflexivity).
  rewrite deserializeKdfParams_total.
  - reflexivity.
  - unfold slice. rewrite length_firstn, length_skipn.
    unfold HEADER_SIZE in L. cbn in L. lia.
Qed.

Lemma parseHeader_inv (blob : bytes) (h : CryptoHeader) (c : bytes) :
  parseHeader blob = Ok (h, c) ->
  (HEADER_SIZE <= length blob)%nat
  /\ firstn 3 blob = TextEncoder_encode MAGIC
  /\ nth_error blob 3 = Some (byte_of_Z VERSION)
  /\ exists i, nth_error blob 4 = Some (byte_of_Z (KDF_IDS i))
              /\ h = parsed_header i blob /\ c = skipn HEADER_SIZE blob.
Proof.
  intros P.
  assert (HEADER_SIZE <= length blob)%nat as L.
  { unfold parseHeader in P.
    destruct (Nat.ltb_spec (length blob) HEADER_SIZE); [discriminate P|assumption]. }
  assert (firstn 3 blob = TextEncoder_encode MAGIC) as M.
  { unfold parseHeader in P.
    destruct (length blob <? HEADER_SIZE)%nat; [discriminate P|].
    cbn [Nat.add] in P. change (slice blob 0 3) with (firstn 3 blob) in P.
    destruct (jsstring_eqb (TextDecoder_decode (firstn 3 blob)) MAGIC) eqn:E;
      [|discriminate P].
    apply jsstring_eqb_eq in E. apply TextDecoder_decode_magic; [|exact E].
    rewrite length_firstn. unfold HEADER_SIZE in L. cbn in L. lia. }
  unfold parseHeader in P.
  replace (length blob <? HEADER_SIZE)%nat with false in P
    by (symmetry; apply Nat.ltb_ge; exact L).
  cbn [Nat.add] in P. change (slice blob 0 3) with (firstn 3 blob) in P.
  rewrite M, magic_bytes, decode_magic_bytes in P.
  replace (jsstring_eqb MAGIC MAGIC) with true in P by reflexivity. cbn [negb] in P.
  destruct (getUint8 blob 3) as [v|] eqn:V; [|discriminate P]. cbn [rbind] in P.
  destruct (Z.eqb_spec v VERSION) as [->|]; [|discriminate P]. cbn [negb] in P.
  destruct (getUint8 blob 4) as [k|] eqn:K; [|discriminate P]. cbn [rbind] in P.
  destruct (KDF_NAMES k) as [i|] eqn:N; [|discriminate P].
  apply KDF_NAMES_IDS in N. subst k.
  apply getUint8_nth in V. destruct V as [bv [V Ev]].
  apply getUint8_nth in K. destruct K as [bk [K Ek]].
  assert (bv = byte_of_Z VERSION) as -> by (rewrite <- Ev; symmetry; apply byte_of_Z_of_byte).
  assert (bk = byte_of_Z (KDF_IDS i)) as -> by (rewrite <- Ek; symmetry; apply byte_of_Z_of_byte).
  rewrite deserializeKdfParams_total in P.
  2:{ unfold slice. rewrite length_firstn, length_skipn.
      unfold HEADER_SIZE in L. cbn in L. lia. }
  cbn [rbind] in P. injection P as <- <-.
  repeat split; try assumption.
  exists i. split; [exact K|]. split; reflexivity.
Qed.

Lemma parseHeader_header_bytes (c : KdfConfig) (salt nonce ciphertext : bytes) :
  length salt = 16%nat -> length nonce = 24%nat ->
  parseHeader (header_bytes c salt nonce ++ ciphertext)
  = Ok ({| magic := MAGIC; version := VERSION; kdfId := kdf_id c;
           kdfConfig := recorded c; salt := salt; nonce := nonce |},
        ciphertext).
Proof.
  intros Ls Ln.
  rewrite (parseHeader_ok _ (kdf_id c)).
  - rewrite <- (config_of_params_le32 c).
    explode salt Ls. explode nonce Ln.
    unfold header_bytes, parsed_header.
    destruct (active_params c) as [[pa pb] pd]. reflexivity.
  - rewrite length_app, header_bytes_length by assumption. lia.
  - unfold header_bytes. destruct (active_params c) as [[pa pb] pd]. reflexivity.
  - unfold header_bytes. destruct (active_params c) as [[pa pb] pd]. reflexivity.
  - unfold header_bytes. destruct (active_params c) as [[pa pb] pd]. reflexivity.
Qed.

(** ** Key derivation *)

Section KeyDerivation.
Context {prim : Primitives}.

Lemma spread_as_partial (base c : KdfConfig) : spread base (Some (as_partial c)) = c.
Proof. destruct c. reflexivity. Qed.

(** With a scrypt configuration from a header, Argon2id is not
    consulted. *)
Lemma deriveKey_scrypt_header (argon2 : capability) (password : jsstring)
    (salt : bytes) (c : KdfConfig) :
  kdf_id c = Scrypt_id ->
  deriveKey argon2 password salt (Some (as_partial c))
  = match scrypt (TextEncoder_encode password) salt
                 (kdf_N c) (kdf_r c) (kdf_s_p c) (kdf_keyLen c) with
    | Some key => Ok (key, c)
    | None => Err KeyDerivationFailed
    end.
Proof.
  intros E. unfold deriveKey. rewrite spread_as_partial, E.
  cbn [KdfId_eqb orb cfg_id as_partial opt_id].
  unfold deriveKey_scrypt. cbn [cfg_id as_partial opt_id]. rewrite E.
  fold (as_partial c). rewrite spread_as_partial.
  unfold deriveKeyScrypt. destruct (scrypt _ _ _ _ _ _); reflexivity.
Qed.

(** With an Argon2id configuration from a header and Argon2id at hand,
    scrypt is not consulted. *)
Lemma deriveKey_argon2_header (argon2Lib : Argon2id) (password : jsstring)
    (salt key : bytes) (c : KdfConfig) :
  kdf_id c = Argon2id_id ->
  argon2Lib password salt (kdf_p c) (kdf_t c) (kdf_m c) (kdf_keyLen c) = Some key ->
  deriveKey (Some argon2Lib) password salt (Some (as_partial c)) = Ok (key, c).
Proof.
  intros E A. unfold deriveKey. rewrite spread_as_partial, E.
  cbn [KdfId_eqb orb deriveKeyArgon2id]. rewrite A. cbn [of_option].
  destruct c. cbn in E. subst. reflexivity.
Qed.

(** When Argon2id does not produce a key and the request does not name
    scrypt, the key is scrypt's under [MOBILE_SCRYPT]. *)
Lemma deriveKey_fallback (argon2 : capability) (password : jsstring)
    (salt : bytes) (cfg : option PartialKdfConfig) :
  cfg_id cfg <> Some Scrypt_id ->
  is_Ok (deriveKeyArgon2id argon2 password salt (spread DEFAULT_ARGON2ID cfg)) = false ->
  deriveKey argon2 password salt cfg
  = match scrypt (TextEncoder_encode password) salt 4096 8 1 32 with
    | Some key => Ok (key, MOBILE_SCRYPT)
    | None => Err KeyDerivationFailed
    end.
Proof.
  intros N F. unfold deriveKey.
  assert (deriveKey_scrypt password salt cfg
          = match scrypt (TextEncoder_encode password) salt 4096 8 1 32 with
            | Some key => Ok (key, MOBILE_SCRYPT)
            | None => Err KeyDerivationFailed
            end) as S.
  { unfold deriveKey_scrypt.
    destruct (cfg_id cfg) as [[|]|]; try congruence;
      unfold deriveKeyScrypt; cbn [MOBILE_SCRYPT kdf_N kdf_r kdf_s_p kdf_keyLen];
      change (Z.shiftl 1 12) with 4096;
      destruct (scrypt _ _ _ _ _ _); reflexivity. }
  destruct (deriveKeyArgon2id _ _ _ _); [discriminate F|].
  rewrite S. destruct (_ || _); reflexivity.
Qed.

(** What a derivation without a request resolves to, and that deriving
    again from the resolved configuration gives the same key. *)
Lemma deriveKey_default (argon2 : capability) (password : jsstring)
    (salt key : bytes) (config : KdfConfig) :
  deriveKey argon2 password salt None = Ok (key, config) ->
  (config = DEFAULT_ARGON2ID \/ config = MOBILE_SCRYPT)
  /\ deriveKey argon2 password salt (Some (as_partial config)) = Ok (key, config).
Proof.
  intros D.
  destruct (deriveKeyArgon2id argon2 password salt (spread DEFAULT_ARGON2ID None))
    as [k|e] eqn:A.
  - unfold deriveKey in D. cbn [spread DEFAULT_ARGON2ID kdf_id KdfId_eqb orb] in D.
    cbn [spread] in A. fold DEFAULT_ARGON2ID in D. rewrite A in D.
    injection D as <- <-.
    split; [left; reflexivity|].
    destruct argon2 as [f|]; [|discriminate A].
    cbn [deriveKeyArgon2id] in A.
    destruct (f password salt _ _ _ _) eqn:F; [|discriminate A].
    injection A as <-.
    apply deriveKey_argon2_header; [reflexivity | exact F].
  - rewrite deriveKey_fallback in D.
    + destruct (scrypt _ _ _ _ _ _) as [k|] eqn:S; [|discriminate D].
      injection D as <- <-. split; [right; reflexivity|].
      rewrite deriveKey_scrypt_header by reflexivity.
      cbn [MOBILE_SCRYPT kdf_N kdf_r kdf_s_p kdf_keyLen].
      change (Z.shiftl 1 12) with 4096. rewrite S. reflexivity.
    + discriminate.
    + rewrite A. reflexivity.
Qed.

Lemma deriveKey_default_length (argon2 : capability) (password : jsstring)
    (salt key : bytes) (config : KdfConfig) :
  PrimitiveLaws prim -> Argon2Law argon2 ->
  deriveKey argon2 password salt None = Ok (key, config) ->
  length key = 32%nat.
Proof.
  intros laws AL D.
  destruct (deriveKeyArgon2id argon2 password salt (spread DEFAULT_ARGON2ID None))
    as [k|e] eqn:A.
  - unfold deriveKey in D. cbn [spread DEFAULT_ARGON2ID kdf_id KdfId_eqb orb] in D.
    cbn [spread] in A. fold DEFAULT_ARGON2ID in D. rewrite A in D.
    injection D as <- _.
    destruct argon2 as [f|]; [|discriminate A].
    cbn [deriveKeyArgon2id] in A.
    destruct (f password salt _ _ _ _) eqn:F; [|discriminate A].
    injection A as <-. apply AL in F. cbn in F. lia.
  - rewrite deriveKey_fallback in D.
    + destruct (scrypt _ _ _ _ _ _) as [k|] eqn:S; [|discriminate D].
      injection D as <- _. apply (scrypt_length laws) in S. lia.
    + discriminate.
    + rewrite A. reflexivity.
Qed.

Lemma deriveKey_default_ok (argon2 : capability) (password : jsstring) (salt : bytes) :
  PrimitiveLaws prim ->
  exists key config, deriveKey argon2 password salt None = Ok (key, config).
Proof.
  intros laws.
  destruct (deriveKeyArgon2id argon2 password salt (spread DEFAULT_ARGON2ID None))
    as [k|e] eqn:A.
  - unfold deriveKey. cbn [spread DEFAULT_ARGON2ID kdf_id KdfId_eqb orb].
    cbn [spread] in A. fold DEFAULT_ARGON2ID. rewrite A. eauto.
  - rewrite deriveKey_fallback.
    + destruct (scrypt _ _ _ _ _ _) as [k|] eqn:S; [eauto|].
      exfalso. revert S. apply (scrypt_mobile laws).
    + discriminate.
    + rewrite A. reflexivity.
Qed.

End KeyDerivation.

Lemma Uint8Array_set_app (pre tail source : bytes) :
  (length source <= length tail)%nat ->
  Uint8Array_set (pre ++ tail) source (length pre)
  = Ok (pre ++ source ++ skipn (length source) tail).
Proof.
  intros L. rewrite Uint8Array_set_ok by (rewrite length_app; lia).
  f_equal.
  rewrite firstn_app, firstn_all, Nat.sub_diag, firstn_O, app_nil_r.
  rewrite skipn_app, skipn_all2 by lia.
  replace (length pre + length source - length pre)%nat with (length source) by lia.
  reflexivity.
Qed.

(** The three [set] calls of the legacy packing. *)
Lemma pack_three (a b c : bytes) :
  rbind (Uint8Array_set (Uint8Array_new (length a + length b + length c)) a 0)
    (fun packed => rbind (Uint8Array_set packed b (length a))
    (fun packed => Uint8Array_set packed c (length a + length b)))
  = Ok (a ++ b ++ c).
Proof.
  unfold Uint8Array_new.
  change (Uint8Array_set (repeat x00 (length a + length b + length c)) a 0)
    with (Uint8Array_set ([] ++ repeat x00 (length a + length b + length c)) a
            (length (@nil byte))).
  rewrite (Uint8Array_set_app [] _ a) by (rewrite repeat_length; lia).
  cbn [rbind app].
  rewrite (Uint8Array_set_app a _ b) by (rewrite length_skipn, repeat_length; lia).
  cbn [rbind].
  replace (a ++ b ++ skipn (length b) (skipn (length a)
             (repeat x00 (length a + length b + length c))))
    with ((a ++ b) ++ skipn (length b) (skipn (length a)
             (repeat x00 (length a + length b + length c))))
    by (rewrite <- app_assoc; reflexivity).
  replace (length a + length b)%nat with (length (a ++ b)) by apply length_app.
  rewrite Uint8Array_set_app
    by (rewrite !length_skipn, repeat_length, length_app; lia).
  rewrite skipn_all2 by (rewrite !length_skipn, repeat_length, length_app; lia).
  rewrite app_nil_r, <- app_assoc. reflexivity.
Qed.

(** ** The envelope cipher *)

Section Envelope.
Context {prim : Primitives}.

Lemma drawn_salt_length (tp : tape) : length (drawn_salt tp) = 16%nat.
Proof. unfold drawn_salt. rewrite length_map, length_seq. reflexivity. Qed.

Lemma drawn_nonce_length (tp : tape) : length (drawn_nonce tp) = 24%nat.
Proof. unfold drawn_nonce. rewrite length_map, length_seq. reflexivity. Qed.

Lemma checkLengths_ok (key nonce : bytes) :
  length key = 32%nat -> length nonce = 24%nat -> checkLengths key nonce = Ok tt.
Proof. intros Lk Ln. unfold checkLengths. rewrite Lk, Ln. reflexivity. Qed.

(** Encryption, step by step: the salt and nonce come off the tape, the
    key comes from [deriveKey], and the result is the base64 text of the
    envelope. *)
Lemma encryptV2_eq (argon2 : capability) (plaintext password : jsstring)
    (cfg : option PartialKdfConfig) (tp : tape) :
  encryptV2 argon2 plaintext password cfg tp
  = match deriveKey argon2 password (drawn_salt tp) cfg with
    | Err e => Err e
    | Ok (key, config) =>
        match checkLengths key (drawn_nonce tp) with
        | Err e => Err e
        | Ok _ =>
            Ok (blobToBase64 (envelope config (drawn_salt tp) (drawn_nonce tp) key
                                       (TextEncoder_encode plaintext)),
                tape_after tp)
        end
    end.
Proof.
  unfold encryptV2, mbind, getRandomBytesAsync, lift.
  fold (drawn_salt tp). fold (drawn_nonce tp).
  destruct (deriveKey argon2 password (drawn_salt tp) cfg) as [[key config]|e];
    [|reflexivity].
  unfold nacl_secretbox.
  destruct (checkLengths key (drawn_nonce tp)) as [[]|e]; [|reflexivity].
  cbn [rbind].
  rewrite createHeader_eq by (apply drawn_salt_length || apply drawn_nonce_length).
  rewrite createBlob_eq. reflexivity.
Qed.

(** Decryption of an envelope whose key can be derived again from the
    recorded configuration. *)
Lemma decryptV2_envelope (argon2 : capability) (password : jsstring)
    (config config' : KdfConfig) (salt0 nonce0 key msg : bytes) :
  PrimitiveLaws prim ->
  length salt0 = 16%nat -> length nonce0 = 24%nat -> length key = 32%nat ->
  deriveKey argon2 password salt0 (Some (as_partial (recorded config)))
  = Ok (key, config') ->
  decryptV2 argon2 (blobToBase64 (envelope config salt0 nonce0 key msg)) password
  = Ok (TextDecoder_decode msg).
Proof.
  intros laws Ls Ln Lk D. unfold decryptV2, base64ToBlob, blobToBase64.
  rewrite fromBase64_toBase64. unfold envelope.
  rewrite parseHeader_header_bytes by assumption.
  cbn [rbind salt nonce kdfConfig]. rewrite D. cbn [rbind].
  unfold nacl_secretbox_open. rewrite checkLengths_ok by assumption. cbn [rbind].
  rewrite (secretbox_length laws) by assumption.
  replace (length msg + 16 <? 16)%nat with false by (symmetry; apply Nat.ltb_ge; lia).
  rewrite (secretbox_open_box laws) by assumption. reflexivity.
Qed.

(** What encryption without a KDF request produces, and that decryption
    in the same environment opens it. *)
Lemma encryptV2_default (argon2 : capability) (plaintext password : jsstring)
    (tp : tape) :
  PrimitiveLaws prim -> Argon2Law argon2 ->
  exists key config,
    deriveKey argon2 password (drawn_salt tp) None = Ok (key, config)
    /\ length key = 32%nat
    /\ encryptV2 argon2 plaintext password None tp
       = Ok (blobToBase64 (envelope config (drawn_salt tp) (drawn_nonce tp) key
                                    (TextEncoder_encode plaintext)),
             tape_after tp)
    /\ decryptV2 argon2
         (blobToBase64 (envelope config (drawn_salt tp) (drawn_nonce tp) key
                                 (TextEncoder_encode plaintext)))
         password
       = Ok (TextDecoder_decode (TextEncoder_encode plaintext)).
Proof.
  intros laws AL.
  destruct (deriveKey_default_ok argon2 password (drawn_salt tp) laws)
    as [key [config D]].
  pose proof (deriveKey_default_length _ _ _ _ _ laws AL D) as Lk.
  exists key, config. split; [exact D|]. split; [exact Lk|]. split.
  - rewrite encryptV2_eq, D, checkLengths_ok
      by (assumption || apply drawn_nonce_length).
    reflexivity.
  - destruct (deriveKey_default _ _ _ _ _ D) as [C R].
    apply decryptV2_envelope with (config' := config); try assumption.
    + apply drawn_salt_length.
    + apply drawn_nonce_length.
    + replace (recorded config) with config; [exact R|].
      destruct C as [-> | ->]; reflexivity.
Qed.

Lemma checkLengths_inv (key nonce0 : bytes) (u : unit) :
  checkLengths key nonce0 = Ok u -> length key = 32%nat /\ length nonce0 = 24%nat.
Proof.
  unfold checkLengths.
  destruct (Nat.eqb_spec (length key) 32); [|discriminate].
  destruct (Nat.eqb_spec (length nonce0) 24); [|discriminate]. auto.
Qed.

Lemma envelope_length (config : KdfConfig) (salt0 nonce0 key msg : bytes) :
  PrimitiveLaws prim ->
  length salt0 = 16%nat -> length nonce0 = 24%nat -> length key = 32%nat ->
  length (envelope config salt0 nonce0 key msg) = (57 + length msg + 16)%nat.
Proof.
  intros laws Ls Ln Lk. unfold envelope.
  rewrite length_app, header_bytes_length, (secretbox_length laws) by assumption.
  unfold HEADER_SIZE. cbn. lia.
Qed.

Lemma encryptToBase64Legacy_eq (plaintext password : jsstring) (tp : tape) :
  encryptToBase64Legacy plaintext password tp
  = match deriveKeyLegacy password (drawn_salt tp) with
    | Err e => Err e
    | Ok key =>
        match checkLengths key (drawn_nonce tp) with
        | Err e => Err e
        | Ok _ =>
            Ok (toBase64 (legacy_envelope (drawn_salt tp) (drawn_nonce tp) key
                                          (TextEncoder_encode plaintext)),
                tape_after tp)
        end
    end.
Proof.
  unfold encryptToBase64Legacy, mbind, getRandomBytesAsync, lift.
  fold (drawn_salt tp). fold (drawn_nonce tp).
  destruct (deriveKeyLegacy password (drawn_salt tp)) as [key|e]; [|reflexivity].
  unfold nacl_secretbox.
  destruct (checkLengths key (drawn_nonce tp)) as [[]|e]; [|reflexivity].
  cbn [rbind].
  pose proof (pack_three (drawn_salt tp) (drawn_nonce tp)
                (crypto_secretbox (TextEncoder_encode plaintext) (drawn_nonce tp) key))
    as P.
  unfold rbind in P.
  destruct (Uint8Array_set _ (drawn_salt tp) 0) as [p1|]; [|discriminate P].
  destruct (Uint8Array_set p1 (drawn_nonce tp) _) as [p2|]; [|discriminate P].
  rewrite P. reflexivity.
Qed.

(** Every failure of [deriveKey] is 'Key derivation failed'. *)
Lemma deriveKey_error (argon2 : capability) (password : jsstring) (salt0 : bytes)
    (cfg : option PartialKdfConfig) (e : error) :
  deriveKey argon2 password salt0 cfg = Err e -> e = KeyDerivationFailed.
Proof.
  assert (forall e, deriveKey_scrypt password salt0 cfg = Err e -> e = KeyDerivationFailed)
    as S.
  { intros e'. unfold deriveKey_scrypt. destruct (deriveKeyScrypt _ _ _); congruence. }
  unfold deriveKey.
  destruct (_ || _); [destruct (deriveKeyArgon2id _ _ _ _); [discriminate|]|]; apply S.
Qed.

(** A key derived from a header configuration has 32 bytes. *)
Lemma deriveKey_header_length (argon2 : capability) (password : jsstring)
    (salt0 key : bytes) (c c' : KdfConfig) :
  PrimitiveLaws prim -> Argon2Law argon2 -> kdf_keyLen c = 32 ->
  deriveKey argon2 password salt0 (Some (as_partial c)) = Ok (key, c') ->
  length key = 32%nat.
Proof.
  intros laws AL K D. destruct (kdf_id c) eqn:I.
  - destruct (deriveKeyArgon2id argon2 password salt0
                (spread DEFAULT_ARGON2ID (Some (as_partial c)))) as [k|e] eqn:A.
    + unfold deriveKey in D. rewrite A in D.
      rewrite spread_as_partial, I in D. cbn [KdfId_eqb orb] in D.
      injection D as <- _. rewrite spread_as_partial in A.
      destruct argon2 as [f|]; [|discriminate A].
      cbn [deriveKeyArgon2id] in A.
      destruct (f password salt0 _ _ _ _) eqn:F; [|discriminate A].
      injection A as <-. apply AL in F. lia.
    + rewrite deriveKey_fallback in D.
      * destruct (scrypt _ _ _ _ _ _) as [k|] eqn:S; [|discriminate D].
        injection D as <- _. apply (scrypt_length laws) in S. lia.
      * cbn [cfg_id as_partial opt_id]. rewrite I. discriminate.
      * rewrite A. reflexivity.
  - rewrite deriveKey_scrypt_header in D by exact I.
    destruct (scrypt _ _ _ _ _ _) as [k|] eqn:S; [|discriminate D].
    injection D as <- _. apply (scrypt_length laws) in S. lia.
Qed.

End Envelope.

(** ** The reference primitives meet the laws *)

Lemma ref_tag_length (key : bytes) : length (Reference.ref_tag key) = 16%nat.
Proof.
  unfold Reference.ref_tag. rewrite length_firstn, length_app, repeat_length. lia.
Qed.

Lemma ref_laws : PrimitiveLaws Reference.ref_primitives.
Proof.
  constructor; cbn [scrypt crypto_secretbox crypto_secretbox_open Reference.ref_primitives].
  - intros pw salt0 n r p dkLen key. unfold Reference.ref_scrypt.
    destruct (_ && _) eqn:C; [|discriminate].
    apply andb_true_iff in C. destruct C as [_ C]. apply Z.leb_le in C.
    intros E. injection E as <-. rewrite length_map, length_seq. lia.
  - intros pw salt0. unfold Reference.ref_scrypt.
    replace ((1 <? 4096) && (Z.land 4096 (4096 - 1) =? 0) && (0 <=? 32)) with true
      by reflexivity.
    discriminate.
  - intros msg nonce0 key _ _. unfold Reference.ref_secretbox.
    rewrite length_app, ref_tag_length. lia.
  - intros msg nonce0 key _ _.
    unfold Reference.ref_secretbox_open, Reference.ref_secretbox.
    rewrite firstn_app, ref_tag_length, Nat.sub_diag, firstn_O, app_nil_r.
    rewrite firstn_all2 by (rewrite ref_tag_length; lia).
    replace (bytes_eqb (Reference.ref_tag key) (Reference.ref_tag key)) with true
      by (symmetry; apply bytes_eqb_eq; reflexivity).
    rewrite skipn_app, ref_tag_length, Nat.sub_diag, skipn_O.
    rewrite skipn_all2 by (rewrite ref_tag_length; lia).
    reflexivity.
Qed.

Lemma ref_argon2_law : Argon2Law (Some Reference.ref_argon2id).
Proof.
  cbn [Argon2Law]. intros pw salt0 par it mem len key. unfold Reference.ref_argon2id.
  destruct (_ && _) eqn:C; [|discriminate].
  apply andb_true_iff in C. destruct C as [_ C]. apply Z.leb_le in C.
  intros E. injection E as <-. rewrite length_map, length_seq. lia.
Qed.

Lemma no_argon2_law : Argon2Law None.
Proof. exact I. Qed.

(* ================================================================== *)
(** * The claims *)
(* ================================================================== *)

Lemma header_exact_recorded (c : KdfConfig) : header_exact c -> recorded c = c.
Proof.
  unfold header_exact, recorded, uint32. destruct c as [i m t p n r sp k].
  cbn [kdf_id kdf_m kdf_t kdf_p kdf_N kdf_r kdf_s_p kdf_keyLen].
  destruct i; intros [-> [Ra [Rb [Rc [-> [-> ->]]]]]];
    rewrite !Z.mod_small by assumption; reflexivity.
Qed.

(** The header of every configuration parses back to what [recorded]
    keeps of it. *)
Lemma parse_create (c : KdfConfig) (salt0 nonce0 : bytes) :
  length salt0 = 16%nat -> length nonce0 = 24%nat ->
  exists header,
    createHeader c salt0 nonce0 = Ok header
    /\ length header = 57%nat
    /\ parseHeader header
       = Ok ({| magic := MAGIC; version := VERSION; kdfId := kdf_id c;
                kdfConfig := recorded c; salt := salt0; nonce := nonce0 |}, []).
Proof.
  intros Ls Ln. exists (header_bytes c salt0 nonce0).
  split; [apply createHeader_eq; assumption|].
  split; [apply header_bytes_length; assumption|].
  rewrite <- (app_nil_r (header_bytes c salt0 nonce0)).
  apply parseHeader_header_bytes; assumption.
Qed.

Lemma deserialize_serialize (c : KdfConfig) :
  rbind (serializeKdfParams c) (deserializeKdfParams (kdf_id c)) = Ok (recorded c).
Proof.
  rewrite serializeKdfParams_eq. cbn [rbind].
  rewrite deserializeKdfParams_total.
  - rewrite config_of_params_le32. reflexivity.
  - destruct (active_params c) as [[pa pb] pd]. cbn. lia.
Qed.

(** C3, as amended: for every configuration whose key length is 32,
    whose active numbers fit 32 bits and whose inactive numbers are zero,
    every 16-byte salt and every 24-byte nonce, [createHeader] gives a
    57-byte header that [parseHeader] reads back as exactly that
    configuration, salt and nonce, with no ciphertext left; on such a
    configuration the parameter deserializer undoes the serializer. *)
Theorem C3_header_round_trip (c : KdfConfig) (salt0 nonce0 : bytes) :
  header_exact c -> length salt0 = 16%nat -> length nonce0 = 24%nat ->
  (exists header,
      createHeader c salt0 nonce0 = Ok header
      /\ length header = 57%nat
      /\ parseHeader header
         = Ok ({| magic := MAGIC; version := VERSION; kdfId := kdf_id c;
                  kdfConfig := c; salt := salt0; nonce := nonce0 |}, []))
  /\ rbind (serializeKdfParams c) (deserializeKdfParams (kdf_id c)) = Ok c.
Proof.
  intros E Ls Ln. split.
  - destruct (parse_create c salt0 nonce0 Ls Ln) as [header [C [L P]]].
    exists header. rewrite (header_exact_recorded c E) in P. auto.
  - rewrite deserialize_serialize, (header_exact_recorded c E). reflexivity.
Qed.

Lemma C3_header_round_trip_witness :
  (exists header,
      createHeader DEFAULT_ARGON2ID (zeros 16) (zeros 24) = Ok header
      /\ length header = 57%nat
      /\ parseHeader header
         = Ok ({| magic := MAGIC; version := VERSION; kdfId := Argon2id_id;
                  kdfConfig := DEFAULT_ARGON2ID; salt := zeros 16;
                  nonce := zeros 24 |}, []))
  /\ rbind (serializeKdfParams DEFAULT_ARGON2ID) (deserializeKdfParams Argon2id_id)
     = Ok DEFAULT_ARGON2ID.
Proof.
  apply (C3_header_round_trip DEFAULT_ARGON2ID (zeros 16) (zeros 24)).
  - unfold header_exact, uint32. cbn. lia.
  - reflexivity.
  - reflexivity.
Defined.

(** C3 as stated fails: a scrypt configuration with key length 64 and
    nothing else unusual comes back from its own header with key
    length 32, and the deserializer does not undo the serializer on it. *)
Lemma C3_counterexample :
  exists header h,
    createHeader (with_keyLen DEFAULT_SCRYPT 64) (zeros 16) (zeros 24) = Ok header
    /\ parseHeader header = Ok (h, [])
    /\ kdf_keyLen (kdfConfig h) = 32
    /\ kdfConfig h <> with_keyLen DEFAULT_SCRYPT 64
    /\ rbind (serializeKdfParams (with_keyLen DEFAULT_SCRYPT 64))
             (deserializeKdfParams Scrypt_id)
       = Ok DEFAULT_SCRYPT.
Proof.
  eexists _, _. split; [reflexivity|]. split; [reflexivity|].
  split; [reflexivity|]. split; [discriminate | reflexivity].
Qed.

(** *** Rejections of [parseHeader], check by check *)

Lemma parseHeader_too_short (blob : bytes) :
  (length blob < 57)%nat -> parseHeader blob = Err BlobTooShort.
Proof.
  intros L. unfold parseHeader.
  replace (length blob <? HEADER_SIZE)%nat with true
    by (symmetry; apply Nat.ltb_lt; exact L).
  reflexivity.
Qed.

Lemma parseHeader_bad_magic (blob : bytes) :
  (57 <= length blob)%nat -> firstn 3 blob <> TextEncoder_encode MAGIC ->
  parseHeader blob = Err (InvalidMagic (TextDecoder_decode (firstn 3 blob))).
Proof.
  intros L M. unfold parseHeader.
  replace (length blob <? HEADER_SIZE)%nat with false
    by (symmetry; apply Nat.ltb_ge; exact L).
  cbn [Nat.add]. change (slice blob 0 3) with (firstn 3 blob).
  destruct (jsstring_eqb (TextDecoder_decode (firstn 3 blob)) MAGIC) eqn:E;
    [|reflexivity].
  exfalso. apply M. apply jsstring_eqb_eq in E.
  apply TextDecoder_decode_magic; [|exact E]. rewrite length_firstn. lia.
Qed.

Lemma parseHeader_bad_version (blob : bytes) (b : byte) :
  (57 <= length blob)%nat -> firstn 3 blob = TextEncoder_encode MAGIC ->
  nth_error blob 3 = Some b -> b <> x01 ->
  parseHeader blob = Err (UnsupportedVersion (Z_of_byte b)).
Proof.
  intros L M V N. unfold parseHeader.
  replace (length blob <? HEADER_SIZE)%nat with false
    by (symmetry; apply Nat.ltb_ge; exact L).
  cbn [Nat.add]. change (slice blob 0 3) with (firstn 3 blob).
  rewrite M, magic_bytes, decode_magic_bytes.
  replace (jsstring_eqb MAGIC MAGIC) with true by reflexivity. cbn [negb].
  unfold getUint8. rewrite V. cbn [rbind].
  destruct (Z.eqb_spec (Z_of_byte b) VERSION) as [E|_]; [|reflexivity].
  exfalso. apply N. apply Z_of_byte_inj. exact E.
Qed.

Lemma parseHeader_bad_kdf (blob : bytes) (b : byte) :
  (57 <= length blob)%nat -> firstn 3 blob = TextEncoder_encode MAGIC ->
  nth_error blob 3 = Some x01 ->
  nth_error blob 4 = Some b -> b <> x01 -> b <> x02 ->
  parseHeader blob = Err (UnknownKdfIdByte (Z_of_byte b)).
Proof.
  intros L M V K N1 N2. unfold parseHeader.
  replace (length blob <? HEADER_SIZE)%nat with false
    by (symmetry; apply Nat.ltb_ge; exact L).
  cbn [Nat.add]. change (slice blob 0 3) with (firstn 3 blob).
  rewrite M, magic_bytes, decode_magic_bytes.
  replace (jsstring_eqb MAGIC MAGIC) with true by reflexivity. cbn [negb].
  unfold getUint8. rewrite V. cbn [rbind].
  change (Z_of_byte x01 =? VERSION) with true. cbn [negb].
  rewrite K. cbn [rbind].
  destruct (KDF_NAMES (Z_of_byte b)) as [i|] eqn:E; [|reflexivity].
  exfalso. apply KDF_NAMES_IDS in E.
  destruct i; [apply N1 | apply N2]; apply Z_of_byte_inj; exact E.
Qed.

(** C5: [parseHeader] fails on a blob shorter than 57 bytes, on a blob
    whose first three bytes are not "SS1", on a blob whose version byte
    is not 1 and on a blob whose KDF id byte is neither 1 nor 2; when it
    succeeds the ciphertext is everything after the 57th byte; and a
    header followed by a ciphertext of any length, the empty one
    included, parses to that header and that ciphertext. *)
Theorem C5_parseHeader (blob : bytes) :
  ((length blob < 57)%nat -> parseHeader blob = Err BlobTooShort)
  /\ (firstn 3 blob <> [x53; x53; x31] -> is_Err (parseHeader blob) = true)
  /\ (nth_error blob 3 <> Some x01 -> is_Err (parseHeader blob) = true)
  /\ (nth_error blob 4 <> Some x01 -> nth_error blob 4 <> Some x02 ->
      is_Err (parseHeader blob) = true)
  /\ (forall h c, parseHeader blob = Ok (h, c) ->
                  c = skipn 57 blob /\ blob = firstn 57 blob ++ c)
  /\ (forall cfg salt0 nonce0 ciphertext,
         length salt0 = 16%nat -> length nonce0 = 24%nat ->
         parseHeader (header_bytes cfg salt0 nonce0 ++ ciphertext)
         = Ok ({| magic := MAGIC; version := VERSION; kdfId := kdf_id cfg;
                  kdfConfig := recorded cfg; salt := salt0; nonce := nonce0 |},
               ciphertext)).
Proof.
  assert (forall P : Prop,
             (forall h c, parseHeader blob = Ok (h, c) -> P -> False) ->
             P -> is_Err (parseHeader blob) = true) as rejects.
  { intros P H p. destruct (parseHeader blob) as [[h c]|e] eqn:E; [|reflexivity].
    exfalso. exact (H h c eq_refl p). }
  split; [apply parseHeader_too_short|].
  split; [|split; [|split; [|split]]].
  - apply rejects. intros h c E N.
    apply parseHeader_inv in E. destruct E as [_ [M _]]. apply N. exact M.
  - apply rejects. intros h c E N.
    apply parseHeader_inv in E. destruct E as [_ [_ [V _]]]. apply N. exact V.
  - intros N1. apply rejects. intros h c E N2.
    apply parseHeader_inv in E. destruct E as [_ [_ [_ [i [K _]]]]].
    destruct i; [apply N1 | apply N2]; exact K.
  - intros h c E. apply parseHeader_inv in E.
    destruct E as [_ [_ [_ [i [_ [_ ->]]]]]].
    split; [reflexivity|]. symmetry. apply firstn_skipn.
  - intros cfg salt0 nonce0 ciphertext. apply parseHeader_header_bytes.
Qed.

Lemma C5_parseHeader_witness :
  parseHeader (zeros 56) = Err BlobTooShort
  /\ is_Err (parseHeader (zeros 57)) = true
  /\ is_Err (parseHeader ([x53; x53; x31; x02] ++ zeros 53)) = true
  /\ is_Err (parseHeader ([x53; x53; x31; x01; x03] ++ zeros 52)) = true
  /\ parseHeader (bare_header ++ [])
     = Ok ({| magic := MAGIC; version := VERSION; kdfId := Scrypt_id;
              kdfConfig := recorded MOBILE_SCRYPT; salt := zeros 16;
              nonce := zeros 24 |}, []).
Proof.
  split; [|split; [|split; [|split]]].
  - apply (proj1 (C5_parseHeader (zeros 56))). cbn. lia.
  - apply (proj1 (proj2 (C5_parseHeader (zeros 57)))). discriminate.
  - apply (proj1 (proj2 (proj2 (C5_parseHeader ([x53; x53; x31; x02] ++ zeros 53))))).
    discriminate.
  - apply (proj1 (proj2 (proj2 (proj2
             (C5_parseHeader ([x53; x53; x31; x01; x03] ++ zeros 52))))));
      discriminate.
  - apply (proj2 (proj2 (proj2 (proj2 (proj2 (C5_parseHeader [])))))); reflexivity.
Defined.

(** C9: whatever blob it is read from, the configuration in a parsed
    header has key length 32, the id of the header's KDF byte, and
    zeros in the fields of the other KDF; and the header that
    [createHeader] writes does not depend on the key length of the
    configuration it is given. *)
Theorem C9_decoded_config (blob : bytes) (h : CryptoHeader) (c : bytes) :
  parseHeader blob = Ok (h, c) ->
  kdf_keyLen (kdfConfig h) = 32
  /\ kdf_id (kdfConfig h) = kdfId h
  /\ match kdfId h with
     | Argon2id_id =>
         kdf_N (kdfConfig h) = 0 /\ kdf_r (kdfConfig h) = 0 /\ kdf_s_p (kdfConfig h) = 0
     | Scrypt_id =>
         kdf_m (kdfConfig h) = 0 /\ kdf_t (kdfConfig h) = 0 /\ kdf_p (kdfConfig h) = 0
     end
  /\ (forall cfg k salt0 nonce0,
         serializeKdfParams (with_keyLen cfg k) = serializeKdfParams cfg
         /\ createHeader (with_keyLen cfg k) salt0 nonce0 = createHeader cfg salt0 nonce0).
Proof.
  intros P. apply parseHeader_inv in P.
  destruct P as [_ [_ [_ [i [_ [-> _]]]]]].
  cbn [parsed_header kdfConfig kdfId].
  split; [destruct i; reflexivity|].
  split; [destruct i; reflexivity|].
  split; [destruct i; cbn; auto|].
  intros cfg k salt0 nonce0. split; reflexivity.
Qed.

Lemma C9_decoded_config_witness :
  exists h,
    parseHeader bare_header = Ok (h, [])
    /\ kdf_keyLen (kdfConfig h) = 32
    /\ kdf_m (kdfConfig h) = 0 /\ kdf_t (kdfConfig h) = 0 /\ kdf_p (kdfConfig h) = 0.
Proof.
  eexists. split; [reflexivity|].
  destruct (C9_decoded_config bare_header _ [] eq_refl) as [K [_ [Z _]]].
  split; [exact K | exact Z].
Defined.

(** C6: [decryptAuto] returns what the versioned decrypt returns when
    that succeeds; when the versioned decrypt fails, with whatever
    error, it returns what the legacy decrypt returns when that
    succeeds; and every failure of [decryptAuto] is the same error,
    raised exactly when both decrypts failed. *)
Theorem C6_decryptAuto {prim : Primitives} (argon2 : capability)
    (b64 password : jsstring) :
  (forall plaintext,
      decryptV2 argon2 b64 password = Ok plaintext ->
      decryptAuto argon2 b64 password = Ok plaintext)
  /\ (forall e plaintext,
         decryptV2 argon2 b64 password = Err e ->
         decryptFromBase64 b64 password = Ok plaintext ->
         decryptAuto argon2 b64 password = Ok plaintext)
  /\ (forall e e',
         decryptV2 argon2 b64 password = Err e ->
         decryptFromBase64 b64 password = Err e' ->
         decryptAuto argon2 b64 password = Err DecryptionFailedUnified)
  /\ (forall e,
         decryptAuto argon2 b64 password = Err e ->
         e = DecryptionFailedUnified
         /\ is_Err (decryptV2 argon2 b64 password) = true
         /\ is_Err (decryptFromBase64 b64 password) = true).
Proof.
  unfold decryptAuto. repeat split.
  - intros plaintext ->. reflexivity.
  - intros e plaintext -> ->. reflexivity.
  - intros e e' -> ->. reflexivity.
  - destruct (decryptV2 argon2 b64 password); [discriminate|].
    destruct (decryptFromBase64 b64 password); [discriminate|]. congruence.
  - destruct (decryptV2 argon2 b64 password); [discriminate|reflexivity].
  - destruct (decryptV2 argon2 b64 password); [discriminate|].
    destruct (decryptFromBase64 b64 password); [discriminate|reflexivity].
Qed.

(** The empty input is no blob of either format, and a versioned blob
    under a wrong password is rejected by the tag check of the
    versioned path and by the tag check of the legacy path: both end
    in the one error. *)
Lemma C6_decryptAuto_witness :
  decryptAuto (prim := Reference.ref_primitives) None [] Tr0ub4dor_3
  = Err DecryptionFailedUnified
  /\ decryptAuto (prim := Reference.ref_primitives) None
       (blobToBase64
          (envelope (prim := Reference.ref_primitives)
                    MOBILE_SCRYPT (zeros 16) (zeros 24) (zeros 32)
                    (TextEncoder_encode hello_world)))
       Tr0ub4dor_3
     = Err DecryptionFailedUnified.
Proof.
  split.
  - apply (proj1 (proj2 (proj2
             (C6_decryptAuto (prim := Reference.ref_primitives) None [] Tr0ub4dor_3)))
             BlobTooShort LegacyTooShort); reflexivity.
  - apply (proj1 (proj2 (proj2
             (C6_decryptAuto (prim := Reference.ref_primitives) None _ Tr0ub4dor_3)))
             DecryptionFailedV2 LegacyIncorrect); vm_compute; reflexivity.
Defined.




(** C8: under every password, encrypting 'hello world', whose UTF-8
    form has 11 bytes, succeeds with a blob of 57 + 11 + 16 = 84 bytes,
    and the base64 text returned has 112 characters. *)
Theorem C8_hello_world {prim : Primitives} (argon2 : capability)
    (password : jsstring) (tp : tape) :
  PrimitiveLaws prim -> Argon2Law argon2 ->
  exists blob tp',
    encryptV2 argon2 hello_world password None tp = Ok (blobToBase64 blob, tp')
    /\ length (TextEncoder_encode hello_world) = 11%nat
    /\ length blob = (57 + 11 + 16)%nat
    /\ length blob = 84%nat
    /\ base64ToBlob (blobToBase64 blob) = blob
    /\ length (blobToBase64 blob) = 112%nat.
Proof.
  intros laws AL.
  destruct (encryptV2_default argon2 hello_world password tp laws AL)
    as [key [config [_ [Lk [E _]]]]].
  eexists _, _. split; [exact E|].
  assert (length (envelope config (drawn_salt tp) (drawn_nonce tp) key
                           (TextEncoder_encode hello_world)) = 84%nat) as L.
  { rewrite envelope_length
      by (assumption || apply drawn_salt_length || apply drawn_nonce_length).
    reflexivity. }
  split; [reflexivity|]. split; [exact L|]. split; [exact L|].
  split; [apply fromBase64_toBase64|].
  unfold blobToBase64. rewrite toBase64_length, L. reflexivity.
Qed.

Lemma C8_hello_world_witness :
  exists blob tp',
    encryptV2 (prim := Reference.ref_primitives) (Some Reference.ref_argon2id)
              hello_world Tr0ub4dor_3 None Reference.ref_tape
    = Ok (blobToBase64 blob, tp')
    /\ length (TextEncoder_encode hello_world) = 11%nat
    /\ length blob = (57 + 11 + 16)%nat
    /\ length blob = 84%nat
    /\ base64ToBlob (blobToBase64 blob) = blob
    /\ length (blobToBase64 blob) = 112%nat.
Proof.
  exact (C8_hello_world (prim := Reference.ref_primitives)
           (Some Reference.ref_argon2id) Tr0ub4dor_3 Reference.ref_tape
           ref_laws ref_argon2_law).
Defined.

(** C1, as amended: for every plaintext that is well-formed UTF-16 and
    does not begin with U+FEFF (the empty string is one), and every
    password, encryption succeeds and decrypting its result under the
    same password, in the same environment, returns the plaintext; for
    any plaintext at all the decryption returns the UTF-8 decoding of
    its UTF-8 encoding. *)
Theorem C1_round_trip {prim : Primitives} (argon2 : capability)
    (plaintext password : jsstring) (tp : tape) :
  PrimitiveLaws prim -> Argon2Law argon2 ->
  exists b64 tp',
    encryptV2 argon2 plaintext password None tp = Ok (b64, tp')
    /\ decryptV2 argon2 b64 password
       = Ok (TextDecoder_decode (TextEncoder_encode plaintext))
    /\ (transcodable plaintext = true -> decryptV2 argon2 b64 password = Ok plaintext).
Proof.
  intros laws AL.
  destruct (encryptV2_default argon2 plaintext password tp laws AL)
    as [key [config [_ [_ [E D]]]]].
  eexists _, _. split; [exact E|]. split; [exact D|].
  intros T. rewrite D, (TextDecoder_TextEncoder plaintext T). reflexivity.
Qed.

(** The empty string under 'Tr0ub4dor&3', with Argon2id at hand. *)
Lemma C1_round_trip_witness :
  exists b64 tp',
    encryptV2 (prim := Reference.ref_primitives) (Some Reference.ref_argon2id)
              [] Tr0ub4dor_3 None Reference.ref_tape
    = Ok (b64, tp')
    /\ decryptV2 (prim := Reference.ref_primitives) (Some Reference.ref_argon2id)
                 b64 Tr0ub4dor_3
       = Ok [].
Proof.
  destruct (C1_round_trip (prim := Reference.ref_primitives)
              (Some Reference.ref_argon2id) [] Tr0ub4dor_3 Reference.ref_tape
              ref_laws ref_argon2_law) as [b64 [tp' [E [_ D]]]].
  exists b64, tp'. split; [exact E|]. apply D. reflexivity.
Defined.

(** C1 as stated fails: the plaintext U+FEFF 'h' 'i' comes back as
    'hi', because [TextDecoder] drops a leading byte order mark, and the
    one-unit plaintext U+D800 comes back as U+FFFD, because
    [TextEncoder] replaces an unpaired surrogate. *)
Lemma C1_counterexample :
  TextDecoder_decode (TextEncoder_encode bom_hi) = [104; 105]
  /\ TextDecoder_decode (TextEncoder_encode [0xD800]) = [0xFFFD]
  /\ exists b64 tp',
       encryptV2 (prim := Reference.ref_primitives) None bom_hi Tr0ub4dor_3 None
                 Reference.ref_tape
       = Ok (b64, tp')
       /\ decryptV2 (prim := Reference.ref_primitives) None b64 Tr0ub4dor_3
          = Ok [104; 105]
       /\ decryptV2 (prim := Reference.ref_primitives) None b64 Tr0ub4dor_3
          <> Ok bom_hi.
Proof.
  split; [reflexivity|]. split; [reflexivity|].
  eexists _, _. split; [vm_compute; reflexivity|].
  split; [vm_compute; reflexivity|]. vm_compute. discriminate.
Qed.

(** C4: when Argon2id is unavailable and the request does not name
    scrypt, [deriveKey] returns, for every password and salt, the scrypt
    key under N = 4096, r = 8, p = 1, key length 32, whatever parameters
    were requested, with [MOBILE_SCRYPT] as the resolved configuration;
    a blob encrypted in that state records scrypt with those parameters
    in its header and decrypts under the same password whether or not
    Argon2id is available when decrypting. *)
Theorem C4_fallback {prim : Primitives} (password : jsstring) (salt0 : bytes)
    (cfg : option PartialKdfConfig) :
  PrimitiveLaws prim -> cfg_id cfg <> Some Scrypt_id ->
  (exists key,
      scrypt (TextEncoder_encode password) salt0 4096 8 1 32 = Some key
      /\ deriveKey None password salt0 cfg = Ok (key, MOBILE_SCRYPT))
  /\ (kdf_id MOBILE_SCRYPT = Scrypt_id /\ kdf_N MOBILE_SCRYPT = 4096
      /\ kdf_r MOBILE_SCRYPT = 8 /\ kdf_s_p MOBILE_SCRYPT = 1
      /\ kdf_keyLen MOBILE_SCRYPT = 32)
  /\ (forall plaintext tp,
         exists b64 tp' h c,
           encryptV2 None plaintext password cfg tp = Ok (b64, tp')
           /\ parseHeader (base64ToBlob b64) = Ok (h, c)
           /\ kdfId h = Scrypt_id /\ kdfConfig h = MOBILE_SCRYPT
           /\ forall argon2',
               decryptV2 argon2' b64 password
               = Ok (TextDecoder_decode (TextEncoder_encode plaintext))
               /\ (transcodable plaintext = true ->
                   decryptV2 argon2' b64 password = Ok plaintext)).
Proof.
  intros laws N.
  assert (forall s, exists key,
             scrypt (TextEncoder_encode password) s 4096 8 1 32 = Some key
             /\ length key = 32%nat
             /\ deriveKey None password s cfg = Ok (key, MOBILE_SCRYPT)) as derive.
  { intros s. rewrite deriveKey_fallback by (exact N || reflexivity).
    destruct (scrypt (TextEncoder_encode password) s 4096 8 1 32) as [key|] eqn:S.
    - exists key. split; [reflexivity|]. split; [|reflexivity].
      apply (scrypt_length laws) in S. lia.
    - exfalso. revert S. apply (scrypt_mobile laws). }
  split; [|split].
  - destruct (derive salt0) as [key [S [_ D]]]. exists key. auto.
  - repeat split; reflexivity.
  - intros plaintext tp.
    destruct (derive (drawn_salt tp)) as [key [S [Lk D]]].
    exists (blobToBase64 (envelope MOBILE_SCRYPT (drawn_salt tp) (drawn_nonce tp) key
                                   (TextEncoder_encode plaintext))),
      (tape_after tp),
      {| magic := MAGIC; version := VERSION; kdfId := Scrypt_id;
         kdfConfig := MOBILE_SCRYPT; salt := drawn_salt tp; nonce := drawn_nonce tp |},
      (crypto_secretbox (TextEncoder_encode plaintext) (drawn_nonce tp) key).
    split.
    { rewrite encryptV2_eq, D, checkLengths_ok
        by (assumption || apply drawn_nonce_length).
      reflexivity. }
    split.
    { unfold base64ToBlob, blobToBase64. rewrite fromBase64_toBase64.
      unfold envelope.
      rewrite parseHeader_header_bytes
        by (apply drawn_salt_length || apply drawn_nonce_length).
      reflexivity. }
    split; [reflexivity|]. split; [reflexivity|].
    intros argon2'.
    assert (decryptV2 argon2'
              (blobToBase64 (envelope MOBILE_SCRYPT (drawn_salt tp) (drawn_nonce tp) key
                                      (TextEncoder_encode plaintext)))
              password
            = Ok (TextDecoder_decode (TextEncoder_encode plaintext))) as R.
    { apply decryptV2_envelope with (config' := MOBILE_SCRYPT); try assumption.
      - apply drawn_salt_length.
      - apply drawn_nonce_length.
      - rewrite deriveKey_scrypt_header by reflexivity.
        change (scrypt (TextEncoder_encode password) (drawn_salt tp) 4096 8 1 32)
          with (scrypt (TextEncoder_encode password) (drawn_salt tp)
                       (kdf_N (recorded MOBILE_SCRYPT)) (kdf_r (recorded MOBILE_SCRYPT))
                       (kdf_s_p (recorded MOBILE_SCRYPT))
                       (kdf_keyLen (recorded MOBILE_SCRYPT))) in S.
        rewrite S. reflexivity. }
    split; [exact R|].
    intros T. rewrite R, (TextDecoder_TextEncoder plaintext T). reflexivity.
Qed.

(** A request for Argon2id with 64 MiB of memory, in an environment
    without Argon2id, and a decryption where Argon2id is at hand. *)
Lemma C4_fallback_witness :
  exists key b64 tp',
    deriveKey (prim := Reference.ref_primitives) None Tr0ub4dor_3 (zeros 16)
      (Some {| opt_id := Some Argon2id_id; opt_m := Some 65536;
               opt_t := None; opt_p := None; opt_N := None; opt_r := None;
               opt_s_p := None; opt_keyLen := None |})
    = Ok (key, MOBILE_SCRYPT)
    /\ encryptV2 (prim := Reference.ref_primitives) None hello_world Tr0ub4dor_3
         (Some {| opt_id := Some Argon2id_id; opt_m := Some 65536;
                  opt_t := None; opt_p := None; opt_N := None; opt_r := None;
                  opt_s_p := None; opt_keyLen := None |})
         Reference.ref_tape
       = Ok (b64, tp')
    /\ decryptV2 (prim := Reference.ref_primitives) (Some Reference.ref_argon2id)
                 b64 Tr0ub4dor_3
       = Ok hello_world.
Proof.
  destruct (C4_fallback (prim := Reference.ref_primitives) Tr0ub4dor_3 (zeros 16)
              (Some {| opt_id := Some Argon2id_id; opt_m := Some 65536;
                       opt_t := None; opt_p := None; opt_N := None; opt_r := None;
                       opt_s_p := None; opt_keyLen := None |})
              ref_laws) as [[key [_ K]] [_ H]].
  - cbn. discriminate.
  - destruct (H hello_world Reference.ref_tape) as [b64 [tp' [h [c [E [_ [_ [_ D]]]]]]]].
    exists key, b64, tp'. split; [exact K|]. split; [exact E|].
    apply (D (Some Reference.ref_argon2id)). reflexivity.
Defined.

(** *** The legacy format *)

Lemma deriveKeyLegacy_ok {prim : Primitives} (password : jsstring) (salt0 : bytes) :
  PrimitiveLaws prim ->
  exists key, deriveKeyLegacy password salt0 = Ok key /\ length key = 32%nat.
Proof.
  intros laws. unfold deriveKeyLegacy, SCRYPT_N, SCRYPT_r, SCRYPT_p, KEY_LEN.
  change (2 ^ 12) with 4096.
  destruct (scrypt (TextEncoder_encode password) salt0 4096 8 1 32) as [key|] eqn:S.
  - exists key. split; [reflexivity|]. apply (scrypt_length laws) in S. lia.
  - exfalso. revert S. apply (scrypt_mobile laws).
Qed.

Lemma legacy_envelope_length {prim : Primitives} (salt0 nonce0 key msg : bytes) :
  PrimitiveLaws prim ->
  length salt0 = 16%nat -> length nonce0 = 24%nat -> length key = 32%nat ->
  length (legacy_envelope salt0 nonce0 key msg) = (56 + length msg)%nat.
Proof.
  intros laws Ls Ln Lk. unfold legacy_envelope.
  rewrite !length_app, Ls, Ln, (secretbox_length laws) by assumption. lia.
Qed.

(** The legacy decrypt opens what the legacy encrypt produced from a
    plaintext that is not empty. *)
Lemma legacy_round_trip {prim : Primitives} (plaintext password : jsstring) (tp : tape) :
  PrimitiveLaws prim -> TextEncoder_encode plaintext <> [] ->
  exists b64 tp',
    encryptToBase64Legacy plaintext password tp = Ok (b64, tp')
    /\ decryptFromBase64 b64 password
       = Ok (TextDecoder_decode (TextEncoder_encode plaintext)).
Proof.
  intros laws NE.
  destruct (deriveKeyLegacy_ok password (drawn_salt tp) laws) as [key [D Lk]].
  eexists _, _. split.
  - rewrite encryptToBase64Legacy_eq, D, checkLengths_ok
      by (assumption || apply drawn_nonce_length).
    reflexivity.
  - unfold decryptFromBase64. rewrite fromBase64_toBase64.
    rewrite legacy_envelope_length
      by (assumption || apply drawn_salt_length || apply drawn_nonce_length).
    replace (56 + length (TextEncoder_encode plaintext)
             <=? SALT_LEN + NONCE_LEN + 16)%nat with false.
    2:{ symmetry. apply Nat.leb_gt. unfold SALT_LEN, NONCE_LEN.
        destruct (TextEncoder_encode plaintext); [congruence | cbn; lia]. }
    change (slice (legacy_envelope (drawn_salt tp) (drawn_nonce tp) key
                     (TextEncoder_encode plaintext)) 0 SALT_LEN)
      with (drawn_salt tp).
    change (slice (legacy_envelope (drawn_salt tp) (drawn_nonce tp) key
                     (TextEncoder_encode plaintext)) SALT_LEN (SALT_LEN + NONCE_LEN))
      with (drawn_nonce tp).
    change (slice_from (legacy_envelope (drawn_salt tp) (drawn_nonce tp) key
                          (TextEncoder_encode plaintext)) (SALT_LEN + NONCE_LEN))
      with (crypto_secretbox (TextEncoder_encode plaintext) (drawn_nonce tp) key).
    rewrite D. cbn [rbind]. unfold nacl_secretbox_open.
    rewrite checkLengths_ok by (assumption || apply drawn_nonce_length).
    cbn [rbind].
    rewrite (secretbox_length laws) by (assumption || apply drawn_nonce_length).
    replace (length (TextEncoder_encode plaintext) + 16 <? 16)%nat with false
      by (symmetry; apply Nat.ltb_ge; lia).
    rewrite (secretbox_open_box laws) by (assumption || apply drawn_nonce_length).
    reflexivity.
Qed.

(** C10: the legacy decrypt rejects every input that decodes to 56
    bytes or fewer as too short; the legacy encryption of the empty
    string succeeds and decodes to exactly 56 bytes, salt, nonce and a
    bare tag; so decrypting it under the password it was encrypted with
    fails as too short, in [decryptFromBase64] and then in
    [decryptAuto]. *)
Theorem C10_legacy_empty {prim : Primitives} (argon2 : capability)
    (password : jsstring) (tp : tape) :
  PrimitiveLaws prim ->
  (forall b64 pw,
      (length (fromBase64 b64) <= 56)%nat ->
      decryptFromBase64 b64 pw = Err LegacyTooShort)
  /\ exists b64 tp',
       encryptToBase64Legacy [] password tp = Ok (b64, tp')
       /\ length (fromBase64 b64) = (16 + 24 + 16)%nat
       /\ decryptFromBase64 b64 password = Err LegacyTooShort
       /\ is_Err (decryptAuto argon2 b64 password) = true.
Proof.
  intros laws.
  assert (forall b64 pw,
             (length (fromBase64 b64) <= 56)%nat ->
             decryptFromBase64 b64 pw = Err LegacyTooShort) as short.
  { intros b64 pw L. unfold decryptFromBase64.
    replace (length (fromBase64 b64) <=? SALT_LEN + NONCE_LEN + 16)%nat with true
      by (symmetry; apply Nat.leb_le; exact L).
    reflexivity. }
  split; [exact short|].
  destruct (deriveKeyLegacy_ok password (drawn_salt tp) laws) as [key [D Lk]].
  pose (b64 := toBase64 (legacy_envelope (drawn_salt tp) (drawn_nonce tp) key
                                         (TextEncoder_encode []))).
  assert (length (fromBase64 b64) = 56%nat) as L.
  { unfold b64. rewrite fromBase64_toBase64.
    rewrite legacy_envelope_length
      by (assumption || apply drawn_salt_length || apply drawn_nonce_length).
    reflexivity. }
  assert (encryptToBase64Legacy [] password tp = Ok (b64, tape_after tp)) as E.
  { rewrite encryptToBase64Legacy_eq, D, checkLengths_ok
      by (assumption || apply drawn_nonce_length).
    reflexivity. }
  clearbody b64.
  assert (decryptFromBase64 b64 password = Err LegacyTooShort) as F
    by (apply short; rewrite L; apply Nat.le_refl).
  assert (decryptV2 argon2 b64 password = Err BlobTooShort) as V.
  { unfold decryptV2. rewrite parseHeader_too_short; [reflexivity|].
    unfold base64ToBlob. rewrite L. repeat constructor. }
  exists b64, (tape_after tp).
  split; [exact E|]. split; [exact L|]. split; [exact F|].
  unfold decryptAuto. rewrite V, F. reflexivity.
Qed.

Lemma C10_legacy_empty_witness :
  decryptFromBase64 (prim := Reference.ref_primitives) (toBase64 (zeros 56)) Tr0ub4dor_3
  = Err LegacyTooShort
  /\ exists b64 tp',
       encryptToBase64Legacy (prim := Reference.ref_primitives) [] Tr0ub4dor_3
                             Reference.ref_tape
       = Ok (b64, tp')
       /\ length (fromBase64 b64) = 56%nat
       /\ decryptFromBase64 (prim := Reference.ref_primitives) b64 Tr0ub4dor_3
          = Err LegacyTooShort.
Proof.
  destruct (C10_legacy_empty (prim := Reference.ref_primitives) None Tr0ub4dor_3
              Reference.ref_tape ref_laws) as [S [b64 [tp' [E [L [F _]]]]]].
  split.
  - apply S. vm_compute. lia.
  - exists b64, tp'. auto.
Defined.

(** *** Base64 text as a string *)

Lemma base64_text_not_whitespace (c : Z) : 43 <= c <= 122 -> is_whitespace c = false.
Proof. intros R. unfold is_whitespace. zsettle. reflexivity. Qed.

Lemma drop_whitespace_text (s : jsstring) : base64_text s -> drop_whitespace s = s.
Proof.
  intros T. destruct T as [|c s R _]; [reflexivity|].
  cbn [drop_whitespace]. rewrite base64_text_not_whitespace by exact R. reflexivity.
Qed.

Lemma trim_text (s : jsstring) : base64_text s -> trim s = s.
Proof.
  intros T. unfold trim. rewrite (drop_whitespace_text s T).
  rewrite drop_whitespace_text by (apply Forall_rev; exact T).
  apply rev_involutive.
Qed.

Lemma well_formed_text (s : jsstring) : base64_text s -> well_formed s = true.
Proof.
  induction 1 as [|c s R _ IH]; [reflexivity|].
  cbn [well_formed]. unfold is_high_surrogate, is_low_surrogate. zsettle.
  cbn [andb negb]. exact IH.
Qed.

Lemma transcodable_text (s : jsstring) : base64_text s -> transcodable s = true.
Proof.
  intros T. unfold transcodable. rewrite (well_formed_text s T).
  destruct T as [|c s R _]; [reflexivity|].
  cbn [leading_FEFF andb negb]. zsettle. reflexivity.
Qed.

Lemma toBase64_truthy (u8 : bytes) : u8 <> [] -> truthy (toBase64 u8) = true.
Proof.
  intros N. unfold toBase64.
  destruct u8 as [|a [|b [|c u8]]]; [congruence| | |]; reflexivity.
Qed.

(** *** The vault *)

Section VaultSteps.
Context {prim : Primitives}.

Lemma decryptAuto_eq (argon2 : capability) (b64 password : jsstring) :
  decryptAuto argon2 b64 password
  = match decryptV2 argon2 b64 password with
    | Ok plaintext => Ok plaintext
    | Err _ =>
        match decryptFromBase64 b64 password with
        | Ok plaintext => Ok plaintext
        | Err _ => Err DecryptionFailedUnified
        end
    end.
Proof. reflexivity. Qed.

Lemma decryptAuto_error (argon2 : capability) (b64 password : jsstring) (e : error) :
  decryptAuto argon2 b64 password = Err e -> e = DecryptionFailedUnified.
Proof.
  rewrite decryptAuto_eq.
  destruct (decryptV2 argon2 b64 password); [discriminate|].
  destruct (decryptFromBase64 b64 password); [discriminate|]. congruence.
Qed.

(** One layer: what encryption returns is nonempty base64 text that
    [decryptAuto] opens under the same password. *)
Lemma layer (argon2 : capability) (plaintext password : jsstring) (tp : tape) :
  PrimitiveLaws prim -> Argon2Law argon2 ->
  exists b64,
    encryptV2 argon2 plaintext password None tp = Ok (b64, tape_after tp)
    /\ base64_text b64 /\ truthy b64 = true
    /\ decryptAuto argon2 b64 password
       = Ok (TextDecoder_decode (TextEncoder_encode plaintext)).
Proof.
  intros laws AL.
  destruct (encryptV2_default argon2 plaintext password tp laws AL)
    as [key [config [_ [_ [E D]]]]].
  eexists. split; [exact E|].
  split; [apply toBase64_text|]. split.
  - apply toBase64_truthy. unfold envelope, header_bytes.
    destruct (active_params config) as [[pa pb] pd]. discriminate.
  - rewrite decryptAuto_eq, D. reflexivity.
Qed.

(** The three presses on their own, each from a state that holds what
    the step needs. *)
Lemma step1_ok (argon2 : capability) (st : VaultState) (plaintext : jsstring) :
  decryptStep st = 1 -> base64_text (encryptedOutput st) ->
  truthy (encryptedOutput st) = true -> nonblank (password3 st) ->
  decryptAuto argon2 (encryptedOutput st) (password3 st) = Ok plaintext ->
  onStepDecrypt argon2 st
  = (setIsLoading false (setPassword3 [] (setDecryptStep 2 (setTempData1 plaintext st))),
     Some Step1Complete).
Proof.
  intros S T N P D. unfold onStepDecrypt. rewrite S. cbn [Z.eqb Pos.eqb].
  rewrite (trim_text _ T), N, P, D. reflexivity.
Qed.

Lemma step2_ok (argon2 : capability) (st : VaultState) (plaintext : jsstring) :
  decryptStep st = 2 -> base64_text (tempData1 st) ->
  truthy (tempData1 st) = true -> nonblank (password2 st) ->
  decryptAuto argon2 (tempData1 st) (password2 st) = Ok plaintext ->
  onStepDecrypt argon2 st
  = (setIsLoading false
       (setTempData1 [] (setPassword2 [] (setDecryptStep 3 (setTempData2 plaintext st)))),
     Some Step2Complete).
Proof.
  intros S T N P D. unfold onStepDecrypt. rewrite S. cbn [Z.eqb Pos.eqb].
  rewrite (trim_text _ T), N, P, D. reflexivity.
Qed.

Lemma step3_ok (argon2 : capability) (st : VaultState) (plaintext : jsstring) :
  decryptStep st = 3 -> base64_text (tempData2 st) ->
  truthy (tempData2 st) = true -> nonblank (password1 st) ->
  decryptAuto argon2 (tempData2 st) (password1 st) = Ok plaintext ->
  onStepDecrypt argon2 st
  = (setIsLoading false
       (setEncryptedOutput []
          (setTempData2 [] (setPassword1 [] (setDecryptedSeed plaintext st)))),
     Some SeedPhraseRecovered).
Proof.
  intros S T N P D. unfold onStepDecrypt. rewrite S. cbn [Z.eqb Pos.eqb].
  rewrite (trim_text _ T), N, P, D. reflexivity.
Qed.

(** A press whose decryption fails changes nothing but the loading
    flag and names the step. *)
Lemma step_failed (argon2 : capability) (st : VaultState)
    (b64 password : jsstring) (e : error) :
  step_request st = Some (b64, password) ->
  decryptAuto argon2 b64 password = Err e ->
  onStepDecrypt argon2 st
  = (setIsLoading false st, Some (StepFailed (decryptStep st) e)).
Proof.
  unfold step_request, onStepDecrypt.
  destruct (decryptStep st =? 1);
    [|destruct (decryptStep st =? 2); [|destruct (decryptStep st =? 3)]].
  - destruct (truthy (trim (encryptedOutput st)));
      destruct (truthy (trim (password3 st))); cbn [andb negb orb]; try discriminate.
    intros R D. injection R as <- <-. rewrite D. reflexivity.
  - destruct (truthy (trim (tempData1 st)));
      destruct (truthy (trim (password2 st))); cbn [andb negb orb]; try discriminate.
    intros R D. injection R as <- <-. rewrite D. reflexivity.
  - destruct (truthy (trim (tempData2 st)));
      destruct (truthy (trim (password1 st))); cbn [andb negb orb]; try discriminate.
    intros R D. injection R as <- <-. rewrite D. reflexivity.
  - discriminate.
Qed.

(** The dialog of a failed step is shown only when the decryption of
    that step failed, and then the state is as it was. *)
Lemma step_failed_inv (argon2 : capability) (st st' : VaultState) (k : Z) (e : error) :
  onStepDecrypt argon2 st = (st', Some (StepFailed k e)) ->
  k = decryptStep st /\ e = DecryptionFailedUnified /\ st' = setIsLoading false st
  /\ exists b64 password,
       step_request st = Some (b64, password)
       /\ decryptAuto argon2 b64 password = Err e.
Proof.
  unfold step_request, onStepDecrypt.
  destruct (decryptStep st =? 1);
    [|destruct (decryptStep st =? 2); [|destruct (decryptStep st =? 3)]].
  - destruct (truthy (trim (encryptedOutput st)));
      destruct (truthy (trim (password3 st))); cbn [andb negb orb]; try discriminate.
    destruct (decryptAuto argon2 _ _) as [r|e'] eqn:D; [discriminate|].
    intros E. injection E as <- <- <-.
    pose proof (decryptAuto_error _ _ _ _ D). eauto 10.
  - destruct (truthy (trim (tempData1 st)));
      destruct (truthy (trim (password2 st))); cbn [andb negb orb]; try discriminate.
    destruct (decryptAuto argon2 _ _) as [r|e'] eqn:D; [discriminate|].
    intros E. injection E as <- <- <-.
    pose proof (decryptAuto_error _ _ _ _ D). eauto 10.
  - destruct (truthy (trim (tempData2 st)));
      destruct (truthy (trim (password1 st))); cbn [andb negb orb]; try discriminate.
    destruct (decryptAuto argon2 _ _) as [r|e'] eqn:D; [discriminate|].
    intros E. injection E as <- <- <-.
    pose proof (decryptAuto_error _ _ _ _ D). eauto 10.
  - discriminate.
Qed.

End VaultSteps.

(** Without Argon2id a password enters decryption only through its
    UTF-8 encoding: two passwords with the same encoding open the same
    blobs, whatever the primitives. *)
Lemma same_encoding_same_result {prim : Primitives} (b64 pw pw' : jsstring) :
  TextEncoder_encode pw = TextEncoder_encode pw' ->
  decryptAuto None b64 pw = decryptAuto None b64 pw'.
Proof.
  intros E.
  unfold decryptAuto, decryptV2, decryptFromBase64, deriveKeyLegacy, deriveKey,
    deriveKey_scrypt, deriveKeyScrypt.
  cbn [deriveKeyArgon2id]. rewrite E. reflexivity.
Qed.

(* ================================================================== *)
(** * Further properties of the code *)
(* ================================================================== *)

(** ** White space around base64 text *)

Lemma whitespace_no_value (c : Z) : is_whitespace c = true -> base64_value c = None /\ c <> 61.
Proof.
  intros W. unfold is_whitespace in W.
  assert (c < 43 \/ 122 < c) as R.
  { destruct (Z.ltb_spec c 43); [lia|]. destruct (Z.ltb_spec 122 c); [lia|].
    exfalso. revert W. zsettle. discriminate. }
  split; [|lia]. unfold base64_value.
  destruct R; zsettle; reflexivity.
Qed.

Lemma base64_clean_leading (ws s : jsstring) :
  all_whitespace ws -> base64_clean (ws ++ s) = base64_clean s.
Proof.
  induction 1 as [|c ws W _ IH]; [reflexivity|].
  destruct (whitespace_no_value c W) as [V N].
  cbn [app base64_clean]. rewrite V.
  destruct (Z.eqb_spec c 61); [contradiction|]. exact IH.
Qed.

Lemma base64_clean_whitespace (ws : jsstring) : all_whitespace ws -> base64_clean ws = [].
Proof.
  intros W. rewrite <- (app_nil_r ws). rewrite base64_clean_leading by exact W. reflexivity.
Qed.

Lemma base64_clean_trailing (s ws : jsstring) :
  all_whitespace ws -> base64_clean (s ++ ws) = base64_clean s.
Proof.
  intros W. induction s as [|c s IH].
  - apply base64_clean_whitespace, W.
  - cbn [app base64_clean]. rewrite IH. reflexivity.
Qed.

Lemma drop_whitespace_leading (ws s : jsstring) :
  all_whitespace ws -> drop_whitespace (ws ++ s) = drop_whitespace s.
Proof.
  induction 1 as [|c ws W _ IH]; [reflexivity|].
  cbn [app drop_whitespace]. rewrite W. exact IH.
Qed.

Lemma drop_whitespace_text_app (t s : jsstring) :
  base64_text t -> truthy t = true -> drop_whitespace (t ++ s) = t ++ s.
Proof.
  intros T N. destruct T as [|c t R _]; [discriminate N|].
  cbn [app drop_whitespace]. rewrite base64_text_not_whitespace by exact R. reflexivity.
Qed.

(** Trimming takes the white space off both ends of base64 text. *)
Lemma trim_padded (pre t post : jsstring) :
  all_whitespace pre -> all_whitespace post -> base64_text t -> truthy t = true ->
  trim (pre ++ t ++ post) = t.
Proof.
  intros Wpre Wpost T N. unfold trim.
  rewrite drop_whitespace_leading by exact Wpre.
  rewrite drop_whitespace_text_app by assumption.
  rewrite rev_app_distr.
  rewrite drop_whitespace_leading by (apply Forall_rev; exact Wpost).
  rewrite <- (app_nil_r (rev t)).
  rewrite drop_whitespace_text_app.
  - rewrite app_nil_r. apply rev_involutive.
  - apply Forall_rev. exact T.
  - destruct t as [|c t]; [discriminate N|].
    cbn [rev]. destruct (rev t); reflexivity.
Qed.

(** X4: the base64 transport of a blob decodes to the blob, has four
    characters for every three bytes, rounded up, all of them in the
    range '+' to 'z', and still decodes to the blob with white space
    before and after it. *)
Theorem X4_blob_transport (blob : bytes) :
  base64ToBlob (blobToBase64 blob) = blob
  /\ length (blobToBase64 blob) = (4 * ((length blob + 2) / 3))%nat
  /\ base64_text (blobToBase64 blob)
  /\ (forall pre post,
         all_whitespace pre -> all_whitespace post ->
         base64ToBlob (pre ++ blobToBase64 blob ++ post) = blob).
Proof.
  unfold base64ToBlob, blobToBase64.
  split; [apply fromBase64_toBase64|].
  split; [apply toBase64_length|].
  split; [apply toBase64_text|].
  intros pre post Wpre Wpost. unfold fromBase64.
  rewrite base64_clean_leading, base64_clean_trailing by assumption.
  apply fromBase64_toBase64.
Qed.

Lemma X4_blob_transport_witness :
  base64ToBlob ([32; 10] ++ blobToBase64 bare_header ++ [13; 10]) = bare_header.
Proof.
  apply (proj2 (proj2 (proj2 (X4_blob_transport bare_header)))).
  - repeat constructor.
  - repeat constructor.
Defined.

(** ** Key derivation, whatever the request *)

Section KeyDerivationAny.
Context {prim : Primitives}.

Lemma deriveKey_scrypt_inv (password : jsstring) (salt0 key : bytes)
    (cfg : option PartialKdfConfig) (config : KdfConfig) :
  deriveKey_scrypt password salt0 cfg = Ok (key, config) ->
  kdf_id config = Scrypt_id
  /\ scrypt (TextEncoder_encode password) salt0
            (kdf_N config) (kdf_r config) (kdf_s_p config) (kdf_keyLen config)
     = Some key.
Proof.
  unfold deriveKey_scrypt, deriveKeyScrypt.
  destruct (scrypt _ _ _ _ _ _) as [k|] eqn:S; [|discriminate].
  cbn [of_option]. intros E. injection E as <- <-.
  split; [|exact S].
  destruct cfg as [c|]; [|reflexivity]. cbn [cfg_id].
  destruct (opt_id c) as [[|]|] eqn:I; try reflexivity.
  cbn [spread kdf_id]. rewrite I. reflexivity.
Qed.

(** The configuration that [deriveKey] returns tells how the key was
    made. *)
Lemma deriveKey_inv (argon2 : capability) (password : jsstring) (salt0 key : bytes)
    (cfg : option PartialKdfConfig) (config : KdfConfig) :
  deriveKey argon2 password salt0 cfg = Ok (key, config) ->
  match kdf_id config with
  | Argon2id_id =>
      exists argon2Lib,
        argon2 = Some argon2Lib
        /\ argon2Lib password salt0 (kdf_p config) (kdf_t config) (kdf_m config)
                     (kdf_keyLen config) = Some key
  | Scrypt_id =>
      scrypt (TextEncoder_encode password) salt0
             (kdf_N config) (kdf_r config) (kdf_s_p config) (kdf_keyLen config)
      = Some key
  end.
Proof.
  assert (deriveKey_scrypt password salt0 cfg = Ok (key, config) ->
          match kdf_id config with
          | Argon2id_id =>
              exists argon2Lib,
                argon2 = Some argon2Lib
                /\ argon2Lib password salt0 (kdf_p config) (kdf_t config) (kdf_m config)
                             (kdf_keyLen config) = Some key
          | Scrypt_id =>
              scrypt (TextEncoder_encode password) salt0
                     (kdf_N config) (kdf_r config) (kdf_s_p config) (kdf_keyLen config)
              = Some key
          end) as S.
  { intros D. destruct (deriveKey_scrypt_inv _ _ _ _ _ D) as [-> K]. exact K. }
  unfold deriveKey. destruct (_ || _); [|exact S].
  destruct (deriveKeyArgon2id argon2 password salt0 (spread DEFAULT_ARGON2ID cfg))
    as [k|e] eqn:A; [|exact S].
  intros E. injection E as <- <-. cbn [with_id kdf_id kdf_p kdf_t kdf_m kdf_keyLen].
  destruct argon2 as [f|]; [|discriminate A]. cbn [deriveKeyArgon2id] in A.
  destruct (f password salt0 _ _ _ _) eqn:F; [|discriminate A].
  injection A as <-. exists f. split; [reflexivity | exact F].
Qed.

Lemma deriveKey_length (argon2 : capability) (password : jsstring) (salt0 key : bytes)
    (cfg : option PartialKdfConfig) (config : KdfConfig) :
  PrimitiveLaws prim -> Argon2Law argon2 ->
  deriveKey argon2 password salt0 cfg = Ok (key, config) ->
  Z.of_nat (length key) = kdf_keyLen config.
Proof.
  intros laws AL D. apply deriveKey_inv in D.
  destruct (kdf_id config).
  - destruct D as [f [-> F]]. exact (AL _ _ _ _ _ _ _ F).
  - exact (scrypt_length laws _ _ _ _ _ _ D).
Qed.

Lemma deriveKey_replay (argon2 : capability) (password : jsstring) (salt0 key : bytes)
    (cfg : option PartialKdfConfig) (config : KdfConfig) :
  deriveKey argon2 password salt0 cfg = Ok (key, config) ->
  deriveKey argon2 password salt0 (Some (as_partial config)) = Ok (key, config).
Proof.
  intros D. apply deriveKey_inv in D.
  destruct (kdf_id config) eqn:I.
  - destruct D as [f [-> F]]. apply deriveKey_argon2_header; assumption.
  - rewrite deriveKey_scrypt_header by exact I. rewrite D. reflexivity.
Qed.

(** A request that names scrypt never reaches Argon2id. *)
Lemma deriveKey_scrypt_request (argon2 : capability) (password : jsstring)
    (salt0 : bytes) (c : PartialKdfConfig) :
  opt_id c = Some Scrypt_id ->
  deriveKey argon2 password salt0 (Some c)
  = match scrypt (TextEncoder_encode password) salt0
                 (or_default (opt_N c) 131072) (or_default (opt_r c) 8)
                 (or_default (opt_s_p c) 1) (or_default (opt_keyLen c) 32) with
    | Some key => Ok (key, spread DEFAULT_SCRYPT (Some c))
    | None => Err KeyDerivationFailed
    end.
Proof.
  intros I. unfold deriveKey. cbn [spread kdf_id cfg_id]. rewrite I.
  cbn [or_default KdfId_eqb orb].
  unfold deriveKey_scrypt. cbn [cfg_id]. rewrite I.
  unfold deriveKeyScrypt. cbn [spread kdf_N kdf_r kdf_s_p kdf_keyLen DEFAULT_SCRYPT].
  change (Z.shiftl 1 17) with 131072.
  destruct (scrypt _ _ _ _ _ _); cbn [of_option spread]; rewrite ?I; reflexivity.
Qed.

End KeyDerivationAny.

(** X5: the configuration that [deriveKey] returns beside the key tells
    how the key was made: with the id of Argon2id the library was at
    hand and gave the key for the parameters returned, with the id of
    scrypt the key is scrypt's for the parameters returned; the key has
    the length the configuration names; and deriving again from the
    returned configuration gives the same key and configuration, for a
    scrypt configuration in every environment. *)
Theorem X5_deriveKey_resolved {prim : Primitives} (argon2 : capability)
    (password : jsstring) (salt0 key : bytes) (cfg : option PartialKdfConfig)
    (config : KdfConfig) :
  PrimitiveLaws prim -> Argon2Law argon2 ->
  deriveKey argon2 password salt0 cfg = Ok (key, config) ->
  match kdf_id config with
  | Argon2id_id =>
      exists argon2Lib,
        argon2 = Some argon2Lib
        /\ argon2Lib password salt0 (kdf_p config) (kdf_t config) (kdf_m config)
                     (kdf_keyLen config) = Some key
  | Scrypt_id =>
      scrypt (TextEncoder_encode password) salt0
             (kdf_N config) (kdf_r config) (kdf_s_p config) (kdf_keyLen config)
      = Some key
      /\ forall other : capability,
           deriveKey other password salt0 (Some (as_partial config)) = Ok (key, config)
  end
  /\ Z.of_nat (length key) = kdf_keyLen config
  /\ deriveKey argon2 password salt0 (Some (as_partial config)) = Ok (key, config).
Proof.
  intros laws AL D.
  split; [|split].
  - pose proof (deriveKey_inv _ _ _ _ _ _ D) as K.
    destruct (kdf_id config) eqn:I; [exact K|].
    split; [exact K|]. intros other.
    rewrite deriveKey_scrypt_header by exact I. rewrite K. reflexivity.
  - exact (deriveKey_length _ _ _ _ _ _ laws AL D).
  - exact (deriveKey_replay _ _ _ _ _ _ D).
Qed.

Lemma X5_deriveKey_resolved_witness :
  exists key config,
    deriveKey (prim := Reference.ref_primitives) (Some Reference.ref_argon2id)
              hello_world (zeros 16)
              (Some {| opt_id := None; opt_m := Some 64; opt_t := None; opt_p := None;
                       opt_N := None; opt_r := None; opt_s_p := None;
                       opt_keyLen := Some 20 |})
    = Ok (key, config)
    /\ Z.of_nat (length key) = kdf_keyLen config
    /\ deriveKey (prim := Reference.ref_primitives) (Some Reference.ref_argon2id)
                 hello_world (zeros 16) (Some (as_partial config))
       = Ok (key, config).
Proof.
  destruct (deriveKey (prim := Reference.ref_primitives) (Some Reference.ref_argon2id)
              hello_world (zeros 16)
              (Some {| opt_id := None; opt_m := Some 64; opt_t := None; opt_p := None;
                       opt_N := None; opt_r := None; opt_s_p := None;
                       opt_keyLen := Some 20 |}))
    as [[key config]|e] eqn:D; [|vm_compute in D; discriminate D].
  exists key, config. split; [reflexivity|].
  exact (proj2 (X5_deriveKey_resolved (prim := Reference.ref_primitives)
                  _ _ _ _ _ _ ref_laws ref_argon2_law D)).
Defined.

(** X6: a request that names scrypt is served by scrypt alone. The
    result does not depend on whether Argon2id is at hand. When a key is
    returned, the configuration returned has the id of scrypt, each of
    N, r, p and the key length is the number of the request where the
    request holds one and 131072, 8, 1, 32 where the request lacks it,
    and the key is scrypt's for these four. A request that holds all
    four numbers gets a key exactly when scrypt accepts them. The only
    failure is 'Key derivation failed'. *)
Theorem X6_scrypt_request {prim : Primitives} (argon2 : capability)
    (password : jsstring) (salt0 : bytes) (c : PartialKdfConfig) :
  opt_id c = Some Scrypt_id ->
  deriveKey argon2 password salt0 (Some c) = deriveKey None password salt0 (Some c)
  /\ (forall key config,
         deriveKey argon2 password salt0 (Some c) = Ok (key, config) ->
         kdf_id config = Scrypt_id
         /\ kdf_N config = or_default (opt_N c) 131072
         /\ kdf_r config = or_default (opt_r c) 8
         /\ kdf_s_p config = or_default (opt_s_p c) 1
         /\ kdf_keyLen config = or_default (opt_keyLen c) 32
         /\ scrypt (TextEncoder_encode password) salt0
                   (kdf_N config) (kdf_r config) (kdf_s_p config) (kdf_keyLen config)
            = Some key)
  /\ (forall n r p k,
         opt_N c = Some n -> opt_r c = Some r -> opt_s_p c = Some p ->
         opt_keyLen c = Some k ->
         (forall key,
             scrypt (TextEncoder_encode password) salt0 n r p k = Some key ->
             exists config, deriveKey argon2 password salt0 (Some c) = Ok (key, config))
         /\ (scrypt (TextEncoder_encode password) salt0 n r p k = None ->
             deriveKey argon2 password salt0 (Some c) = Err KeyDerivationFailed))
  /\ (forall e,
         deriveKey argon2 password salt0 (Some c) = Err e -> e = KeyDerivationFailed).
Proof.
  intros I. split; [|split; [|split]].
  - rewrite !deriveKey_scrypt_request by exact I. reflexivity.
  - intros key config D. rewrite deriveKey_scrypt_request in D by exact I.
    destruct (scrypt _ _ _ _ _ _) as [k|] eqn:S; [|discriminate D].
    injection D as <- <-. cbn [spread kdf_id kdf_N kdf_r kdf_s_p kdf_keyLen].
    rewrite I. cbn [or_default DEFAULT_SCRYPT kdf_N kdf_r kdf_s_p kdf_keyLen].
    change (Z.shiftl 1 17) with 131072. repeat split. exact S.
  - intros n r p k En Er Ep Ek.
    rewrite deriveKey_scrypt_request by exact I.
    rewrite En, Er, Ep, Ek. cbn [or_default]. split.
    + intros key S. rewrite S. eauto.
    + intros S. rewrite S. reflexivity.
  - intros e D. exact (deriveKey_error _ _ _ _ _ D).
Qed.

Lemma X6_scrypt_request_witness :
  exists key config,
    deriveKey (prim := Reference.ref_primitives) (Some Reference.ref_argon2id)
              hello_world (zeros 16)
              (Some {| opt_id := Some Scrypt_id; opt_m := None; opt_t := None;
                       opt_p := None; opt_N := Some 1024; opt_r := None;
                       opt_s_p := None; opt_keyLen := None |})
    = Ok (key, config)
    /\ kdf_id config = Scrypt_id /\ kdf_N config = 1024 /\ kdf_r config = 8
    /\ kdf_s_p config = 1 /\ kdf_keyLen config = 32.
Proof.
  destruct (deriveKey (prim := Reference.ref_primitives) (Some Reference.ref_argon2id)
              hello_world (zeros 16)
              (Some {| opt_id := Some Scrypt_id; opt_m := None; opt_t := None;
                       opt_p := None; opt_N := Some 1024; opt_r := None;
                       opt_s_p := None; opt_keyLen := None |}))
    as [[key config]|e] eqn:D; [|vm_compute in D; discriminate D].
  exists key, config. split; [reflexivity|].
  destruct (proj1 (proj2 (X6_scrypt_request (prim := Reference.ref_primitives)
                            (Some Reference.ref_argon2id) hello_world (zeros 16)
                            {| opt_id := Some Scrypt_id; opt_m := None; opt_t := None;
                               opt_p := None; opt_N := Some 1024; opt_r := None;
                               opt_s_p := None; opt_keyLen := None |} eq_refl))
              key config D) as [Hi [Hn [Hr [Hp [Hk _]]]]].
  repeat split; assumption.
Defined.

(** X7: when Argon2id is at hand but throws, and the request does not
    name scrypt, the key is scrypt's under N = 4096, r = 8, p = 1 and 32
    bytes, whatever parameters the request carried; with the primitives
    as assumed this never fails. *)
Theorem X7_argon2_throws {prim : Primitives} (argon2Lib : Argon2id)
    (password : jsstring) (salt0 : bytes) (cfg : option PartialKdfConfig) :
  PrimitiveLaws prim ->
  cfg_id cfg <> Some Scrypt_id ->
  argon2Lib password salt0 (kdf_p (spread DEFAULT_ARGON2ID cfg))
            (kdf_t (spread DEFAULT_ARGON2ID cfg)) (kdf_m (spread DEFAULT_ARGON2ID cfg))
            (kdf_keyLen (spread DEFAULT_ARGON2ID cfg)) = None ->
  exists key,
    scrypt (TextEncoder_encode password) salt0 4096 8 1 32 = Some key
    /\ length key = 32%nat
    /\ deriveKey (Some argon2Lib) password salt0 cfg = Ok (key, MOBILE_SCRYPT)
    /\ deriveKey None password salt0 cfg = Ok (key, MOBILE_SCRYPT).
Proof.
  intros laws N F.
  destruct (scrypt (TextEncoder_encode password) salt0 4096 8 1 32) as [key|] eqn:S.
  2:{ exfalso. revert S. apply (scrypt_mobile laws). }
  exists key. split; [reflexivity|].
  split; [apply (scrypt_length laws) in S; lia|].
  split.
  - rewrite deriveKey_fallback, S; [reflexivity | exact N |].
    cbn [deriveKeyArgon2id]. rewrite F. reflexivity.
  - rewrite deriveKey_fallback, S; [reflexivity | exact N | reflexivity].
Qed.

Lemma X7_argon2_throws_witness :
  exists key,
    deriveKey (prim := Reference.ref_primitives) (Some Reference.ref_argon2id)
              hello_world (zeros 16)
              (Some {| opt_id := Some Argon2id_id; opt_m := Some 4; opt_t := None;
                       opt_p := None; opt_N := Some 1024; opt_r := None;
                       opt_s_p := None; opt_keyLen := Some 64 |})
    = Ok (key, MOBILE_SCRYPT) /\ length key = 32%nat.
Proof.
  destruct (X7_argon2_throws (prim := Reference.ref_primitives) Reference.ref_argon2id
              hello_world (zeros 16)
              (Some {| opt_id := Some Argon2id_id; opt_m := Some 4; opt_t := None;
                       opt_p := None; opt_N := Some 1024; opt_r := None;
                       opt_s_p := None; opt_keyLen := Some 64 |})
              ref_laws ltac:(discriminate) eq_refl)
    as [key [_ [L [D _]]]].
  exists key. split; [exact D | exact L].
Defined.

(** ** The outcomes of [encryptV2] and [decryptV2] *)

Lemma parseHeader_error (blob : bytes) (e : error) :
  parseHeader blob = Err e ->
  e = BlobTooShort
  \/ e = InvalidMagic (TextDecoder_decode (firstn 3 blob))
  \/ (exists v, e = UnsupportedVersion v)
  \/ (exists v, e = UnknownKdfIdByte v).
Proof.
  destruct (Nat.ltb_spec (length blob) 57) as [L|L].
  { rewrite parseHeader_too_short by exact L. intros E. left. congruence. }
  unfold parseHeader.
  replace (length blob <? HEADER_SIZE)%nat with false
    by (symmetry; apply Nat.ltb_ge; exact L).
  cbn [Nat.add]. change (slice blob 0 3) with (firstn 3 blob).
  destruct (jsstring_eqb (TextDecoder_decode (firstn 3 blob)) MAGIC); cbn [negb].
  2:{ intros E. right. left. congruence. }
  unfold getUint8.
  destruct (nth_error blob 3) as [bv|] eqn:V.
  2:{ apply nth_error_None in V. lia. }
  cbn [rbind]. destruct (Z_of_byte bv =? VERSION); cbn [negb].
  2:{ intros E. right. right. left. exists (Z_of_byte bv). congruence. }
  destruct (nth_error blob 4) as [bk|] eqn:K.
  2:{ apply nth_error_None in K. lia. }
  cbn [rbind]. destruct (KDF_NAMES (Z_of_byte bk)) as [i|].
  2:{ intros E. right. right. right. exists (Z_of_byte bk). congruence. }
  rewrite deserializeKdfParams_total.
  - discriminate.
  - unfold slice. rewrite length_firstn, length_skipn. lia.
Qed.

Lemma parsed_header_keyLen (i : KdfId) (blob : bytes) :
  kdf_keyLen (kdfConfig (parsed_header i blob)) = 32.
Proof. destruct i; reflexivity. Qed.

Lemma parsed_header_id (i : KdfId) (blob : bytes) :
  kdf_id (kdfConfig (parsed_header i blob)) = i.
Proof. destruct i; reflexivity. Qed.

Lemma parsed_header_nonce (i : KdfId) (blob : bytes) :
  (57 <= length blob)%nat -> length (nonce (parsed_header i blob)) = 24%nat.
Proof.
  intros L. cbn [parsed_header nonce]. unfold slice.
  rewrite length_firstn, length_skipn. lia.
Qed.

Lemma parsed_header_salt (i : KdfId) (blob : bytes) :
  (57 <= length blob)%nat -> length (salt (parsed_header i blob)) = 16%nat.
Proof.
  intros L. cbn [parsed_header salt]. unfold slice.
  rewrite length_firstn, length_skipn. lia.
Qed.

Section Outcomes.
Context {prim : Primitives}.

Lemma encryptV2_outcome (argon2 : capability) (plaintext password : jsstring)
    (cfg : option PartialKdfConfig) (tp : tape) :
  PrimitiveLaws prim -> Argon2Law argon2 ->
  encryptV2 argon2 plaintext password cfg tp
  = match deriveKey argon2 password (drawn_salt tp) cfg with
    | Err _ => Err KeyDerivationFailed
    | Ok (key, config) =>
        if kdf_keyLen config =? 32
        then Ok (blobToBase64 (envelope config (drawn_salt tp) (drawn_nonce tp) key
                                        (TextEncoder_encode plaintext)),
                 tape_after tp)
        else Err BadKeySize
    end.
Proof.
  intros laws AL. rewrite encryptV2_eq.
  destruct (deriveKey argon2 password (drawn_salt tp) cfg) as [[key config]|e] eqn:D.
  - pose proof (deriveKey_length _ _ _ _ _ _ laws AL D) as Lk.
    unfold checkLengths. rewrite drawn_nonce_length.
    destruct (Z.eqb_spec (kdf_keyLen config) 32) as [E|E].
    + replace (length key =? 32)%nat with true by (symmetry; apply Nat.eqb_eq; lia).
      reflexivity.
    + replace (length key =? 32)%nat with false by (symmetry; apply Nat.eqb_neq; lia).
      reflexivity.
  - rewrite (deriveKey_error _ _ _ _ _ D). reflexivity.
Qed.

Lemma decryptV2_error (argon2 : capability) (b64 password : jsstring) (e : error) :
  PrimitiveLaws prim -> Argon2Law argon2 ->
  decryptV2 argon2 b64 password = Err e ->
  e = BlobTooShort
  \/ e = InvalidMagic (TextDecoder_decode (firstn 3 (base64ToBlob b64)))
  \/ (exists v, e = UnsupportedVersion v)
  \/ (exists v, e = UnknownKdfIdByte v)
  \/ e = KeyDerivationFailed
  \/ e = DecryptionFailedV2.
Proof.
  intros laws AL. unfold decryptV2.
  destruct (parseHeader (base64ToBlob b64)) as [[h c]|e'] eqn:P; cbn [rbind].
  2:{ intros E. injection E as <-.
      destruct (parseHeader_error _ _ P) as [H|[H|[H|H]]]; auto. }
  destruct (parseHeader_inv _ _ _ P) as [L [_ [_ [i [_ [-> _]]]]]].
  destruct (deriveKey argon2 password _ _) as [[key cfg']|e'] eqn:D; cbn [rbind].
  2:{ intros E. injection E as <-. rewrite (deriveKey_error _ _ _ _ _ D). auto 10. }
  pose proof (deriveKey_header_length _ _ _ _ _ _ laws AL
                (parsed_header_keyLen i _) D) as Lk.
  unfold nacl_secretbox_open.
  rewrite checkLengths_ok by (exact Lk || apply parsed_header_nonce, L).
  cbn [rbind]. destruct (length c <? 16)%nat; cbn [rbind].
  - intros E. injection E as <-. auto 10.
  - destruct (crypto_secretbox_open _ _ _); [discriminate|].
    intros E. injection E as <-. auto 10.
Qed.

End Outcomes.

(** X8: with the primitives as assumed, [encryptV2] fails in two ways
    only: with 'Key derivation failed' when [deriveKey] fails, and with
    tweetnacl's 'bad key size' when the configuration that [deriveKey]
    resolved asks for a key that is not 32 bytes long; otherwise it
    returns the base64 text of header and box and has read 40 bytes of
    randomness.  The key length of the request matters only where the
    request is honoured: where Argon2id is not at hand and the request
    does not name scrypt, the request is dropped for the mobile
    parameters and the encryption succeeds whatever key length it
    asked for. *)
Theorem X8_encryptV2_outcomes {prim : Primitives} (argon2 : capability)
    (plaintext password : jsstring) (cfg : option PartialKdfConfig) (tp : tape) :
  PrimitiveLaws prim -> Argon2Law argon2 ->
  encryptV2 argon2 plaintext password cfg tp
  = match deriveKey argon2 password (drawn_salt tp) cfg with
    | Err _ => Err KeyDerivationFailed
    | Ok (key, config) =>
        if kdf_keyLen config =? 32
        then Ok (blobToBase64 (envelope config (drawn_salt tp) (drawn_nonce tp) key
                                        (TextEncoder_encode plaintext)),
                 tape_skip 40 tp)
        else Err BadKeySize
    end
  /\ (cfg_id cfg <> Some Scrypt_id ->
      exists key,
        scrypt (TextEncoder_encode password) (drawn_salt tp) 4096 8 1 32 = Some key
        /\ encryptV2 None plaintext password cfg tp
           = Ok (blobToBase64 (envelope MOBILE_SCRYPT (drawn_salt tp) (drawn_nonce tp) key
                                        (TextEncoder_encode plaintext)),
                 tape_skip 40 tp)).
Proof.
  intros laws AL. split; [apply encryptV2_outcome; assumption|].
  intros N.
  destruct (scrypt (TextEncoder_encode password) (drawn_salt tp) 4096 8 1 32)
    as [key|] eqn:S.
  2:{ exfalso. revert S. apply (scrypt_mobile laws). }
  exists key. split; [reflexivity|].
  rewrite encryptV2_outcome by (exact laws || exact I).
  rewrite deriveKey_fallback, S; [reflexivity | exact N | reflexivity].
Qed.

Lemma X8_encryptV2_outcomes_witness :
  encryptV2 (prim := Reference.ref_primitives) (Some Reference.ref_argon2id)
            hello_world Tr0ub4dor_3
            (Some {| opt_id := None; opt_m := None; opt_t := None; opt_p := None;
                     opt_N := None; opt_r := None; opt_s_p := None;
                     opt_keyLen := Some 64 |})
            Reference.ref_tape
  = Err BadKeySize
  /\ is_Ok (encryptV2 (prim := Reference.ref_primitives) None
              hello_world Tr0ub4dor_3
              (Some {| opt_id := None; opt_m := None; opt_t := None; opt_p := None;
                       opt_N := None; opt_r := None; opt_s_p := None;
                       opt_keyLen := Some 64 |})
              Reference.ref_tape) = true.
Proof.
  split.
  - rewrite (proj1 (X8_encryptV2_outcomes (prim := Reference.ref_primitives)
               (Some Reference.ref_argon2id) hello_world Tr0ub4dor_3 _ Reference.ref_tape
               ref_laws ref_argon2_law)).
    reflexivity.
  - destruct (proj2 (X8_encryptV2_outcomes (prim := Reference.ref_primitives)
                None hello_world Tr0ub4dor_3
                (Some {| opt_id := None; opt_m := None; opt_t := None; opt_p := None;
                         opt_N := None; opt_r := None; opt_s_p := None;
                         opt_keyLen := Some 64 |})
                Reference.ref_tape ref_laws no_argon2_law) ltac:(discriminate))
      as [key [_ E]].
    rewrite E. reflexivity.
Defined.

(** X9: with the primitives as assumed, the errors of [decryptV2] are
    the four of the header, 'Key derivation failed' and 'Decryption
    failed: incorrect password or corrupted data'; in particular the
    key handed to tweetnacl always has 32 bytes and the nonce 24. *)
Theorem X9_decryptV2_errors {prim : Primitives} (argon2 : capability)
    (b64 password : jsstring) (e : error) :
  PrimitiveLaws prim -> Argon2Law argon2 ->
  decryptV2 argon2 b64 password = Err e ->
  e = BlobTooShort
  \/ e = InvalidMagic (TextDecoder_decode (firstn 3 (base64ToBlob b64)))
  \/ (exists v, e = UnsupportedVersion v)
  \/ (exists v, e = UnknownKdfIdByte v)
  \/ e = KeyDerivationFailed
  \/ e = DecryptionFailedV2.
Proof. intros laws AL. apply decryptV2_error; assumption. Qed.

Lemma X9_decryptV2_errors_witness :
  exists e,
    decryptV2 (prim := Reference.ref_primitives) None (blobToBase64 bare_header)
              hello_world = Err e
    /\ (e = BlobTooShort
        \/ e = InvalidMagic
                 (TextDecoder_decode (firstn 3 (base64ToBlob (blobToBase64 bare_header))))
        \/ (exists v, e = UnsupportedVersion v)
        \/ (exists v, e = UnknownKdfIdByte v)
        \/ e = KeyDerivationFailed
        \/ e = DecryptionFailedV2).
Proof.
  destruct (decryptV2 (prim := Reference.ref_primitives) None (blobToBase64 bare_header)
              hello_world) as [s|e] eqn:D; [vm_compute in D; discriminate D|].
  exists e. split; [reflexivity|].
  exact (X9_decryptV2_errors (prim := Reference.ref_primitives) None _ _ e
           ref_laws no_argon2_law D).
Defined.

(** ** Blobs of the two formats *)

Section Formats.
Context {prim : Primitives}.

Lemma envelope_nonempty (config : KdfConfig) (salt0 nonce0 key msg : bytes) :
  envelope config salt0 nonce0 key msg <> [].
Proof.
  unfold envelope, header_bytes.
  destruct (active_params config) as [[pa pb] pd]. discriminate.
Qed.

Lemma parseHeader_envelope (config : KdfConfig) (salt0 nonce0 key msg : bytes) :
  length salt0 = 16%nat -> length nonce0 = 24%nat ->
  parseHeader (base64ToBlob (blobToBase64 (envelope config salt0 nonce0 key msg)))
  = Ok ({| magic := MAGIC; version := VERSION; kdfId := kdf_id config;
           kdfConfig := recorded config; salt := salt0; nonce := nonce0 |},
        crypto_secretbox msg nonce0 key).
Proof.
  intros Ls Ln. unfold base64ToBlob, blobToBase64.
  rewrite fromBase64_toBase64. unfold envelope.
  apply parseHeader_header_bytes; assumption.
Qed.

Lemma getKdfInfo_envelope (config : KdfConfig) (salt0 nonce0 key msg : bytes) :
  length salt0 = 16%nat -> length nonce0 = 24%nat ->
  getKdfInfo (blobToBase64 (envelope config salt0 nonce0 key msg))
  = Some (kdf_id config, recorded config).
Proof.
  intros Ls Ln. unfold getKdfInfo.
  rewrite parseHeader_envelope by assumption. reflexivity.
Qed.

(** What the legacy encryption returns. *)
Lemma encryptToBase64Legacy_ok (plaintext password : jsstring) (tp : tape) :
  PrimitiveLaws prim ->
  exists key,
    scrypt (TextEncoder_encode password) (drawn_salt tp) 4096 8 1 32 = Some key
    /\ length key = 32%nat
    /\ encryptToBase64Legacy plaintext password tp
       = Ok (toBase64 (legacy_envelope (drawn_salt tp) (drawn_nonce tp) key
                                       (TextEncoder_encode plaintext)),
             tape_after tp).
Proof.
  intros laws.
  destruct (scrypt (TextEncoder_encode password) (drawn_salt tp) 4096 8 1 32)
    as [key|] eqn:S.
  2:{ exfalso. revert S. apply (scrypt_mobile laws). }
  assert (length key = 32%nat) as Lk by (apply (scrypt_length laws) in S; lia).
  exists key. split; [reflexivity|]. split; [exact Lk|].
  rewrite encryptToBase64Legacy_eq.
  unfold deriveKeyLegacy, SCRYPT_N, SCRYPT_r, SCRYPT_p, KEY_LEN.
  change (2 ^ 12) with 4096. rewrite S. cbn [of_option].
  rewrite checkLengths_ok by (exact Lk || apply drawn_nonce_length).
  reflexivity.
Qed.

(** The legacy decryption of a legacy blob with a plaintext that is not
    empty. *)
Lemma decryptFromBase64_envelope (password : jsstring) (salt0 nonce0 key msg : bytes) :
  PrimitiveLaws prim ->
  length salt0 = 16%nat -> length nonce0 = 24%nat -> length key = 32%nat ->
  msg <> [] ->
  scrypt (TextEncoder_encode password) salt0 4096 8 1 32 = Some key ->
  decryptFromBase64 (toBase64 (legacy_envelope salt0 nonce0 key msg)) password
  = Ok (TextDecoder_decode msg).
Proof.
  intros laws Ls Ln Lk NE S. unfold decryptFromBase64.
  rewrite fromBase64_toBase64.
  rewrite legacy_envelope_length by assumption.
  replace (56 + length msg <=? SALT_LEN + NONCE_LEN + 16)%nat with false.
  2:{ symmetry. apply Nat.leb_gt. unfold SALT_LEN, NONCE_LEN.
      destruct msg; [congruence | cbn; lia]. }
  explode salt0 Ls. explode nonce0 Ln.
  unfold legacy_envelope, slice, slice_from, SALT_LEN, NONCE_LEN.
  cbn [app Nat.add skipn firstn Nat.sub].
  unfold deriveKeyLegacy, SCRYPT_N, SCRYPT_r, SCRYPT_p, KEY_LEN.
  change (2 ^ 12) with 4096. rewrite S. cbn [of_option rbind].
  unfold nacl_secretbox_open. rewrite checkLengths_ok by (exact Lk || reflexivity).
  cbn [rbind].
  rewrite (secretbox_length laws) by (exact Lk || reflexivity).
  replace (length msg + 16 <? 16)%nat with false by (symmetry; apply Nat.ltb_ge; lia).
  rewrite (secretbox_open_box laws) by (exact Lk || reflexivity).
  reflexivity.
Qed.

End Formats.

(** X1: the legacy pair is a round trip on every plaintext that is not
    empty: [encryptToBase64Legacy] succeeds, reads 40 bytes of
    randomness and returns the base64 text of salt, nonce and box, 56
    bytes more than the plaintext's encoding, and [decryptFromBase64]
    under the same password returns the plaintext as the decoder reads
    its encoding back, the plaintext itself when it is well formed and
    does not begin with U+FEFF. *)
Theorem X1_legacy_round_trip {prim : Primitives} (plaintext password : jsstring)
    (tp : tape) :
  PrimitiveLaws prim -> TextEncoder_encode plaintext <> [] ->
  exists b64,
    encryptToBase64Legacy plaintext password tp = Ok (b64, tape_skip 40 tp)
    /\ length (fromBase64 b64) = (56 + length (TextEncoder_encode plaintext))%nat
    /\ firstn 16 (fromBase64 b64) = map tp (seq 0 16)
    /\ decryptFromBase64 b64 password
       = Ok (TextDecoder_decode (TextEncoder_encode plaintext))
    /\ (transcodable plaintext = true -> decryptFromBase64 b64 password = Ok plaintext).
Proof.
  intros laws NE.
  destruct (encryptToBase64Legacy_ok plaintext password tp laws) as [key [S [Lk E]]].
  eexists. split; [exact E|].
  assert (decryptFromBase64
            (toBase64 (legacy_envelope (drawn_salt tp) (drawn_nonce tp) key
                                       (TextEncoder_encode plaintext))) password
          = Ok (TextDecoder_decode (TextEncoder_encode plaintext))) as D.
  { apply decryptFromBase64_envelope;
      assumption || apply drawn_salt_length || apply drawn_nonce_length. }
  rewrite fromBase64_toBase64.
  split; [|split; [|split]].
  - apply legacy_envelope_length;
      assumption || apply drawn_salt_length || apply drawn_nonce_length.
  - reflexivity.
  - exact D.
  - intros T. rewrite D, TextDecoder_TextEncoder by exact T. reflexivity.
Qed.

Lemma X1_legacy_round_trip_witness :
  exists b64,
    encryptToBase64Legacy (prim := Reference.ref_primitives) hello_world Tr0ub4dor_3
                          Reference.ref_tape
    = Ok (b64, tape_skip 40 Reference.ref_tape)
    /\ decryptFromBase64 (prim := Reference.ref_primitives) b64 Tr0ub4dor_3
       = Ok hello_world.
Proof.
  destruct (X1_legacy_round_trip (prim := Reference.ref_primitives)
              hello_world Tr0ub4dor_3 Reference.ref_tape ref_laws ltac:(discriminate))
    as [b64 [E [_ [_ [_ D]]]]].
  exists b64. split; [exact E|]. apply D. reflexivity.
Defined.

(** X2: a legacy blob with a plaintext that is not empty, whose salt
    does not happen to begin with the bytes of 'SS1', goes through
    [decryptAuto]: [getKdfInfo] reports no header, [decryptV2] rejects
    the blob for its magic, and the legacy decryption that follows
    returns the plaintext. *)
Theorem X2_legacy_through_auto {prim : Primitives} (argon2 : capability)
    (plaintext password : jsstring) (tp : tape) :
  PrimitiveLaws prim -> TextEncoder_encode plaintext <> [] ->
  firstn 3 (drawn_salt tp) <> TextEncoder_encode MAGIC ->
  exists b64 tp',
    encryptToBase64Legacy plaintext password tp = Ok (b64, tp')
    /\ getKdfInfo b64 = None
    /\ decryptV2 argon2 b64 password
       = Err (InvalidMagic (TextDecoder_decode (firstn 3 (drawn_salt tp))))
    /\ decryptAuto argon2 b64 password
       = Ok (TextDecoder_decode (TextEncoder_encode plaintext)).
Proof.
  intros laws NE M.
  destruct (encryptToBase64Legacy_ok plaintext password tp laws) as [key [S [Lk E]]].
  eexists _, _. split; [exact E|].
  assert (parseHeader (base64ToBlob
            (toBase64 (legacy_envelope (drawn_salt tp) (drawn_nonce tp) key
                                       (TextEncoder_encode plaintext))))
          = Err (InvalidMagic (TextDecoder_decode (firstn 3 (drawn_salt tp))))) as P.
  { unfold base64ToBlob. rewrite fromBase64_toBase64.
    rewrite parseHeader_bad_magic.
    - reflexivity.
    - rewrite legacy_envelope_length
        by (assumption || apply drawn_salt_length || apply drawn_nonce_length).
      destruct (TextEncoder_encode plaintext); [congruence | cbn [length]; lia].
    - exact M. }
  assert (decryptV2 argon2
            (toBase64 (legacy_envelope (drawn_salt tp) (drawn_nonce tp) key
                                       (TextEncoder_encode plaintext))) password
          = Err (InvalidMagic (TextDecoder_decode (firstn 3 (drawn_salt tp))))) as V.
  { unfold decryptV2. rewrite P. reflexivity. }
  split; [unfold getKdfInfo; rewrite P; reflexivity|].
  split; [exact V|].
  rewrite decryptAuto_eq, V.
  rewrite decryptFromBase64_envelope;
    try (assumption || apply drawn_salt_length || apply drawn_nonce_length).
  reflexivity.
Qed.

Lemma X2_legacy_through_auto_witness :
  exists b64 tp',
    encryptToBase64Legacy (prim := Reference.ref_primitives) hello_world Tr0ub4dor_3
                          Reference.ref_tape
    = Ok (b64, tp')
    /\ getKdfInfo b64 = None
    /\ decryptAuto (prim := Reference.ref_primitives) (Some Reference.ref_argon2id)
                   b64 Tr0ub4dor_3
       = Ok hello_world.
Proof.
  destruct (X2_legacy_through_auto (prim := Reference.ref_primitives)
              (Some Reference.ref_argon2id) hello_world Tr0ub4dor_3 Reference.ref_tape
              ref_laws ltac:(discriminate) ltac:(discriminate))
    as [b64 [tp' [E [G [_ D]]]]].
  exists b64, tp'. split; [exact E|]. split; [exact G | exact D].
Defined.

(** X3: [getKdfInfo] on what [encryptV2] returns without a KDF request
    names the KDF that derived the key and its parameters: the id and
    configuration that [deriveKey] returned, Argon2id with its defaults
    or scrypt with the mobile parameters, and scrypt wherever Argon2id
    is not at hand; it never reports an unknown KDF for such a blob. *)
Theorem X3_getKdfInfo {prim : Primitives} (argon2 : capability)
    (plaintext password : jsstring) (tp : tape) :
  PrimitiveLaws prim -> Argon2Law argon2 ->
  exists b64 key config,
    encryptV2 argon2 plaintext password None tp = Ok (b64, tape_skip 40 tp)
    /\ deriveKey argon2 password (drawn_salt tp) None = Ok (key, config)
    /\ getKdfInfo b64 = Some (kdf_id config, config)
    /\ (config = DEFAULT_ARGON2ID \/ config = MOBILE_SCRYPT)
    /\ (argon2 = None -> config = MOBILE_SCRYPT).
Proof.
  intros laws AL.
  destruct (encryptV2_default argon2 plaintext password tp laws AL)
    as [key [config [D [Lk [E _]]]]].
  destruct (deriveKey_default _ _ _ _ _ D) as [C _].
  eexists _, key, config. split; [exact E|]. split; [exact D|].
  split; [|split; [exact C|]].
  - rewrite getKdfInfo_envelope by (apply drawn_salt_length || apply drawn_nonce_length).
    destruct C as [-> | ->]; reflexivity.
  - intros ->. destruct C as [-> | ->]; [|reflexivity].
    apply deriveKey_inv in D. cbn [kdf_id DEFAULT_ARGON2ID] in D.
    destruct D as [f [F _]]. discriminate F.
Qed.

Lemma X3_getKdfInfo_witness :
  exists b64 key,
    encryptV2 (prim := Reference.ref_primitives) (Some Reference.ref_argon2id)
              hello_world Tr0ub4dor_3 None Reference.ref_tape
    = Ok (b64, tape_skip 40 Reference.ref_tape)
    /\ deriveKey (prim := Reference.ref_primitives) (Some Reference.ref_argon2id)
                 Tr0ub4dor_3 (drawn_salt Reference.ref_tape) None
       = Ok (key, DEFAULT_ARGON2ID)
    /\ getKdfInfo b64 = Some (Argon2id_id, DEFAULT_ARGON2ID).
Proof.
  destruct (X3_getKdfInfo (prim := Reference.ref_primitives)
              (Some Reference.ref_argon2id) hello_world Tr0ub4dor_3 Reference.ref_tape
              ref_laws ref_argon2_law)
    as [b64 [key [config [E [D [G _]]]]]].
  assert (config = DEFAULT_ARGON2ID) as ->.
  { vm_compute in D. injection D as _ <-. reflexivity. }
  exists b64, key. split; [exact E|]. split; [exact D | exact G].
Defined.

(** X10: an encryption whose resolved configuration the header keeps
    whole can be undone: [encryptV2] succeeds, [getKdfInfo] reads that
    configuration back, and [decryptV2] in the same environment and
    under the same password returns the plaintext as the decoder reads
    its encoding back; when the configuration is one of scrypt, so does
    [decryptV2] in every environment. *)
Theorem X10_request_round_trip {prim : Primitives} (argon2 : capability)
    (plaintext password : jsstring) (cfg : option PartialKdfConfig) (tp : tape)
    (key : bytes) (config : KdfConfig) :
  PrimitiveLaws prim -> Argon2Law argon2 ->
  deriveKey argon2 password (drawn_salt tp) cfg = Ok (key, config) ->
  header_exact config ->
  exists b64,
    encryptV2 argon2 plaintext password cfg tp = Ok (b64, tape_skip 40 tp)
    /\ getKdfInfo b64 = Some (kdf_id config, config)
    /\ decryptV2 argon2 b64 password
       = Ok (TextDecoder_decode (TextEncoder_encode plaintext))
    /\ (kdf_id config = Scrypt_id ->
        forall other : capability,
          decryptV2 other b64 password
          = Ok (TextDecoder_decode (TextEncoder_encode plaintext))).
Proof.
  intros laws AL D X.
  pose proof (deriveKey_length _ _ _ _ _ _ laws AL D) as Lz.
  assert (length key = 32%nat) as Lk by (destruct X as [K _]; lia).
  eexists. split.
  { rewrite encryptV2_outcome, D by assumption.
    replace (kdf_keyLen config =? 32) with true
      by (symmetry; apply Z.eqb_eq; destruct X as [K _]; exact K).
    reflexivity. }
  split.
  { rewrite getKdfInfo_envelope by (apply drawn_salt_length || apply drawn_nonce_length).
    rewrite (header_exact_recorded config X). reflexivity. }
  split.
  - apply decryptV2_envelope with (config' := config);
      try (assumption || apply drawn_salt_length || apply drawn_nonce_length).
    rewrite (header_exact_recorded config X).
    exact (deriveKey_replay _ _ _ _ _ _ D).
  - intros I other.
    apply decryptV2_envelope with (config' := config);
      try (assumption || apply drawn_salt_length || apply drawn_nonce_length).
    rewrite (header_exact_recorded config X).
    rewrite deriveKey_scrypt_header by exact I.
    pose proof (deriveKey_inv _ _ _ _ _ _ D) as K. rewrite I in K.
    rewrite K. reflexivity.
Qed.

Lemma X10_request_round_trip_witness :
  exists b64,
    encryptV2 (prim := Reference.ref_primitives) (Some Reference.ref_argon2id)
              hello_world Tr0ub4dor_3
              (Some {| opt_id := Some Scrypt_id; opt_m := None; opt_t := None;
                       opt_p := None; opt_N := Some 1024; opt_r := None;
                       opt_s_p := None; opt_keyLen := None |})
              Reference.ref_tape
    = Ok (b64, tape_skip 40 Reference.ref_tape)
    /\ decryptV2 (prim := Reference.ref_primitives) None b64 Tr0ub4dor_3
       = Ok hello_world.
Proof.
  destruct (deriveKey (prim := Reference.ref_primitives) (Some Reference.ref_argon2id)
              Tr0ub4dor_3 (drawn_salt Reference.ref_tape)
              (Some {| opt_id := Some Scrypt_id; opt_m := None; opt_t := None;
                       opt_p := None; opt_N := Some 1024; opt_r := None;
                       opt_s_p := None; opt_keyLen := None |}))
    as [[key config]|e] eqn:D; [|vm_compute in D; discriminate D].
  assert (config = {| kdf_id := Scrypt_id; kdf_m := 0; kdf_t := 0; kdf_p := 0;
                      kdf_N := 1024; kdf_r := 8; kdf_s_p := 1; kdf_keyLen := 32 |}) as C.
  { vm_compute in D. injection D as _ <-. reflexivity. }
  assert (header_exact config) as X.
  { rewrite C. unfold header_exact, uint32. cbn. lia. }
  destruct (X10_request_round_trip (prim := Reference.ref_primitives)
              (Some Reference.ref_argon2id) hello_world Tr0ub4dor_3 _ Reference.ref_tape
              key config ref_laws ref_argon2_law D X)
    as [b64 [E [_ [_ O]]]].
  exists b64. split; [exact E|].
  apply O. rewrite C. reflexivity.
Defined.

(** X11: a blob that Argon2id encrypted, opened where Argon2id is not at
    hand: the header still names Argon2id, [decryptV2] derives the key
    with scrypt under the mobile parameters without saying so, and its
    result is whatever opening the box under that key gives, the
    plaintext or 'Decryption failed: incorrect password or corrupted
    data'. *)
Theorem X11_without_argon2 {prim : Primitives} (argon2Lib : Argon2id)
    (plaintext password : jsstring) (tp : tape) (key : bytes) :
  PrimitiveLaws prim -> Argon2Law (Some argon2Lib) ->
  argon2Lib password (drawn_salt tp) 1 2 19456 32 = Some key ->
  exists b64 key',
    encryptV2 (Some argon2Lib) plaintext password None tp = Ok (b64, tape_skip 40 tp)
    /\ getKdfInfo b64 = Some (Argon2id_id, DEFAULT_ARGON2ID)
    /\ scrypt (TextEncoder_encode password) (drawn_salt tp) 4096 8 1 32 = Some key'
    /\ decryptV2 None b64 password
       = match crypto_secretbox_open
                 (crypto_secretbox (TextEncoder_encode plaintext) (drawn_nonce tp) key)
                 (drawn_nonce tp) key' with
         | Some plain => Ok (TextDecoder_decode plain)
         | None => Err DecryptionFailedV2
         end.
Proof.
  intros laws AL F.
  assert (deriveKey (Some argon2Lib) password (drawn_salt tp) None
          = Ok (key, DEFAULT_ARGON2ID)) as D.
  { unfold deriveKey. cbn [spread DEFAULT_ARGON2ID kdf_id KdfId_eqb orb
                           deriveKeyArgon2id kdf_p kdf_t kdf_m kdf_keyLen].
    change (19 * 1024) with 19456. rewrite F. reflexivity. }
  assert (length key = 32%nat) as Lk by (apply AL in F; lia).
  destruct (scrypt (TextEncoder_encode password) (drawn_salt tp) 4096 8 1 32)
    as [key'|] eqn:S.
  2:{ exfalso. revert S. apply (scrypt_mobile laws). }
  assert (length key' = 32%nat) as Lk' by (apply (scrypt_length laws) in S; lia).
  eexists _, key'. split.
  { rewrite encryptV2_outcome, D by assumption. reflexivity. }
  split.
  { rewrite getKdfInfo_envelope by (apply drawn_salt_length || apply drawn_nonce_length).
    reflexivity. }
  split; [reflexivity|].
  unfold decryptV2.
  rewrite parseHeader_envelope by (apply drawn_salt_length || apply drawn_nonce_length).
  cbn [rbind salt nonce kdfConfig].
  rewrite deriveKey_fallback, S; [|discriminate | reflexivity].
  cbn [rbind]. unfold nacl_secretbox_open.
  rewrite checkLengths_ok by (exact Lk' || apply drawn_nonce_length).
  cbn [rbind].
  rewrite (secretbox_length laws) by (exact Lk || apply drawn_nonce_length).
  replace (length (TextEncoder_encode plaintext) + 16 <? 16)%nat with false
    by (symmetry; apply Nat.ltb_ge; lia).
  destruct (crypto_secretbox_open _ _ _); reflexivity.
Qed.

Lemma X11_without_argon2_witness :
  exists b64,
    encryptV2 (prim := Reference.ref_primitives) (Some Reference.ref_argon2id)
              hello_world Tr0ub4dor_3 None Reference.ref_tape
    = Ok (b64, tape_skip 40 Reference.ref_tape)
    /\ getKdfInfo b64 = Some (Argon2id_id, DEFAULT_ARGON2ID)
    /\ decryptV2 (prim := Reference.ref_primitives) None b64 Tr0ub4dor_3
       = Err DecryptionFailedV2.
Proof.
  destruct (Reference.ref_argon2id Tr0ub4dor_3 (drawn_salt Reference.ref_tape)
              1 2 19456 32) as [key|] eqn:F; [|vm_compute in F; discriminate F].
  destruct (X11_without_argon2 (prim := Reference.ref_primitives) Reference.ref_argon2id
              hello_world Tr0ub4dor_3 Reference.ref_tape key ref_laws ref_argon2_law F)
    as [b64 [key' [E [G [S V]]]]].
  exists b64. split; [exact E|]. split; [exact G|].
  rewrite V. vm_compute in F. injection F as <-.
  vm_compute in S. injection S as <-. reflexivity.
Defined.

(** ** Randomness *)

(** X12: the three layers of [tripleEncryptV2] each draw their own salt
    and nonce: 120 bytes of randomness are read in all, and the header
    of the first, second and third layer carries bytes 0 to 39, 40 to 79
    and 80 to 119 of them, the salt before the nonce. *)
Theorem X12_fresh_randomness {prim : Primitives} (argon2 : capability)
    (seedPhrase pass1 pass2 pass3 : jsstring) (tp : tape) :
  PrimitiveLaws prim -> Argon2Law argon2 ->
  exists layer1 layer2 layer3 h1 c1 h2 c2 h3 c3,
    encryptV2 argon2 seedPhrase pass1 None tp = Ok (layer1, tape_skip 40 tp)
    /\ encryptV2 argon2 layer1 pass2 None (tape_skip 40 tp) = Ok (layer2, tape_skip 80 tp)
    /\ encryptV2 argon2 layer2 pass3 None (tape_skip 80 tp) = Ok (layer3, tape_skip 120 tp)
    /\ tripleEncryptV2 argon2 seedPhrase pass1 pass2 pass3 tp
       = Ok (layer3, tape_skip 120 tp)
    /\ parseHeader (base64ToBlob layer1) = Ok (h1, c1)
    /\ parseHeader (base64ToBlob layer2) = Ok (h2, c2)
    /\ parseHeader (base64ToBlob layer3) = Ok (h3, c3)
    /\ salt h1 = map tp (seq 0 16) /\ nonce h1 = map tp (seq 16 24)
    /\ salt h2 = map tp (seq 40 16) /\ nonce h2 = map tp (seq 56 24)
    /\ salt h3 = map tp (seq 80 16) /\ nonce h3 = map tp (seq 96 24).
Proof.
  intros laws AL.
  destruct (encryptV2_default argon2 seedPhrase pass1 tp laws AL)
    as [k1 [g1 [_ [_ [E1 _]]]]].
  set (layer1 := blobToBase64 (envelope g1 (drawn_salt tp) (drawn_nonce tp) k1
                                 (TextEncoder_encode seedPhrase))) in *.
  destruct (encryptV2_default argon2 layer1 pass2 (tape_after tp) laws AL)
    as [k2 [g2 [_ [_ [E2 _]]]]].
  set (layer2 := blobToBase64 (envelope g2 (drawn_salt (tape_after tp))
                                 (drawn_nonce (tape_after tp)) k2
                                 (TextEncoder_encode layer1))) in *.
  destruct (encryptV2_default argon2 layer2 pass3 (tape_after (tape_after tp)) laws AL)
    as [k3 [g3 [_ [_ [E3 _]]]]].
  set (layer3 := blobToBase64 (envelope g3 (drawn_salt (tape_after (tape_after tp)))
                                 (drawn_nonce (tape_after (tape_after tp))) k3
                                 (TextEncoder_encode layer2))) in *.
  exists layer1, layer2, layer3.
  eexists _, _, _, _, _, _.
  split; [exact E1|]. split; [exact E2|]. split; [exact E3|].
  split.
  { unfold tripleEncryptV2, mbind. rewrite E1, E2, E3. reflexivity. }
  split; [apply parseHeader_envelope; apply drawn_salt_length || apply drawn_nonce_length|].
  split; [apply parseHeader_envelope; apply drawn_salt_length || apply drawn_nonce_length|].
  split; [apply parseHeader_envelope; apply drawn_salt_length || apply drawn_nonce_length|].
  repeat split.
Qed.

Lemma X12_fresh_randomness_witness :
  exists layer3 h3 c3,
    tripleEncryptV2 (prim := Reference.ref_primitives) None
                    hello_world Tr0ub4dor_3 hello_world Tr0ub4dor_3 Reference.ref_tape
    = Ok (layer3, tape_skip 120 Reference.ref_tape)
    /\ parseHeader (base64ToBlob layer3) = Ok (h3, c3)
    /\ salt h3 = map Reference.ref_tape (seq 80 16).
Proof.
  destruct (X12_fresh_randomness (prim := Reference.ref_primitives) None
              hello_world Tr0ub4dor_3 hello_world Tr0ub4dor_3 Reference.ref_tape
              ref_laws no_argon2_law)
    as (l1 & l2 & l3 & h1 & c1 & h2 & c2 & h3 & c3
        & _ & _ & _ & T & _ & _ & P & _ & _ & _ & _ & S & _).
  exists l3, h3, c3. split; [exact T|]. split; [exact P | exact S].
Defined.

(** X13: where Argon2id is not at hand the versioned format is the
    legacy one behind a 17-byte prefix: the key of [deriveKey] is the
    key of the legacy derivation, and on the same randomness the blob of
    [encryptV2] is 'SS1', version 1, KDF id 2 and the numbers 4096, 8, 1
    followed by the blob of [encryptToBase64Legacy]. *)
Theorem X13_fallback_is_legacy {prim : Primitives} (plaintext password : jsstring)
    (tp : tape) :
  PrimitiveLaws prim ->
  exists key v2 legacy,
    deriveKeyLegacy password (drawn_salt tp) = Ok key
    /\ deriveKey None password (drawn_salt tp) None = Ok (key, MOBILE_SCRYPT)
    /\ encryptV2 None plaintext password None tp = Ok (v2, tape_skip 40 tp)
    /\ encryptToBase64Legacy plaintext password tp = Ok (legacy, tape_skip 40 tp)
    /\ base64ToBlob v2
       = [x53; x53; x31; x01; x02; x00; x10; x00; x00; x08; x00; x00; x00;
          x01; x00; x00; x00] ++ fromBase64 legacy.
Proof.
  intros laws.
  destruct (encryptToBase64Legacy_ok plaintext password tp laws) as [key [S [Lk E]]].
  assert (deriveKey None password (drawn_salt tp) None = Ok (key, MOBILE_SCRYPT)) as D.
  { rewrite deriveKey_fallback, S; [reflexivity | discriminate | reflexivity]. }
  exists key. eexists _, _.
  split.
  { unfold deriveKeyLegacy, SCRYPT_N, SCRYPT_r, SCRYPT_p, KEY_LEN.
    change (2 ^ 12) with 4096. rewrite S. reflexivity. }
  split; [exact D|].
  split.
  { rewrite encryptV2_outcome, D by (exact laws || exact I). reflexivity. }
  split; [exact E|].
  unfold base64ToBlob, blobToBase64. rewrite !fromBase64_toBase64.
  reflexivity.
Qed.

Lemma X13_fallback_is_legacy_witness :
  exists v2 legacy,
    encryptV2 (prim := Reference.ref_primitives) None hello_world Tr0ub4dor_3 None
              Reference.ref_tape
    = Ok (v2, tape_skip 40 Reference.ref_tape)
    /\ encryptToBase64Legacy (prim := Reference.ref_primitives) hello_world Tr0ub4dor_3
                             Reference.ref_tape
       = Ok (legacy, tape_skip 40 Reference.ref_tape)
    /\ skipn 17 (base64ToBlob v2) = fromBase64 legacy.
Proof.
  destruct (X13_fallback_is_legacy (prim := Reference.ref_primitives)
              hello_world Tr0ub4dor_3 Reference.ref_tape ref_laws)
    as [key [v2 [legacy [_ [_ [E [L B]]]]]]].
  exists v2, legacy. split; [exact E|]. split; [exact L|].
  rewrite B. reflexivity.
Defined.

(** ** The header, whatever the sizes and numbers *)

Lemma byte_of_Z_congr (x y : Z) : x mod 256 = y mod 256 -> byte_of_Z x = byte_of_Z y.
Proof.
  intros E. apply Z_of_byte_inj. rewrite !Z_of_byte_of_Z_mod. exact E.
Qed.

Lemma le32_mod (v : Z) : le32 (v mod 2 ^ 32) = le32 v.
Proof.
  unfold le32. change (2 ^ 32) with 4294967296.
  f_equal; [|f_equal; [|f_equal; [|f_equal]]]; apply byte_of_Z_congr; lia.
Qed.

Lemma le32_bytes (a b c d : byte) :
  le32 (Z_of_byte a + 256 * Z_of_byte b + 65536 * Z_of_byte c + 16777216 * Z_of_byte d)
  = [a; b; c; d].
Proof.
  pose proof (Z_of_byte_range a) as Ra. pose proof (Z_of_byte_range b) as Rb.
  pose proof (Z_of_byte_range c) as Rc. pose proof (Z_of_byte_range d) as Rd.
  unfold byte_range in *. unfold le32.
  f_equal; [|f_equal; [|f_equal; [|f_equal]]];
    apply Z_of_byte_inj; rewrite Z_of_byte_of_Z_mod; lia.
Qed.

Lemma u32_at_range (b : bytes) (offset : nat) : uint32 (u32_at b offset).
Proof.
  unfold uint32, u32_at. change (2 ^ 32) with 4294967296.
  pose proof (Z_of_byte_range (nth offset b x00)) as R0.
  pose proof (Z_of_byte_range (nth (offset + 1) b x00)) as R1.
  pose proof (Z_of_byte_range (nth (offset + 2) b x00)) as R2.
  pose proof (Z_of_byte_range (nth (offset + 3) b x00)) as R3.
  unfold byte_range in *. lia.
Qed.

Lemma config_of_params_exact (i : KdfId) (params : bytes) :
  header_exact (config_of_params i params).
Proof.
  unfold header_exact. destruct i; cbn; repeat split; apply u32_at_range.
Qed.

Lemma header_bytes_recorded (c : KdfConfig) (salt0 nonce0 : bytes) :
  header_bytes (recorded c) salt0 nonce0 = header_bytes c salt0 nonce0.
Proof.
  unfold header_bytes, recorded, active_params.
  destruct (kdf_id c); cbn [kdf_id kdf_m kdf_t kdf_p kdf_N kdf_r kdf_s_p];
    rewrite !le32_mod; reflexivity.
Qed.

Lemma header_bytes_split (c : KdfConfig) (salt0 nonce0 : bytes) :
  header_bytes c salt0 nonce0 = header_bytes c [] [] ++ salt0 ++ nonce0.
Proof.
  unfold header_bytes. destruct (active_params c) as [[pa pb] pd]. reflexivity.
Qed.

Lemma header_bytes_prefix_length (c : KdfConfig) : length (header_bytes c [] []) = 17%nat.
Proof.
  unfold header_bytes. destruct (active_params c) as [[pa pb] pd]. reflexivity.
Qed.

Lemma Uint8Array_set_inv (target source r : bytes) (offset : nat) :
  Uint8Array_set target source offset = Ok r ->
  (offset + length source <= length target)%nat /\ length r = length target.
Proof.
  unfold Uint8Array_set.
  destruct (Nat.leb_spec (offset + length source) (length target)) as [L|L];
    [|discriminate].
  intros E. injection E as <-. split; [exact L|].
  rewrite !length_app, length_firstn, length_skipn. lia.
Qed.

Lemma Uint8Array_set_range (target source : bytes) (offset : nat) :
  (length target < offset + length source)%nat ->
  Uint8Array_set target source offset = Err RangeError.
Proof.
  intros L. unfold Uint8Array_set.
  replace (offset + length source <=? length target)%nat with false
    by (symmetry; apply Nat.leb_gt; exact L).
  reflexivity.
Qed.

(** The first four writes of [createHeader] fill the first 17 bytes;
    the salt and the nonce are then written at offsets 17 and 33. *)
Lemma createHeader_steps (c : KdfConfig) (salt0 nonce0 : bytes) :
  createHeader c salt0 nonce0
  = rbind (Uint8Array_set (header_bytes c [] [] ++ zeros 40) salt0 17)
          (fun header => rbind (Uint8Array_set header nonce0 33) (fun header => Ok header)).
Proof.
  unfold createHeader, header_bytes. rewrite serializeKdfParams_eq.
  destruct (active_params c) as [[pa pb] pd]. reflexivity.
Qed.

Lemma zeros_skipn (n k : nat) : skipn k (zeros n) = zeros (n - k).
Proof.
  unfold zeros. revert k. induction n as [|n IH]; intros [|k]; try reflexivity.
  cbn [repeat skipn Nat.sub]. apply IH.
Qed.

Lemma zeros_app (n k : nat) : zeros n ++ zeros k = zeros (n + k).
Proof. unfold zeros. symmetry. apply repeat_app. Qed.

(** X14: [createHeader] checks no size. It succeeds exactly when the
    salt has at most 40 bytes and the nonce at most 24, and fails with
    the RangeError of [set] otherwise; what it returns always has 57
    bytes; and a salt shorter than 16 bytes or a nonce shorter than 24
    is filled up with zero bytes without notice. *)
Theorem X14_createHeader_sizes (c : KdfConfig) (salt0 nonce0 : bytes) :
  ((length salt0 <= 40)%nat /\ (length nonce0 <= 24)%nat ->
   exists header, createHeader c salt0 nonce0 = Ok header /\ length header = 57%nat)
  /\ ((40 < length salt0)%nat \/ (24 < length nonce0)%nat ->
      createHeader c salt0 nonce0 = Err RangeError)
  /\ ((length salt0 <= 16)%nat /\ (length nonce0 <= 24)%nat ->
      createHeader c salt0 nonce0
      = Ok (header_bytes c (salt0 ++ zeros (16 - length salt0))
                           (nonce0 ++ zeros (24 - length nonce0)))).
Proof.
  rewrite createHeader_steps.
  pose proof (header_bytes_prefix_length c) as Lp.
  assert (length (header_bytes c [] [] ++ zeros 40) = 57%nat) as Lh
    by (rewrite length_app, Lp; reflexivity).
  split; [|split].
  - intros [Ls Ln].
    destruct (Uint8Array_set (header_bytes c [] [] ++ zeros 40) salt0 17)
      as [h1|e] eqn:S1.
    2:{ rewrite Uint8Array_set_ok in S1 by lia. discriminate S1. }
    apply Uint8Array_set_inv in S1. destruct S1 as [_ L1].
    cbn [rbind].
    destruct (Uint8Array_set h1 nonce0 33) as [h2|e] eqn:S2.
    2:{ rewrite Uint8Array_set_ok in S2 by lia. discriminate S2. }
    apply Uint8Array_set_inv in S2. destruct S2 as [_ L2].
    exists h2. split; [reflexivity | lia].
  - intros R.
    destruct (Nat.le_gt_cases (length salt0) 40) as [Ls|Ls].
    + destruct (Uint8Array_set (header_bytes c [] [] ++ zeros 40) salt0 17)
        as [h1|e] eqn:S1.
      2:{ rewrite Uint8Array_set_ok in S1 by lia. discriminate S1. }
      apply Uint8Array_set_inv in S1. destruct S1 as [_ L1].
      cbn [rbind]. rewrite Uint8Array_set_range by lia. reflexivity.
    + rewrite Uint8Array_set_range by lia. reflexivity.
  - intros [Ls Ln].
    rewrite <- Lp at 2.
    rewrite Uint8Array_set_app by (unfold zeros; rewrite repeat_length; lia).
    cbn [rbind]. rewrite zeros_skipn.
    replace (40 - length salt0)%nat with ((16 - length salt0) + 24)%nat by lia.
    rewrite <- zeros_app.
    replace (header_bytes c [] [] ++ salt0 ++ zeros (16 - length salt0) ++ zeros 24)
      with ((header_bytes c [] [] ++ salt0 ++ zeros (16 - length salt0)) ++ zeros 24)
      by (rewrite <- !app_assoc; reflexivity).
    replace 33%nat
      with (length (header_bytes c [] [] ++ salt0 ++ zeros (16 - length salt0))).
    2:{ rewrite !length_app, Lp. unfold zeros. rewrite repeat_length. lia. }
    rewrite Uint8Array_set_app by (unfold zeros; rewrite repeat_length; lia).
    cbn [rbind]. rewrite zeros_skipn.
    rewrite (header_bytes_split c (salt0 ++ _) (nonce0 ++ _)).
    rewrite <- !app_assoc. reflexivity.
Qed.

Lemma X14_createHeader_sizes_witness :
  createHeader MOBILE_SCRYPT [x01] [x02; x03]
  = Ok (header_bytes MOBILE_SCRYPT ([x01] ++ zeros 15) ([x02; x03] ++ zeros 22))
  /\ createHeader MOBILE_SCRYPT (zeros 16) (zeros 25) = Err RangeError.
Proof.
  split.
  - apply (proj2 (proj2 (X14_createHeader_sizes MOBILE_SCRYPT [x01] [x02; x03]))).
    cbn [length]. lia.
  - apply (proj1 (proj2 (X14_createHeader_sizes MOBILE_SCRYPT (zeros 16) (zeros 25)))).
    right. cbn [length zeros repeat]. lia.
Defined.

(** X15: a header is kept by a second pass. For every blob that
    [parseHeader] accepts, the configuration read is one the header
    keeps whole, [createHeader] on the configuration, salt and nonce
    read gives the first 57 bytes of the blob again, and [createBlob] on
    them and the ciphertext read gives the blob. *)
Theorem X15_parse_then_create (blob : bytes) (h : CryptoHeader) (ciphertext : bytes) :
  parseHeader blob = Ok (h, ciphertext) ->
  header_exact (kdfConfig h)
  /\ createHeader (kdfConfig h) (salt h) (nonce h) = Ok (firstn 57 blob)
  /\ createBlob (firstn 57 blob) ciphertext = Ok blob.
Proof.
  intros P.
  destruct (parseHeader_inv _ _ _ P) as [L [M [V [i [K [-> ->]]]]]].
  unfold HEADER_SIZE in L. cbn [Nat.add] in L.
  split; [apply config_of_params_exact|].
  split.
  2:{ rewrite createBlob_eq. unfold HEADER_SIZE. cbn [Nat.add].
      rewrite firstn_skipn. reflexivity. }
  rewrite createHeader_eq by (apply parsed_header_salt || apply parsed_header_nonce; exact L).
  rewrite <- (firstn_skipn 57 blob) in M, V, K.
  unfold parsed_header. cbn [kdfConfig salt nonce].
  rewrite <- (firstn_skipn 57 blob) at 1 2 3.
  assert (length (firstn 57 blob) = 57%nat) as Lf by (rewrite length_firstn; lia).
  destruct (firstn 57 blob) as [|b0 hd]; [discriminate Lf|].
  destruct hd as [|b1 hd]; [discriminate Lf|].
  destruct hd as [|b2 hd]; [discriminate Lf|].
  destruct hd as [|b3 hd]; [discriminate Lf|].
  destruct hd as [|b4 hd]; [discriminate Lf|].
  cbn [app firstn] in M. rewrite magic_bytes in M.
  apply cons_eq_inv in M. destruct M as [-> M].
  apply cons_eq_inv in M. destruct M as [-> M].
  apply cons_eq_inv in M. destruct M as [-> _].
  cbn [app nth_error] in V, K. injection V as ->. injection K as ->.
  cbn [length] in Lf. do 5 apply eq_add_S in Lf.
  explode hd Lf.
  unfold slice, header_bytes.
  destruct i; cbn [app skipn firstn Nat.sub config_of_params active_params
                   kdf_id kdf_m kdf_t kdf_p kdf_N kdf_r kdf_s_p];
    unfold u32_at; cbn [nth Nat.add]; rewrite !le32_bytes; reflexivity.
Qed.

Lemma X15_parse_then_create_witness :
  createBlob (firstn 57 (bare_header ++ [x2a])) [x2a] = Ok (bare_header ++ [x2a]).
Proof.
  destruct (parseHeader (bare_header ++ [x2a])) as [[h c]|e] eqn:P;
    [|vm_compute in P; discriminate P].
  assert (c = [x2a]) as C by (vm_compute in P; injection P as _ <-; reflexivity).
  rewrite <- C at 2.
  exact (proj2 (proj2 (X15_parse_then_create _ h c P))).
Defined.

(** X16: the header of a configuration depends on its id and its three
    active numbers modulo 2^32 only: for every configuration, every
    16-byte salt and every 24-byte nonce, [createHeader] gives the same
    57 bytes for the configuration and for what the header keeps of it,
    and [parseHeader] reads those bytes, whatever ciphertext follows, as
    what the header keeps; that is a configuration the header keeps
    whole. *)
Theorem X16_header_keeps (c : KdfConfig) (salt0 nonce0 ciphertext : bytes) :
  length salt0 = 16%nat -> length nonce0 = 24%nat ->
  exists header,
    createHeader c salt0 nonce0 = Ok header
    /\ createHeader (recorded c) salt0 nonce0 = Ok header
    /\ parseHeader (header ++ ciphertext)
       = Ok ({| magic := MAGIC; version := VERSION; kdfId := kdf_id c;
                kdfConfig := recorded c; salt := salt0; nonce := nonce0 |}, ciphertext)
    /\ header_exact (recorded c).
Proof.
  intros Ls Ln. exists (header_bytes c salt0 nonce0).
  split; [apply createHeader_eq; assumption|].
  split; [rewrite createHeader_eq, header_bytes_recorded by assumption; reflexivity|].
  split; [apply parseHeader_header_bytes; assumption|].
  rewrite <- (config_of_params_le32 c). apply config_of_params_exact.
Qed.

Lemma X16_header_keeps_witness :
  exists header h,
    createHeader (with_keyLen {| kdf_id := Scrypt_id; kdf_m := 7; kdf_t := 7; kdf_p := 7;
                                 kdf_N := 2 ^ 32 + 4096; kdf_r := 8; kdf_s_p := 1;
                                 kdf_keyLen := 32 |} 64)
                 (zeros 16) (zeros 24) = Ok header
    /\ parseHeader (header ++ [x2a]) = Ok (h, [x2a])
    /\ kdfConfig h = MOBILE_SCRYPT.
Proof.
  destruct (X16_header_keeps
              (with_keyLen {| kdf_id := Scrypt_id; kdf_m := 7; kdf_t := 7; kdf_p := 7;
                              kdf_N := 2 ^ 32 + 4096; kdf_r := 8; kdf_s_p := 1;
                              kdf_keyLen := 32 |} 64)
              (zeros 16) (zeros 24) [x2a] eq_refl eq_refl)
    as [header [C [_ [P _]]]].
  exists header. eexists. split; [exact C|]. split; [exact P|]. reflexivity.
Defined.

(** ** The handlers of the vault *)

Lemma truthy_padded (pre t post : jsstring) :
  truthy t = true -> truthy (pre ++ t ++ post) = true.
Proof.
  intros N. destruct t as [|c t]; [discriminate N|].
  destruct pre; reflexivity.
Qed.

Section VaultHandlers.
Context {prim : Primitives}.

(** One layer, with what [getKdfInfo] reads from it. *)
Lemma layer_info (argon2 : capability) (plaintext password : jsstring) (tp : tape) :
  PrimitiveLaws prim -> Argon2Law argon2 ->
  exists b64 config,
    encryptV2 argon2 plaintext password None tp = Ok (b64, tape_after tp)
    /\ base64_text b64 /\ truthy b64 = true
    /\ decryptAuto argon2 b64 password
       = Ok (TextDecoder_decode (TextEncoder_encode plaintext))
    /\ getKdfInfo b64 = Some (kdf_id config, config)
    /\ (config = DEFAULT_ARGON2ID \/ config = MOBILE_SCRYPT)
    /\ (argon2 = None -> config = MOBILE_SCRYPT).
Proof.
  intros laws AL.
  destruct (encryptV2_default argon2 plaintext password tp laws AL)
    as [key [config [K [_ [E D]]]]].
  destruct (deriveKey_default _ _ _ _ _ K) as [C _].
  eexists _, config. split; [exact E|].
  split; [apply toBase64_text|].
  split; [apply toBase64_truthy, envelope_nonempty|].
  split; [rewrite decryptAuto_eq, D; reflexivity|].
  split.
  { rewrite getKdfInfo_envelope by (apply drawn_salt_length || apply drawn_nonce_length).
    destruct C as [-> | ->]; reflexivity. }
  split; [exact C|].
  intros ->. destruct C as [-> | ->]; [|reflexivity].
  apply deriveKey_inv in K. cbn [kdf_id DEFAULT_ARGON2ID] in K.
  destruct K as [f [F _]]. discriminate F.
Qed.

(** Three layers, the outer one with what [getKdfInfo] reads from it. *)
Lemma three_layers (argon2 : capability) (seed pass1 pass2 pass3 : jsstring)
    (tp : tape) :
  PrimitiveLaws prim -> Argon2Law argon2 ->
  exists layer1 layer2 layer3 config,
    tripleEncryptV2 argon2 seed pass1 pass2 pass3 tp = Ok (layer3, tape_skip 120 tp)
    /\ base64_text layer1 /\ truthy layer1 = true
    /\ base64_text layer2 /\ truthy layer2 = true
    /\ base64_text layer3 /\ truthy layer3 = true
    /\ decryptAuto argon2 layer3 pass3 = Ok layer2
    /\ decryptAuto argon2 layer2 pass2 = Ok layer1
    /\ decryptAuto argon2 layer1 pass1 = Ok (TextDecoder_decode (TextEncoder_encode seed))
    /\ getKdfInfo layer3 = Some (kdf_id config, config)
    /\ (config = DEFAULT_ARGON2ID \/ config = MOBILE_SCRYPT)
    /\ (argon2 = None -> config = MOBILE_SCRYPT).
Proof.
  intros laws AL.
  destruct (layer_info argon2 seed pass1 tp laws AL)
    as [layer1 [g1 [E1 [T1 [N1 [D1 _]]]]]].
  destruct (layer_info argon2 layer1 pass2 (tape_after tp) laws AL)
    as [layer2 [g2 [E2 [T2 [N2 [D2 _]]]]]].
  destruct (layer_info argon2 layer2 pass3 (tape_after (tape_after tp)) laws AL)
    as [layer3 [g3 [E3 [T3 [N3 [D3 [G [C A]]]]]]]].
  rewrite (TextDecoder_TextEncoder layer1 (transcodable_text layer1 T1)) in D2.
  rewrite (TextDecoder_TextEncoder layer2 (transcodable_text layer2 T2)) in D3.
  exists layer1, layer2, layer3, g3.
  split.
  { unfold tripleEncryptV2, mbind. rewrite E1, E2, E3. reflexivity. }
  repeat (split; [assumption|]). assumption.
Qed.

Lemma onStepDecrypt_seedPhrase (argon2 : capability) (st : VaultState) :
  seedPhrase (fst (onStepDecrypt argon2 st)) = seedPhrase st.
Proof.
  unfold onStepDecrypt.
  destruct (decryptStep st =? 1);
    [|destruct (decryptStep st =? 2); [|destruct (decryptStep st =? 3)]];
    try reflexivity;
    (destruct (_ || _); [reflexivity|]);
    destruct (decryptAuto argon2 _ _); reflexivity.
Qed.

End VaultHandlers.

(** X17: one press of the decrypt button never moves the reveal
    backwards and never skips a step: the step stays, or goes from 1 to
    2 or from 2 to 3, and it goes on exactly when the dialog is that of
    a completed step; the recovered seed changes at step 3 only; the
    loading flag is off afterwards; and no dialog at all is shown
    exactly when the step is none of 1, 2, 3. *)
Theorem X17_step_progress {prim : Primitives} (argon2 : capability) (st : VaultState) :
  (decryptStep (fst (onStepDecrypt argon2 st)) = decryptStep st
   \/ (decryptStep st = 1 /\ decryptStep (fst (onStepDecrypt argon2 st)) = 2
       /\ snd (onStepDecrypt argon2 st) = Some Step1Complete)
   \/ (decryptStep st = 2 /\ decryptStep (fst (onStepDecrypt argon2 st)) = 3
       /\ snd (onStepDecrypt argon2 st) = Some Step2Complete))
  /\ (snd (onStepDecrypt argon2 st) = Some Step1Complete
      \/ snd (onStepDecrypt argon2 st) = Some Step2Complete ->
      decryptStep (fst (onStepDecrypt argon2 st)) = decryptStep st + 1)
  /\ (decryptedSeed (fst (onStepDecrypt argon2 st)) <> decryptedSeed st ->
      decryptStep st = 3 /\ snd (onStepDecrypt argon2 st) = Some SeedPhraseRecovered)
  /\ isLoading (fst (onStepDecrypt argon2 st)) = false
  /\ (snd (onStepDecrypt argon2 st) = None
      <-> decryptStep st <> 1 /\ decryptStep st <> 2 /\ decryptStep st <> 3).
Proof.
  unfold onStepDecrypt.
  destruct (Z.eqb_spec (decryptStep st) 1) as [S1|S1];
    [|destruct (Z.eqb_spec (decryptStep st) 2) as [S2|S2];
      [|destruct (Z.eqb_spec (decryptStep st) 3) as [S3|S3]]].
  - destruct (_ || _); [|destruct (decryptAuto argon2 _ _)];
      cbn [fst snd setIsLoading setPassword3 setDecryptStep setTempData1
           decryptStep decryptedSeed isLoading];
      (split; [auto|]); (split; [intros [E|E]; (discriminate E || lia)|]);
      (split; [intros N; congruence|]); (split; [reflexivity|]);
      (split; [discriminate | intros [A [B C]]; congruence]).
  - destruct (_ || _); [|destruct (decryptAuto argon2 _ _)];
      cbn [fst snd setIsLoading setPassword2 setDecryptStep setTempData1 setTempData2
           decryptStep decryptedSeed isLoading];
      (split; [auto 6|]); (split; [intros [E|E]; (discriminate E || lia)|]);
      (split; [intros N; congruence|]); (split; [reflexivity|]);
      (split; [discriminate | intros [A [B C]]; congruence]).
  - destruct (_ || _); [|destruct (decryptAuto argon2 _ _)];
      cbn [fst snd setIsLoading setPassword1 setEncryptedOutput setTempData2
           setDecryptedSeed decryptStep decryptedSeed isLoading];
      (split; [auto|]); (split; [intros [E|E]; discriminate E|]);
      (split; [intros N; first [congruence | auto]|]); (split; [reflexivity|]);
      (split; [discriminate | intros [A [B C]]; congruence]).
  - cbn [fst snd setIsLoading decryptStep decryptedSeed isLoading].
    split; [auto|]. split; [intros [E|E]; discriminate E|].
    split; [intros N; congruence|]. split; [reflexivity|]. split; auto.
Qed.

(** X18: nothing in the vault clears or changes the seed phrase typed
    for encryption: not a change of tab, not a paste, not an encryption,
    not a step of the reveal, and not [resetAll], whose dialog says 'All
    data cleared'; [resetAll] and the change to the decrypt tab leave
    the same state, with the step at 1 and every other text field
    empty. *)
Theorem X18_seed_phrase_stays {prim : Primitives} (argon2 : capability)
    (clipboard_works : bool) (clipboard : option jsstring) (t : tab)
    (st : VaultState) (tp : tape) :
  seedPhrase (fst (switchTab t st)) = seedPhrase st
  /\ seedPhrase (fst (resetAll st)) = seedPhrase st
  /\ seedPhrase (fst (pasteFromClipboard clipboard st)) = seedPhrase st
  /\ seedPhrase (fst (fst (onTripleEncrypt argon2 clipboard_works st tp))) = seedPhrase st
  /\ seedPhrase (fst (onStepDecrypt argon2 st)) = seedPhrase st
  /\ fst (resetAll st) = fst (switchTab DecryptTab st)
  /\ fst (resetAll st)
     = setIsLoading (isLoading st) (setSeedPhrase (seedPhrase st) initialState).
Proof.
  split; [destruct t; reflexivity|].
  split; [reflexivity|].
  split.
  { unfold pasteFromClipboard. destruct clipboard as [text|]; [|reflexivity].
    destruct (_ && _); reflexivity. }
  split.
  { unfold onTripleEncrypt. destruct (_ || _); [reflexivity|].
    destruct (tripleEncryptV2 _ _ _ _ _ _) as [[result tp']|e]; [|reflexivity].
    destruct clipboard_works; reflexivity. }
  split; [apply onStepDecrypt_seedPhrase|].
  split; reflexivity.
Qed.

(** X19: the vault from end to end. With a seed phrase and three
    passwords that are not blank, [onTripleEncrypt] shows the success
    dialog with the name of a KDF, scrypt where Argon2id is not at hand,
    puts the blob into the output field and hands it to the clipboard;
    after the change to the decrypt tab, a paste of that blob, white
    space around it or not, and the three passwords typed in the order
    third, second, first with a press after each, the recovered seed is
    the seed phrase as the decoder reads its encoding back, every
    password and intermediate is empty and the seed phrase typed for
    encryption is still in its field. *)
Theorem X19_vault_flow {prim : Primitives} (argon2 : capability) (st : VaultState)
    (pre post : jsstring) (tp : tape) :
  PrimitiveLaws prim -> Argon2Law argon2 ->
  nonblank (seedPhrase st) -> nonblank (password1 st) ->
  nonblank (password2 st) -> nonblank (password3 st) ->
  all_whitespace pre -> all_whitespace post ->
  exists blob k,
    onTripleEncrypt argon2 true st tp
    = (setIsLoading false (setEncryptedOutput blob st),
       TripleEncryptionSuccess (Some k), Some (blob, tape_skip 120 tp))
    /\ (argon2 = None -> k = Scrypt_id)
    /\ fst (onStepDecrypt argon2 (setPassword1 (password1 st)
         (fst (onStepDecrypt argon2 (setPassword2 (password2 st)
            (fst (onStepDecrypt argon2 (setPassword3 (password3 st)
               (fst (pasteFromClipboard (Some (pre ++ blob ++ post))
                  (fst (switchTab DecryptTab
                     (setIsLoading false (setEncryptedOutput blob st))))))))))))))
       = setSeedPhrase (seedPhrase st)
           (revealed (TextDecoder_decode (TextEncoder_encode (seedPhrase st)))).
Proof.
  intros laws AL B0 B1 B2 B3 Wpre Wpost.
  destruct (three_layers argon2 (seedPhrase st) (password1 st) (password2 st)
              (password3 st) tp laws AL)
    as (layer1 & layer2 & layer3 & config & T & T1 & N1 & T2 & N2 & T3 & N3
        & D3 & D2 & D1 & G & C & A).
  exists layer3, (kdf_id config).
  split.
  { unfold onTripleEncrypt. unfold nonblank in B0, B1, B2, B3.
    rewrite B0, B1, B2, B3. cbn [negb orb]. rewrite T, G. reflexivity. }
  split.
  { intros E. rewrite (A E). reflexivity. }
  set (st1 := fst (switchTab DecryptTab (setIsLoading false (setEncryptedOutput layer3 st)))).
  assert (fst (pasteFromClipboard (Some (pre ++ layer3 ++ post)) st1)
          = setEncryptedOutput layer3 st1) as P.
  { unfold pasteFromClipboard.
    rewrite trim_padded, truthy_padded by assumption. rewrite N3. reflexivity. }
  rewrite P.
  rewrite (step1_ok argon2 (setPassword3 (password3 st) (setEncryptedOutput layer3 st1))
             layer2) by (reflexivity || assumption).
  cbn [fst].
  match goal with
  | |- context [onStepDecrypt argon2 (setPassword2 (password2 st) ?s)] =>
      rewrite (step2_ok argon2 (setPassword2 (password2 st) s) layer1)
        by (reflexivity || assumption)
  end.
  cbn [fst].
  match goal with
  | |- context [onStepDecrypt argon2 (setPassword1 (password1 st) ?s)] =>
      rewrite (step3_ok argon2 (setPassword1 (password1 st) s)
                 (TextDecoder_decode (TextEncoder_encode (seedPhrase st))))
        by (reflexivity || assumption)
  end.
  reflexivity.
Qed.

Lemma X19_vault_flow_witness :
  exists blob,
    snd (onTripleEncrypt (prim := Reference.ref_primitives) None true
           (setPassword3 [51] (setPassword2 [50] (setPassword1 [49]
              (setSeedPhrase hello_world initialState))))
           Reference.ref_tape)
    = Some (blob, tape_skip 120 Reference.ref_tape)
    /\ fst (onStepDecrypt (prim := Reference.ref_primitives) None (setPassword1 [49]
         (fst (onStepDecrypt (prim := Reference.ref_primitives) None (setPassword2 [50]
            (fst (onStepDecrypt (prim := Reference.ref_primitives) None
               (setPassword3 [51]
                  (fst (pasteFromClipboard (Some ([32] ++ blob ++ [10]))
                     (fst (switchTab DecryptTab
                        (setIsLoading false (setEncryptedOutput blob
                           (setPassword3 [51] (setPassword2 [50] (setPassword1 [49]
                              (setSeedPhrase hello_world initialState))))))))))))))))))
       = setSeedPhrase hello_world (revealed hello_world).
Proof.
  destruct (X19_vault_flow (prim := Reference.ref_primitives) None
              (setPassword3 [51] (setPassword2 [50] (setPassword1 [49]
                 (setSeedPhrase hello_world initialState))))
              [32] [10] Reference.ref_tape ref_laws no_argon2_law
              eq_refl eq_refl eq_refl eq_refl
              ltac:(repeat constructor) ltac:(repeat constructor))
    as [blob [k [E [_ F]]]].
  exists blob. split; [rewrite E; reflexivity|].
  exact F.
Defined.

(** X20: with the primitives as assumed, [onTripleEncrypt] ends in one
    of three ways. With a blank field it shows 'Please complete all
    fields', changes nothing and reads no randomness. Otherwise the
    encryption goes through and the blob is put into the output field;
    then, when the clipboard takes it, the dialog is the success dialog
    with the name of a KDF, never 'UNKNOWN', and when the clipboard
    throws, the dialog is the error dialog although the blob stays in
    the output field.  An error of the encryption itself is never
    shown. *)
Theorem X20_onTripleEncrypt_outcomes {prim : Primitives} (argon2 : capability)
    (clipboard_works : bool) (st : VaultState) (tp : tape) :
  PrimitiveLaws prim -> Argon2Law argon2 ->
  (onTripleEncrypt argon2 clipboard_works st tp = (st, PleaseCompleteAllFields, None)
   /\ ~ (nonblank (seedPhrase st) /\ nonblank (password1 st)
         /\ nonblank (password2 st) /\ nonblank (password3 st)))
  \/ (nonblank (seedPhrase st) /\ nonblank (password1 st)
      /\ nonblank (password2 st) /\ nonblank (password3 st)
      /\ exists blob k,
           tripleEncryptV2 argon2 (seedPhrase st) (password1 st) (password2 st)
                           (password3 st) tp
           = Ok (blob, tape_skip 120 tp)
           /\ truthy blob = true
           /\ onTripleEncrypt argon2 clipboard_works st tp
              = (setIsLoading false (setEncryptedOutput blob st),
                 (if clipboard_works then TripleEncryptionSuccess (Some k)
                  else EncryptionError ClipboardThrew),
                 (if clipboard_works then Some (blob, tape_skip 120 tp) else None))).
Proof.
  intros laws AL. unfold nonblank, onTripleEncrypt.
  destruct (truthy (trim (seedPhrase st)));
    [|left; split; [reflexivity | intros [B _]; discriminate B]].
  destruct (truthy (trim (password1 st)));
    [|left; split; [reflexivity | intros [_ [B _]]; discriminate B]].
  destruct (truthy (trim (password2 st)));
    [|left; split; [reflexivity | intros [_ [_ [B _]]]; discriminate B]].
  destruct (truthy (trim (password3 st)));
    [|left; split; [reflexivity | intros [_ [_ [_ B]]]; discriminate B]].
  right. repeat (split; [reflexivity|]). cbn [negb orb].
  destruct (three_layers argon2 (seedPhrase st) (password1 st) (password2 st)
              (password3 st) tp laws AL)
    as (layer1 & layer2 & layer3 & config & T & _ & _ & _ & _ & _ & N3
        & _ & _ & _ & G & _ & _).
  exists layer3, (kdf_id config).
  split; [exact T|]. split; [exact N3|].
  rewrite T, G. destruct clipboard_works; reflexivity.
Qed.

Lemma X20_onTripleEncrypt_outcomes_witness :
  onTripleEncrypt (prim := Reference.ref_primitives) None true
    (setPassword3 [51] (setPassword2 [32] (setPassword1 [49]
       (setSeedPhrase hello_world initialState))))
    Reference.ref_tape
  = (setPassword3 [51] (setPassword2 [32] (setPassword1 [49]
       (setSeedPhrase hello_world initialState))),
     PleaseCompleteAllFields, None).
Proof.
  destruct (X20_onTripleEncrypt_outcomes (prim := Reference.ref_primitives) None true
              (setPassword3 [51] (setPassword2 [32] (setPassword1 [49]
                 (setSeedPhrase hello_world initialState))))
              Reference.ref_tape ref_laws no_argon2_law)
    as [[E _] | [_ [_ [B _]]]]; [exact E | discriminate B].
Defined.

(** ** The handlers of the message screen *)

(** X21: the message screen from end to end. With a message and a
    password that are not blank, [onEncryptShare] puts the blob into the
    cipher field, hands it to the clipboard and shows the KDF that made
    the key with its numbers: Argon2id with 19456 KiB, t = 2, p = 1, or
    scrypt with N = 4096, r = 8, p = 1, never 'UNKNOWN' or 'Legacy
    format'. A paste of the blob with white space around it puts the
    blob alone into the cipher field, and [onDecrypt] on a cipher field
    with the blob, white space around it or not, and the same password
    shows the message as the decoder reads its encoding back. *)
Theorem X21_message_flow {prim : Primitives} (argon2 : capability) (st : App.State)
    (pre post : jsstring) (tp : tape) :
  PrimitiveLaws prim -> Argon2Law argon2 ->
  nonblank (App.message st) -> nonblank (App.password st) ->
  all_whitespace pre -> all_whitespace post ->
  exists b64 k params,
    App.onEncryptShare argon2 true st tp
    = (App.setIsLoading false (App.setCipher b64 st),
       App.EncryptionSuccess (Some k) (Some params),
       Some (b64, tape_skip 40 tp))
    /\ ((k = Argon2id_id /\ params = (19456, 2, 1))
        \/ (k = Scrypt_id /\ params = (4096, 8, 1)))
    /\ (forall st0,
           App.pasteFromClipboard (Some (pre ++ b64 ++ post)) st0
           = (App.setCipher b64 st0, None))
    /\ (forall st0,
           App.cipher st0 = pre ++ b64 ++ post ->
           App.decryptPassword st0 = App.password st ->
           App.onDecrypt argon2 st0
           = (App.setIsLoading false
                (App.setPlainOut
                   (App.Plain (TextDecoder_decode (TextEncoder_encode (App.message st))))
                   st0),
              None)).
Proof.
  intros laws AL Bm Bp Wpre Wpost.
  destruct (layer_info argon2 (App.message st) (App.password st) tp laws AL)
    as (b64 & config & E & T & N & D & G & C & _).
  exists b64, (kdf_id config), (active_params config).
  split.
  { unfold App.onEncryptShare. unfold nonblank in Bm, Bp. rewrite Bm, Bp.
    cbn [negb orb]. rewrite E, G. reflexivity. }
  split; [destruct C as [-> | ->]; [left | right]; split; reflexivity|].
  split.
  { intros st0. unfold App.pasteFromClipboard.
    rewrite trim_padded, truthy_padded by assumption. rewrite N. reflexivity. }
  intros st0 Ec Ep. unfold App.onDecrypt. rewrite Ec, Ep.
  rewrite trim_padded by assumption.
  unfold nonblank in Bp. rewrite N, Bp. cbn [negb orb]. rewrite D. reflexivity.
Qed.

Lemma X21_message_flow_witness :
  exists b64,
    App.onEncryptShare (prim := Reference.ref_primitives) (Some Reference.ref_argon2id)
      true (App.setPassword Tr0ub4dor_3 (App.setMessage hello_world App.initialState))
      Reference.ref_tape
    = (App.setIsLoading false (App.setCipher b64
         (App.setPassword Tr0ub4dor_3 (App.setMessage hello_world App.initialState))),
       App.EncryptionSuccess (Some Argon2id_id) (Some (19456, 2, 1)),
       Some (b64, tape_skip 40 Reference.ref_tape))
    /\ App.plainOut
         (fst (App.onDecrypt (prim := Reference.ref_primitives)
                 (Some Reference.ref_argon2id)
                 (App.setDecryptPassword Tr0ub4dor_3
                    (App.setCipher ([32] ++ b64 ++ [10]) App.initialState))))
       = App.Plain hello_world.
Proof.
  destruct (X21_message_flow (prim := Reference.ref_primitives)
              (Some Reference.ref_argon2id)
              (App.setPassword Tr0ub4dor_3 (App.setMessage hello_world App.initialState))
              [32] [10] Reference.ref_tape ref_laws ref_argon2_law eq_refl eq_refl
              ltac:(repeat constructor) ltac:(repeat constructor))
    as (b64 & k & params & E & K & _ & D).
  exists b64. split.
  - rewrite E. destruct K as [[-> ->] | [-> _]]; [reflexivity|].
    exfalso. vm_compute in E. discriminate E.
  - rewrite (D (App.setDecryptPassword Tr0ub4dor_3
                  (App.setCipher ([32] ++ b64 ++ [10]) App.initialState))
               eq_refl eq_refl).
    reflexivity.
Defined.

(** X22: a message that begins with 'ERROR:' cannot be copied from the
    result field. Encrypted and decrypted under a password that is not
    blank, a well formed message is shown in the result field as it
    was typed, and [copyPlain] refuses it with 'No valid result to
    copy', whether the clipboard works or not. *)
Theorem X22_error_prefix {prim : Primitives} (argon2 : capability) (st : App.State)
    (tp : tape) :
  PrimitiveLaws prim -> Argon2Law argon2 ->
  nonblank (App.message st) -> nonblank (App.password st) ->
  transcodable (App.message st) = true ->
  App.startsWith (App.message st) App.ERROR_PREFIX = true ->
  exists b64 st2,
    fst (fst (App.onEncryptShare argon2 true st tp))
    = App.setIsLoading false (App.setCipher b64 st)
    /\ App.onDecrypt argon2
         (App.setDecryptPassword (App.password st)
            (App.setIsLoading false (App.setCipher b64 st)))
       = (st2, None)
    /\ App.plainOut st2 = App.Plain (App.message st)
    /\ forall clipboard_works,
         App.copyPlain clipboard_works st2 = (App.NoValidResult, None).
Proof.
  intros laws AL Bm Bp Tm Sm.
  destruct (layer_info argon2 (App.message st) (App.password st) tp laws AL)
    as (b64 & config & E & T & N & D & G & _ & _).
  rewrite (TextDecoder_TextEncoder _ Tm) in D.
  exists b64. eexists. split.
  { unfold App.onEncryptShare. unfold nonblank in Bm, Bp. rewrite Bm, Bp.
    cbn [negb orb]. rewrite E. reflexivity. }
  split.
  { unfold App.onDecrypt.
    cbn [App.cipher App.decryptPassword App.setDecryptPassword App.setIsLoading
         App.setCipher].
    rewrite (trim_text _ T). unfold nonblank in Bp. rewrite N, Bp.
    cbn [negb orb]. rewrite D. reflexivity. }
  split; [reflexivity|].
  intros cw. unfold App.copyPlain.
  cbn [App.plainOut App.setIsLoading App.setPlainOut App.is_error_text App.is_empty].
  rewrite Sm, orb_true_r. reflexivity.
Qed.

Lemma X22_error_prefix_witness :
  exists b64 st2,
    App.onDecrypt (prim := Reference.ref_primitives) None
      (App.setDecryptPassword Tr0ub4dor_3
         (App.setIsLoading false (App.setCipher b64
            (App.setPassword Tr0ub4dor_3
               (App.setMessage (App.ERROR_PREFIX ++ hello_world) App.initialState)))))
    = (st2, None)
    /\ App.plainOut st2 = App.Plain (App.ERROR_PREFIX ++ hello_world)
    /\ App.copyPlain true st2 = (App.NoValidResult, None).
Proof.
  destruct (X22_error_prefix (prim := Reference.ref_primitives) None
              (App.setPassword Tr0ub4dor_3
                 (App.setMessage (App.ERROR_PREFIX ++ hello_world) App.initialState))
              Reference.ref_tape ref_laws no_argon2_law
              eq_refl eq_refl eq_refl eq_refl)
    as (b64 & st2 & _ & D & P & C).
  exists b64, st2. split; [exact D|]. split; [exact P | exact (C true)].
Defined.

(** X23: what the result field can hold and what leaves it. After
    [onDecrypt] the field is as it was and a dialog asks for both
    inputs, or it holds the plaintext that [decryptAuto] returned, or it
    holds 'ERROR: ' with the one message 'Decryption failed: incorrect
    password or unsupported format'; the messages of the two formats
    never reach it.  [copyPlain] hands a text to the clipboard exactly
    when the clipboard works and the field holds a plaintext that is not
    empty and does not begin with 'ERROR:'; an error text is never
    copied. *)
Theorem X23_result_field {prim : Primitives} (argon2 : capability)
    (clipboard_works : bool) (st : App.State) :
  (App.onDecrypt argon2 st = (st, Some App.EnterCipherAndPassword)
   \/ (exists pt,
         decryptAuto argon2 (trim (App.cipher st)) (App.decryptPassword st) = Ok pt
         /\ App.onDecrypt argon2 st
            = (App.setIsLoading false (App.setPlainOut (App.Plain pt) st), None))
   \/ App.onDecrypt argon2 st
      = (App.setIsLoading false
           (App.setPlainOut (App.ErrorText DecryptionFailedUnified) st), None))
  /\ (forall s,
         snd (App.copyPlain clipboard_works st) = Some s
         <-> clipboard_works = true /\ App.plainOut st = App.Plain s
             /\ s <> [] /\ App.startsWith s App.ERROR_PREFIX = false)
  /\ (forall e, App.plainOut st = App.ErrorText e ->
                App.copyPlain clipboard_works st = (App.NoValidResult, None)).
Proof.
  split; [|split].
  - unfold App.onDecrypt. destruct (_ || _); [left; reflexivity|].
    destruct (decryptAuto argon2 _ _) as [pt|e] eqn:D.
    + right. left. exists pt. split; reflexivity.
    + right. right. rewrite (decryptAuto_error _ _ _ _ D). reflexivity.
  - intros s. unfold App.copyPlain.
    destruct (App.plainOut st) as [p|e];
      cbn [App.is_empty App.is_error_text orb].
    + destruct p as [|c p]; cbn [truthy negb orb].
      * split; [discriminate|]. intros [_ [E [NE _]]]. congruence.
      * destruct (App.startsWith (c :: p) App.ERROR_PREFIX) eqn:S.
        -- split; [discriminate|]. intros [_ [E [_ F]]]. congruence.
        -- destruct clipboard_works; cbn [snd].
           ++ split.
              ** intros E. injection E as <-. repeat split; [discriminate | exact S].
              ** intros [_ [E _]]. congruence.
           ++ split; [discriminate|]. intros [E _]. discriminate E.
    + split; [discriminate|]. intros [_ [E _]]. discriminate E.
  - intros e E. unfold App.copyPlain. rewrite E. reflexivity.
Qed.

(** ** The first message screen *)

Lemma utf8_of_scalar_nonempty (cp : Z) : utf8_of_scalar cp <> [].
Proof.
  unfold utf8_of_scalar.
  destruct (cp <? 0x80); [discriminate|].
  destruct (cp <? 0x800); [discriminate|].
  destruct (cp <? 0x10000); discriminate.
Qed.

Lemma to_scalars_nonempty (s : jsstring) : s <> [] -> to_scalars s <> [].
Proof.
  destruct s as [|c rest]; [congruence|]. intros _. cbn [to_scalars].
  destruct (is_high_surrogate c).
  - destruct rest as [|d rest']; [discriminate|].
    destruct (is_low_surrogate d); discriminate.
  - destruct (is_low_surrogate c); discriminate.
Qed.

(** A string that is not empty has an encoding that is not empty. *)
Lemma TextEncoder_encode_nonempty (s : jsstring) : s <> [] -> TextEncoder_encode s <> [].
Proof.
  intros N. apply to_scalars_nonempty in N. unfold TextEncoder_encode.
  destruct (to_scalars s) as [|cp cps]; [congruence|].
  cbn [flat_map]. pose proof (utf8_of_scalar_nonempty cp) as U.
  destruct (utf8_of_scalar cp); [congruence | discriminate].
Qed.

Lemma nonblank_nonempty (s : jsstring) : nonblank s -> s <> [].
Proof. intros B ->. discriminate B. Qed.

Lemma decryptFromBase64_error {prim : Primitives} (b64 password : jsstring) (e : error) :
  PrimitiveLaws prim ->
  decryptFromBase64 b64 password = Err e ->
  (e = LegacyTooShort /\ (length (fromBase64 b64) <= 56)%nat)
  \/ (e = LegacyIncorrect /\ (56 < length (fromBase64 b64))%nat).
Proof.
  intros laws. unfold decryptFromBase64, SALT_LEN, NONCE_LEN. cbn [Nat.add].
  destruct (Nat.leb_spec (length (fromBase64 b64)) 56) as [L|L].
  { intros E. injection E as <-. left. split; [reflexivity | exact L]. }
  destruct (deriveKeyLegacy_ok password (slice (fromBase64 b64) 0 16) laws)
    as [key [D Lk]].
  rewrite D. cbn [rbind]. unfold nacl_secretbox_open.
  rewrite checkLengths_ok.
  2:{ exact Lk. }
  2:{ unfold slice. rewrite length_firstn, length_skipn. lia. }
  cbn [rbind]. destruct (_ <? _)%nat; cbn [rbind].
  - intros E. injection E as <-. right. split; [reflexivity | exact L].
  - destruct (crypto_secretbox_open _ _ _); [discriminate|].
    intros E. injection E as <-. right. split; [reflexivity | exact L].
Qed.

(** X24: the first message screen, whose one password field serves both
    directions. With a message and a password that are not blank,
    [onEncryptShare] puts the legacy blob into the cipher field, and a
    press of the decrypt button right after it shows the message as the
    decoder reads its encoding back: the guard keeps the empty plaintext,
    which the legacy format cannot carry, from being encrypted. Whatever
    is in the cipher field, the only errors [onDecrypt] can show are
    'too short', exactly when the field decodes to 56 bytes or fewer,
    and 'incorrect password or corrupted text'. *)
Theorem X24_simple_screen {prim : Primitives} (st : SimpleApp.State) (tp : tape) :
  PrimitiveLaws prim ->
  (nonblank (SimpleApp.message st) -> nonblank (SimpleApp.password st) ->
   exists b64,
     SimpleApp.onEncryptShare true st tp
     = (SimpleApp.setIsLoading false (SimpleApp.setCipher b64 st),
        SimpleApp.EncryptionSuccess, Some (b64, tape_skip 40 tp))
     /\ SimpleApp.onDecrypt (SimpleApp.setIsLoading false (SimpleApp.setCipher b64 st))
        = (SimpleApp.setIsLoading false
             (SimpleApp.setPlainOut
                (App.Plain (TextDecoder_decode (TextEncoder_encode (SimpleApp.message st))))
                (SimpleApp.setIsLoading false (SimpleApp.setCipher b64 st))),
           None))
  /\ (forall e,
         SimpleApp.plainOut (fst (SimpleApp.onDecrypt st)) = App.ErrorText e ->
         SimpleApp.plainOut st = App.ErrorText e
         \/ (e = LegacyTooShort
             /\ (length (fromBase64 (trim (SimpleApp.cipher st))) <= 56)%nat)
         \/ (e = LegacyIncorrect
             /\ (56 < length (fromBase64 (trim (SimpleApp.cipher st))))%nat)).
Proof.
  intros laws. split.
  - intros Bm Bp.
    pose proof (TextEncoder_encode_nonempty _ (nonblank_nonempty _ Bm)) as NE.
    destruct (encryptToBase64Legacy_ok (SimpleApp.message st) (SimpleApp.password st)
                tp laws) as [key [S [Lk E]]].
    eexists. split.
    + unfold SimpleApp.onEncryptShare, SimpleApp.encryptToBase64.
      unfold nonblank in Bm, Bp. rewrite Bm, Bp. cbn [negb orb]. rewrite E.
      reflexivity.
    + unfold SimpleApp.onDecrypt, SimpleApp.decryptFromBase64.
      cbn [SimpleApp.cipher SimpleApp.password SimpleApp.setIsLoading
           SimpleApp.setCipher].
      rewrite (trim_text _ (toBase64_text _)).
      rewrite toBase64_truthy.
      2:{ unfold legacy_envelope. pose proof (drawn_salt_length tp) as Ls.
          destruct (drawn_salt tp); [discriminate Ls | discriminate]. }
      unfold nonblank in Bp. rewrite Bp. cbn [negb orb].
      rewrite decryptFromBase64_envelope;
        try (assumption || apply drawn_salt_length || apply drawn_nonce_length).
      reflexivity.
  - intros e. unfold SimpleApp.onDecrypt, SimpleApp.decryptFromBase64.
    destruct (_ || _); [cbn [fst]; auto|].
    destruct (decryptFromBase64 _ _) as [pt|e'] eqn:D;
      cbn [fst SimpleApp.plainOut SimpleApp.setIsLoading SimpleApp.setPlainOut];
      [discriminate|].
    intros E. injection E as <-. right.
    exact (decryptFromBase64_error _ _ _ laws D).
Qed.

Lemma X24_simple_screen_witness :
  exists b64,
    SimpleApp.onEncryptShare (prim := Reference.ref_primitives) true
      (SimpleApp.setPassword Tr0ub4dor_3
         (SimpleApp.setMessage hello_world SimpleApp.initialState))
      Reference.ref_tape
    = (SimpleApp.setIsLoading false (SimpleApp.setCipher b64
         (SimpleApp.setPassword Tr0ub4dor_3
            (SimpleApp.setMessage hello_world SimpleApp.initialState))),
       SimpleApp.EncryptionSuccess, Some (b64, tape_skip 40 Reference.ref_tape))
    /\ SimpleApp.plainOut
         (fst (SimpleApp.onDecrypt (prim := Reference.ref_primitives)
                 (SimpleApp.setIsLoading false (SimpleApp.setCipher b64
                    (SimpleApp.setPassword Tr0ub4dor_3
                       (SimpleApp.setMessage hello_world SimpleApp.initialState))))))
       = App.Plain hello_world.
Proof.
  destruct (proj1 (X24_simple_screen (prim := Reference.ref_primitives)
                     (SimpleApp.setPassword Tr0ub4dor_3
                        (SimpleApp.setMessage hello_world SimpleApp.initialState))
                     Reference.ref_tape ref_laws) eq_refl eq_refl)
    as [b64 [E D]].
  exists b64. split; [exact E|]. rewrite D. reflexivity.
Defined.

(** ** What a blob tells without the password *)

(** The encoding of base64 text has one byte for each character. *)
Lemma TextEncoder_encode_text_length (s : jsstring) :
  base64_text s -> length (TextEncoder_encode s) = length s.
Proof.
  intros T. unfold TextEncoder_encode. rewrite length_map.
  induction T as [|c s R _ IH]; [reflexivity|].
  cbn [to_scalars]. unfold is_high_surrogate, is_low_surrogate. zsettle.
  cbn [andb flat_map]. unfold utf8_of_scalar at 1. zsettle.
  cbn [app length]. rewrite IH. reflexivity.
Qed.

Lemma decryptV2_parsed_error {prim : Primitives} (argon2 : capability)
    (b64 password : jsstring) (h : CryptoHeader) (c : bytes) (e : error) :
  PrimitiveLaws prim -> Argon2Law argon2 ->
  parseHeader (base64ToBlob b64) = Ok (h, c) ->
  decryptV2 argon2 b64 password = Err e ->
  e = KeyDerivationFailed \/ e = DecryptionFailedV2.
Proof.
  intros laws AL P. unfold decryptV2. rewrite P. cbn [rbind].
  destruct (parseHeader_inv _ _ _ P) as [L [_ [_ [i [_ [-> _]]]]]].
  destruct (deriveKey argon2 password _ _) as [[key cfg']|e'] eqn:D; cbn [rbind].
  2:{ intros E. injection E as <-. left. exact (deriveKey_error _ _ _ _ _ D). }
  pose proof (deriveKey_header_length _ _ _ _ _ _ laws AL
                (parsed_header_keyLen i _) D) as Lk.
  unfold nacl_secretbox_open.
  rewrite checkLengths_ok by (exact Lk || apply parsed_header_nonce, L).
  cbn [rbind]. destruct (length c <? 16)%nat; cbn [rbind].
  - intros E. injection E as <-. right. reflexivity.
  - destruct (crypto_secretbox_open _ _ _); [discriminate|].
    intros E. injection E as <-. right. reflexivity.
Qed.

(** X25: [getKdfInfo] and [decryptV2] read the same header. When
    [getKdfInfo] names a KDF, the configuration it returns carries that
    id and is one the header keeps whole, the blob has at least 57
    bytes, and with the primitives as assumed [decryptV2] can fail only
    with 'Key derivation failed' or 'Decryption failed: incorrect
    password or corrupted data'. When [getKdfInfo] returns null,
    [decryptV2] fails under every password with one of the four errors
    of the header, and [decryptAuto] is the legacy decryption with its
    error replaced. *)
Theorem X25_format_detection {prim : Primitives} (argon2 : capability)
    (b64 password : jsstring) :
  PrimitiveLaws prim -> Argon2Law argon2 ->
  match getKdfInfo b64 with
  | Some (i, config) =>
      kdf_id config = i /\ header_exact config
      /\ (57 <= length (base64ToBlob b64))%nat
      /\ (forall e, decryptV2 argon2 b64 password = Err e ->
                    e = KeyDerivationFailed \/ e = DecryptionFailedV2)
  | None =>
      (exists e,
          decryptV2 argon2 b64 password = Err e
          /\ (e = BlobTooShort
              \/ e = InvalidMagic (TextDecoder_decode (firstn 3 (base64ToBlob b64)))
              \/ (exists v, e = UnsupportedVersion v)
              \/ (exists v, e = UnknownKdfIdByte v)))
      /\ decryptAuto argon2 b64 password
         = match decryptFromBase64 b64 password with
           | Ok plaintext => Ok plaintext
           | Err _ => Err DecryptionFailedUnified
           end
  end.
Proof.
  intros laws AL. unfold getKdfInfo.
  destruct (parseHeader (base64ToBlob b64)) as [[h c]|e] eqn:P.
  - destruct (parseHeader_inv _ _ _ P) as [L [_ [_ [i [_ [Eh _]]]]]].
    rewrite Eh.
    split; [apply parsed_header_id|].
    split; [apply config_of_params_exact|].
    split; [exact L|].
    intros e E. exact (decryptV2_parsed_error _ _ _ _ _ _ laws AL P E).
  - split.
    + exists e. split; [unfold decryptV2; rewrite P; reflexivity|].
      exact (parseHeader_error _ _ P).
    + rewrite decryptAuto_eq. unfold decryptV2. rewrite P. reflexivity.
Qed.

Lemma X25_format_detection_witness :
  getKdfInfo (blobToBase64 bare_header) = Some (Scrypt_id, MOBILE_SCRYPT)
  /\ (forall e,
         decryptV2 (prim := Reference.ref_primitives) None (blobToBase64 bare_header)
                   hello_world = Err e ->
         e = KeyDerivationFailed \/ e = DecryptionFailedV2).
Proof.
  pose proof (X25_format_detection (prim := Reference.ref_primitives) None
                (blobToBase64 bare_header) hello_world ref_laws no_argon2_law) as F.
  assert (getKdfInfo (blobToBase64 bare_header) = Some (Scrypt_id, MOBILE_SCRYPT)) as G
    by (vm_compute; reflexivity).
  rewrite G in F. split; [reflexivity|]. exact (proj2 (proj2 (proj2 F))).
Defined.

Lemma layer_size {prim : Primitives} (argon2 : capability)
    (plaintext password : jsstring) (tp : tape) :
  PrimitiveLaws prim -> Argon2Law argon2 ->
  exists b64,
    encryptV2 argon2 plaintext password None tp = Ok (b64, tape_after tp)
    /\ base64_text b64
    /\ length (base64ToBlob b64) = (73 + length (TextEncoder_encode plaintext))%nat
    /\ length b64 = layer_length (length (TextEncoder_encode plaintext)).
Proof.
  intros laws AL.
  destruct (encryptV2_default argon2 plaintext password tp laws AL)
    as [key [config [_ [Lk [E _]]]]].
  eexists. split; [exact E|].
  split; [apply toBase64_text|].
  pose proof (envelope_length config (drawn_salt tp) (drawn_nonce tp) key
                (TextEncoder_encode plaintext) laws (drawn_salt_length tp)
                (drawn_nonce_length tp) Lk) as Le.
  split.
  - unfold base64ToBlob, blobToBase64. rewrite fromBase64_toBase64, Le. lia.
  - unfold blobToBase64, layer_length. rewrite toBase64_length, Le.
    f_equal. f_equal. lia.
Qed.

(** X26: the size of what is produced depends on the size of the
    plaintext alone. Without a KDF request the blob of [encryptV2] is 73
    bytes longer than the encoding of the plaintext, in either KDF, and
    its text has four characters for every three of those bytes, rounded
    up; each layer of [tripleEncryptV2] is as long as that rule gives
    for the layer below it, one byte for each character. *)
Theorem X26_sizes {prim : Primitives} (argon2 : capability)
    (plaintext pass1 pass2 pass3 : jsstring) (tp : tape) :
  PrimitiveLaws prim -> Argon2Law argon2 ->
  exists layer1 layer3,
    encryptV2 argon2 plaintext pass1 None tp = Ok (layer1, tape_skip 40 tp)
    /\ length (base64ToBlob layer1) = (73 + length (TextEncoder_encode plaintext))%nat
    /\ length layer1 = layer_length (length (TextEncoder_encode plaintext))
    /\ tripleEncryptV2 argon2 plaintext pass1 pass2 pass3 tp
       = Ok (layer3, tape_skip 120 tp)
    /\ length layer3
       = layer_length (layer_length (layer_length
           (length (TextEncoder_encode plaintext)))).
Proof.
  intros laws AL.
  destruct (layer_size argon2 plaintext pass1 tp laws AL) as [layer1 [E1 [T1 [B1 L1]]]].
  destruct (layer_size argon2 layer1 pass2 (tape_after tp) laws AL)
    as [layer2 [E2 [T2 [_ L2]]]].
  destruct (layer_size argon2 layer2 pass3 (tape_after (tape_after tp)) laws AL)
    as [layer3 [E3 [_ [_ L3]]]].
  rewrite (TextEncoder_encode_text_length _ T1), L1 in L2.
  rewrite (TextEncoder_encode_text_length _ T2), L2 in L3.
  exists layer1, layer3.
  split; [exact E1|]. split; [exact B1|]. split; [exact L1|].
  split; [|exact L3].
  unfold tripleEncryptV2, mbind. rewrite E1, E2, E3. reflexivity.
Qed.

Lemma X26_sizes_witness :
  exists layer1 layer3,
    encryptV2 (prim := Reference.ref_primitives) (Some Reference.ref_argon2id)
              hello_world [49] None Reference.ref_tape
    = Ok (layer1, tape_skip 40 Reference.ref_tape)
    /\ length layer1 = 112%nat
    /\ tripleEncryptV2 (prim := Reference.ref_primitives) (Some Reference.ref_argon2id)
                       hello_world [49] [50] [51] Reference.ref_tape
       = Ok (layer3, tape_skip 120 Reference.ref_tape)
    /\ length layer3 = 428%nat.
Proof.
  destruct (X26_sizes (prim := Reference.ref_primitives) (Some Reference.ref_argon2id)
              hello_world [49] [50] [51] Reference.ref_tape ref_laws ref_argon2_law)
    as (layer1 & layer3 & E1 & _ & L1 & E3 & L3).
  exists layer1, layer3.
  split; [exact E1|]. split; [rewrite L1; reflexivity|].
  split; [exact E3|]. rewrite L3. reflexivity.
Defined.

(* ================================================================== *)
(** * The layers of the vault and the passwords that open them *)
(* ================================================================== *)

Lemma ref_authentic : Authenticity Reference.ref_primitives.
Proof.
  constructor. intros box nonce0 key msg _ _ O.
  cbn [crypto_secretbox_open crypto_secretbox Reference.ref_primitives] in O |- *.
  unfold Reference.ref_secretbox_open in O. unfold Reference.ref_secretbox.
  destruct (bytes_eqb (firstn 16 box) (Reference.ref_tag key)) eqn:T; [|discriminate O].
  apply bytes_eqb_eq in T. injection O as <-.
  rewrite <- T. symmetry. apply firstn_skipn.
Qed.

Section Fits.
Context {prim : Primitives}.

Lemma nacl_secretbox_open_some (box nonce0 key msg : bytes) :
  nacl_secretbox_open box nonce0 key = Ok (Some msg) ->
  length key = 32%nat /\ length nonce0 = 24%nat
  /\ crypto_secretbox_open box nonce0 key = Some msg.
Proof.
  unfold nacl_secretbox_open.
  destruct (checkLengths key nonce0) as [[]|e] eqn:C; [|discriminate].
  apply checkLengths_inv in C. destruct C as [Lk Ln]. cbn [rbind].
  destruct (length box <? 16)%nat; [discriminate|].
  intros E. injection E as E. auto.
Qed.

(** What [decryptAuto] returns, it returns because the password fits
    the blob. *)
Lemma decryptV2_fits (opener : capability) (b64 password plaintext : jsstring) :
  Authenticity prim ->
  decryptV2 opener b64 password = Ok plaintext ->
  fits_versioned opener b64 password plaintext.
Proof.
  intros auth. unfold decryptV2.
  destruct (parseHeader (base64ToBlob b64)) as [[h c]|e] eqn:P; [|discriminate].
  cbn [rbind].
  destruct (deriveKey opener password (salt h) (Some (as_partial (kdfConfig h))))
    as [[key config]|e] eqn:D; [|discriminate].
  cbn [rbind].
  destruct (nacl_secretbox_open c (nonce h) key) as [[msg|]|e] eqn:O; try discriminate.
  cbn [rbind]. intros E. injection E as <-.
  apply nacl_secretbox_open_some in O. destruct O as [Lk [Ln O]].
  exists h, c, key, config, msg.
  split; [exact P|]. split; [exact D|].
  split; [exact (open_genuine auth _ _ _ Lk Ln O) | reflexivity].
Qed.

Lemma decryptFromBase64_fits (b64 password plaintext : jsstring) :
  Authenticity prim ->
  decryptFromBase64 b64 password = Ok plaintext -> fits_legacy b64 password plaintext.
Proof.
  intros auth. unfold decryptFromBase64.
  destruct (length (fromBase64 b64) <=? SALT_LEN + NONCE_LEN + 16)%nat; [discriminate|].
  destruct (deriveKeyLegacy password (slice (fromBase64 b64) 0 SALT_LEN))
    as [key|e] eqn:D; [|discriminate].
  cbn [rbind].
  destruct (nacl_secretbox_open _ _ key) as [[msg|]|e] eqn:O; try discriminate.
  cbn [rbind]. intros E. injection E as <-.
  apply nacl_secretbox_open_some in O. destruct O as [Lk [Ln O]].
  exists key, msg.
  split; [exact D|].
  split; [exact (open_genuine auth _ _ _ Lk Ln O) | reflexivity].
Qed.

Lemma decryptAuto_fits (opener : capability) (b64 password plaintext : jsstring) :
  Authenticity prim ->
  decryptAuto opener b64 password = Ok plaintext -> fits opener b64 password plaintext.
Proof.
  intros auth. rewrite decryptAuto_eq.
  destruct (decryptV2 opener b64 password) as [p|e] eqn:V.
  - intros E. injection E as <-. left. exact (decryptV2_fits _ _ _ _ auth V).
  - destruct (decryptFromBase64 b64 password) as [p|e'] eqn:L; [|discriminate].
    intros E. injection E as <-. right. exact (decryptFromBase64_fits _ _ _ auth L).
Qed.

(** A blob that [encryptV2] made, under another password: what is
    returned is the plaintext when the password derives the key of the
    blob; under another key something is returned only when that key
    makes the same box, or in the legacy reading. *)
Lemma layer_accepts (maker opener : capability) (plaintext password other : jsstring)
    (tp tp' : tape) (b64 result : jsstring) (key : bytes) (config : KdfConfig) :
  PrimitiveLaws prim -> Argon2Law maker -> Authenticity prim ->
  encryptV2 maker plaintext password None tp = Ok (b64, tp') ->
  deriveKey maker password (drawn_salt tp) None = Ok (key, config) ->
  decryptAuto opener b64 other = Ok result ->
  (exists key' config',
      deriveKey opener other (drawn_salt tp) (Some (as_partial config))
      = Ok (key', config')
      /\ ((key' = key /\ result = TextDecoder_decode (TextEncoder_encode plaintext))
          \/ (key' <> key
              /\ exists msg,
                   crypto_secretbox (TextEncoder_encode plaintext) (drawn_nonce tp) key
                   = crypto_secretbox msg (drawn_nonce tp) key'
                   /\ result = TextDecoder_decode msg)))
  \/ ((exists e, decryptV2 opener b64 other = Err e)
      /\ fits_legacy b64 other result).
Proof.
  intros laws AL auth E K D.
  pose proof (deriveKey_default_length _ _ _ _ _ laws AL K) as Lk.
  destruct (deriveKey_default _ _ _ _ _ K) as [C _].
  assert (recorded config = config) as Rc by (destruct C as [-> | ->]; reflexivity).
  rewrite encryptV2_eq, K, checkLengths_ok in E
    by (exact Lk || apply drawn_nonce_length).
  injection E as <- _.
  rewrite decryptAuto_eq in D.
  destruct (decryptV2 opener _ other) as [p|e] eqn:V.
  - injection D as <-. left. unfold decryptV2 in V.
    rewrite parseHeader_envelope in V
      by (apply drawn_salt_length || apply drawn_nonce_length).
    cbn [rbind salt nonce kdfConfig] in V. rewrite Rc in V.
    destruct (deriveKey opener other (drawn_salt tp) (Some (as_partial config)))
      as [[key' config']|e] eqn:K'; [|discriminate V].
    cbn [rbind] in V.
    destruct (nacl_secretbox_open _ (drawn_nonce tp) key') as [[msg|]|e] eqn:O;
      try discriminate V.
    cbn [rbind] in V. injection V as <-.
    apply nacl_secretbox_open_some in O. destruct O as [Lk' [Ln O]].
    exists key', config'. split; [reflexivity|].
    destruct (bytes_eqb key' key) eqn:Q.
    + apply bytes_eqb_eq in Q. subst key'. left. split; [reflexivity|].
      rewrite (secretbox_open_box laws) in O by assumption.
      injection O as <-. reflexivity.
    + right. split.
      * intros ->. assert (bytes_eqb key key = true) as T by (apply bytes_eqb_eq; reflexivity).
        congruence.
      * exists msg. split; [|reflexivity].
        exact (open_genuine auth _ _ _ Lk' Ln O).
  - right. split; [exists e; reflexivity|].
    destruct (decryptFromBase64 _ other) as [p|e'] eqn:L; [|discriminate D].
    injection D as <-. exact (decryptFromBase64_fits _ _ _ auth L).
Qed.

(** One layer, and the environments that open it. *)
Lemma layer_opened (maker : capability) (plaintext password : jsstring) (tp : tape) :
  PrimitiveLaws prim -> Argon2Law maker ->
  exists b64,
    encryptV2 maker plaintext password None tp = Ok (b64, tape_after tp)
    /\ base64_text b64 /\ truthy b64 = true
    /\ forall opener,
         same_environment maker opener ->
         decryptAuto opener b64 password
         = Ok (TextDecoder_decode (TextEncoder_encode plaintext)).
Proof.
  intros laws AL.
  destruct (encryptV2_default maker plaintext password tp laws AL)
    as [key [config [K [Lk [E D]]]]].
  destruct (deriveKey_default _ _ _ _ _ K) as [C _].
  eexists. split; [exact E|].
  split; [apply toBase64_text|].
  split; [apply toBase64_truthy, envelope_nonempty|].
  intros opener [-> | ->].
  - rewrite decryptAuto_eq, D. reflexivity.
  - assert (config = MOBILE_SCRYPT) as ->.
    { destruct C as [-> | ->]; [|reflexivity].
      apply deriveKey_inv in K. cbn [kdf_id DEFAULT_ARGON2ID] in K.
      destruct K as [f [F _]]. discriminate F. }
    apply deriveKey_inv in K. cbn [kdf_id MOBILE_SCRYPT] in K.
    rewrite decryptAuto_eq.
    rewrite (decryptV2_envelope opener password MOBILE_SCRYPT MOBILE_SCRYPT
               (drawn_salt tp) (drawn_nonce tp) key (TextEncoder_encode plaintext) laws
               (drawn_salt_length tp) (drawn_nonce_length tp) Lk).
    + reflexivity.
    + change (recorded MOBILE_SCRYPT) with MOBILE_SCRYPT.
      rewrite deriveKey_scrypt_header by reflexivity. rewrite K. reflexivity.
Qed.

End Fits.




(** ** No cipher refuses every other password

    Keys have 32 bytes and passwords are unbounded, so whatever the
    primitives, two passwords with different encodings derive the same
    key under some salt; the counting argument follows. *)

Lemma collision (A B : Type) (eq_dec : forall x y : B, {x = y} + {x <> y})
    (f : A -> B) (src : list A) :
  forall tgt : list B,
    NoDup src -> (forall x, In x src -> In (f x) tgt) ->
    (length tgt < length src)%nat ->
    exists x y, In x src /\ In y src /\ x <> y /\ f x = f y.
Proof.
  induction src as [|a l IH]; intros tgt N T L.
  - cbn [length] in L. lia.
  - apply NoDup_cons_iff in N. destruct N as [Na Nl].
    destruct (in_dec eq_dec (f a) (map f l)) as [M|M].
    + apply in_map_iff in M. destruct M as [y [E Y]].
      exists a, y. split; [left; reflexivity|]. split; [right; exact Y|].
      split; [intros ->; contradiction | symmetry; exact E].
    + destruct (IH (remove eq_dec (f a) tgt) Nl) as [x [y [X [Y [D E]]]]].
      * intros x X. apply in_in_remove; [|apply T; right; exact X].
        intros E. apply M. rewrite <- E. apply in_map. exact X.
      * pose proof (remove_length_lt eq_dec tgt (f a) (T a (or_introl eq_refl))) as R.
        cbn [length] in L. lia.
      * exists x, y. split; [right; exact X|]. split; [right; exact Y|]. auto.
Qed.

Lemma bytes_eq_dec (x y : bytes) : {x = y} + {x <> y}.
Proof.
  destruct (bytes_eqb x y) eqn:E.
  - left. apply bytes_eqb_eq. exact E.
  - right. intros H. apply bytes_eqb_eq in H. congruence.
Qed.

Lemma NoDup_map_cons (A : Type) (a : A) (l : list (list A)) :
  NoDup l -> NoDup (map (cons a) l).
Proof.
  induction 1 as [|x l X _ IH]; cbn [map]; constructor; [|exact IH].
  intros M. apply in_map_iff in M. destruct M as [y [E Y]].
  apply cons_eq_inv in E. destruct E as [_ ->]. contradiction.
Qed.

Lemma words_length (n : nat) : length (words n) = (2 ^ n)%nat.
Proof.
  induction n as [|n IH]; [reflexivity|].
  cbn [words]. unfold jsstring in IH |- *.
  rewrite length_app, !length_map, IH, Nat.pow_succ_r'. lia.
Qed.

Lemma words_NoDup (n : nat) : NoDup (words n).
Proof.
  induction n as [|n IH]; cbn [words].
  - constructor; [intros []|constructor].
  - apply NoDup_app; try (apply NoDup_map_cons; exact IH).
    intros w A B. apply in_map_iff in A. destruct A as [x [<- _]].
    apply in_map_iff in B. destruct B as [y [E _]].
    apply cons_eq_inv in E. destruct E as [E _]. lia.
Qed.

Lemma words_text (n : nat) (w : jsstring) : In w (words n) -> base64_text w.
Proof.
  revert w. induction n as [|n IH]; intros w; cbn [words].
  - intros [<-|[]]. constructor.
  - intros M. apply in_app_or in M.
    destruct M as [M|M]; apply in_map_iff in M; destruct M as [x [<- X]];
      (constructor; [lia | exact (IH x X)]).
Qed.

Lemma words_nonblank (n : nat) (w : jsstring) : In w (words (S n)) -> nonblank w.
Proof.
  intros M. unfold nonblank. rewrite (trim_text w (words_text _ _ M)).
  cbn [words] in M. apply in_app_or in M.
  destruct M as [M|M]; apply in_map_iff in M; destruct M as [x [<- _]]; reflexivity.
Qed.

Lemma TextEncoder_encode_text (s : jsstring) :
  base64_text s -> TextEncoder_encode s = map byte_of_Z s.
Proof.
  intros T. unfold TextEncoder_encode.
  induction T as [|c s R _ IH]; [reflexivity|].
  cbn [to_scalars]. unfold is_high_surrogate, is_low_surrogate. zsettle.
  cbn [andb flat_map]. unfold utf8_of_scalar at 1. zsettle.
  cbn [app map]. rewrite IH. reflexivity.
Qed.

Lemma TextEncoder_encode_text_inj (s s' : jsstring) :
  base64_text s -> base64_text s' ->
  TextEncoder_encode s = TextEncoder_encode s' -> s = s'.
Proof.
  intros T T' E.
  rewrite (TextEncoder_encode_text s T), (TextEncoder_encode_text s' T') in E.
  apply (f_equal (map Z_of_byte)) in E.
  rewrite !map_Z_of_byte_of_Z in E; [exact E| |].
  - eapply Forall_impl; [|exact T']. intros c R. cbv beta in R.
    unfold byte_range. lia.
  - eapply Forall_impl; [|exact T]. intros c R. cbv beta in R.
    unfold byte_range. lia.
Qed.

Lemma all_bytes_length : length all_bytes = 256%nat.
Proof. unfold all_bytes. rewrite !length_map, length_seq. reflexivity. Qed.

Lemma all_bytes_all (b : byte) : In b all_bytes.
Proof.
  unfold all_bytes. rewrite <- (byte_of_Z_of_byte b). apply in_map.
  pose proof (Z_of_byte_range b) as R. unfold byte_range in R.
  rewrite <- (Z2Nat.id (Z_of_byte b)) by lia. apply in_map.
  apply in_seq. lia.
Qed.

Lemma byte_strings_length (n : nat) : length (byte_strings n) = (256 ^ n)%nat.
Proof.
  induction n as [|n IH]; [reflexivity|].
  cbn [byte_strings].
  rewrite (flat_map_constant_length (c := length (byte_strings n))).
  - rewrite all_bytes_length, IH, Nat.pow_succ_r'. reflexivity.
  - intros b _. apply length_map.
Qed.

Lemma byte_strings_all (l : bytes) : In l (byte_strings (length l)).
Proof.
  induction l as [|b l IH]; [left; reflexivity|].
  cbn [length byte_strings]. apply in_flat_map.
  exists b. split; [apply all_bytes_all|]. apply in_map. exact IH.
Qed.

Lemma pow_256 (n : nat) : (256 ^ n = 2 ^ (8 * n))%nat.
Proof.
  rewrite Nat.pow_mul_r. reflexivity.
Qed.

Lemma fewer_keys_than_words : (length (byte_strings 32) < length (words 257))%nat.
Proof.
  rewrite byte_strings_length, words_length, pow_256.
  apply Nat.pow_lt_mono_r; lia.
Qed.

Section OtherPasswords.
Context {prim : Primitives}.

(** Under every salt two passwords that are not blank and differ in
    their encodings get the same key from scrypt. *)
Lemma scrypt_collision (salt0 : bytes) :
  PrimitiveLaws prim ->
  exists password other key,
    nonblank password /\ nonblank other
    /\ TextEncoder_encode other <> TextEncoder_encode password
    /\ scrypt (TextEncoder_encode password) salt0 4096 8 1 32 = Some key
    /\ scrypt (TextEncoder_encode other) salt0 4096 8 1 32 = Some key.
Proof.
  intros laws.
  pose (g := fun w : jsstring =>
               match scrypt (TextEncoder_encode w) salt0 4096 8 1 32 with
               | Some key => key
               | None => []
               end).
  assert (forall w, exists key,
             scrypt (TextEncoder_encode w) salt0 4096 8 1 32 = Some key
             /\ g w = key /\ length key = 32%nat) as G.
  { intros w. unfold g.
    destruct (scrypt (TextEncoder_encode w) salt0 4096 8 1 32) as [key|] eqn:S.
    - exists key. split; [reflexivity|]. split; [reflexivity|].
      apply (scrypt_length laws) in S. lia.
    - exfalso. revert S. apply (scrypt_mobile laws). }
  destruct (collision jsstring bytes bytes_eq_dec g (words 257) (byte_strings 32)
              (words_NoDup 257)) as [x [y [X [Y [D E]]]]].
  - intros w _. destruct (G w) as [key [_ [-> L]]]. rewrite <- L.
    apply byte_strings_all.
  - exact fewer_keys_than_words.
  - destruct (G x) as [key [Sx [Gx _]]]. destruct (G y) as [key' [Sy [Gy _]]].
    assert (key' = key) as -> by congruence.
    exists x, y, key.
    split; [exact (words_nonblank 256 x X)|].
    split; [exact (words_nonblank 256 y Y)|].
    split; [|split; assumption].
    intros C. apply D. symmetry.
    exact (TextEncoder_encode_text_inj y x (words_text 257 y Y) (words_text 257 x X) C).
Qed.

(** Whatever the primitives, a vault made without Argon2id has a third
    password and another one, of a different encoding, under which the
    reveal goes through as under the third. *)
Lemma some_other_password_reveals (secret pass1 pass2 : jsstring) (tp : tape) :
  PrimitiveLaws prim -> nonblank pass1 -> nonblank pass2 ->
  exists pass3 other layer3,
    nonblank pass3 /\ nonblank other
    /\ TextEncoder_encode other <> TextEncoder_encode pass3
    /\ tripleEncryptV2 None secret pass1 pass2 pass3 tp = Ok (layer3, tape_skip 120 tp)
    /\ reveal None layer3 other pass2 pass1
       = revealed (TextDecoder_decode (TextEncoder_encode secret)).
Proof.
  intros laws B1 B2.
  destruct (layer_opened None secret pass1 tp laws I) as [layer1 [E1 [T1 [N1 D1]]]].
  destruct (layer_opened None layer1 pass2 (tape_after tp) laws I)
    as [layer2 [E2 [T2 [N2 D2]]]].
  specialize (D1 None (or_introl eq_refl)). specialize (D2 None (or_introl eq_refl)).
  rewrite (TextDecoder_TextEncoder layer1 (transcodable_text layer1 T1)) in D2.
  set (tp2 := tape_after (tape_after tp)) in *.
  destruct (scrypt_collision (drawn_salt tp2) laws)
    as [pass3 [other [key [B3 [Bo [C [S3 So]]]]]]].
  assert (length key = 32%nat) as Lk by (apply (scrypt_length laws) in S3; lia).
  set (layer3 := blobToBase64 (envelope MOBILE_SCRYPT (drawn_salt tp2) (drawn_nonce tp2)
                                 key (TextEncoder_encode layer2))).
  assert (encryptV2 None layer2 pass3 None tp2 = Ok (layer3, tape_after tp2)) as E3.
  { rewrite encryptV2_outcome by (exact laws || exact I).
    rewrite deriveKey_fallback, S3; [reflexivity | discriminate | reflexivity]. }
  assert (decryptAuto None layer3 other = Ok layer2) as D3.
  { rewrite decryptAuto_eq. unfold layer3.
    rewrite (decryptV2_envelope None other MOBILE_SCRYPT MOBILE_SCRYPT
               (drawn_salt tp2) (drawn_nonce tp2) key (TextEncoder_encode layer2) laws
               (drawn_salt_length tp2) (drawn_nonce_length tp2) Lk).
    - rewrite (TextDecoder_TextEncoder layer2 (transcodable_text layer2 T2)).
      reflexivity.
    - change (recorded MOBILE_SCRYPT) with MOBILE_SCRYPT.
      rewrite deriveKey_scrypt_header by reflexivity.
      cbn [MOBILE_SCRYPT kdf_N kdf_r kdf_s_p kdf_keyLen].
      change (Z.shiftl 1 12) with 4096. rewrite So. reflexivity. }
  assert (base64_text layer3) as T3 by apply toBase64_text.
  assert (truthy layer3 = true) as N3 by apply toBase64_truthy, envelope_nonempty.
  exists pass3, other, layer3.
  split; [exact B3|]. split; [exact Bo|]. split; [exact C|].
  split.
  { unfold tripleEncryptV2, mbind. rewrite E1, E2. fold tp2. rewrite E3. reflexivity. }
  unfold reveal.
  rewrite (step1_ok None (setPassword3 other (setEncryptedOutput layer3 initialState))
             layer2) by (reflexivity || assumption).
  cbn [fst].
  match goal with
  | |- context [onStepDecrypt None (setPassword2 pass2 ?st)] =>
      rewrite (step2_ok None (setPassword2 pass2 st) layer1)
        by (reflexivity || assumption)
  end.
  cbn [fst].
  match goal with
  | |- context [onStepDecrypt None (setPassword1 pass1 ?st)] =>
      rewrite (step3_ok None (setPassword1 pass1 st)
                 (TextDecoder_decode (TextEncoder_encode secret)))
        by (reflexivity || assumption)
  end.
  reflexivity.
Qed.

End OtherPasswords.
